(** * TransNet: the notebook's computation graph, its runs and its losses

    The notebook [transNet.ipynb] builds a dataflow graph (placeholders,
    variables, tensors derived from them, two train operations) and then
    drives it with [sess.run].  The development follows that structure:

    - [Kernel]: what the framework's operations compute, on lists of reals
      (float32 arithmetic is idealised to the real numbers);
    - [tf]: the graph itself, as a typed tree of operations, with [eval]
      giving the value a run fetches for a tensor;
    - the notebook's cells, each tensor under the name the notebook binds;
    - the runs: [minimize], [sess.run] on a train operation, and the
      warm-up, training and evaluation loops of the last cell;
    - [Spec]: the formulas of the model's description, stated directly on
      vectors, against which the graph is compared;
    - the statements, each proved for the runs on well-formed input: the
      variables of the declared shapes, batches of ids of the tables and of
      label vectors of [tag_total] entries. *)

From Stdlib Require Import Reals Lra Lia List ZArith Bool Permutation Sorted.
Import ListNotations.
Open Scope R_scope.

(** ** Kernels of the framework's operations *)

Module Kernel.

Abbreviation vector := (list R) (only parsing).
Abbreviation matrix := (list (list R)) (only parsing).

(** Element-wise combination of two lists of the same length. *)
Fixpoint map2 {A B C : Type} (f : A -> B -> C) (l1 : list A) (l2 : list B) : list C :=
  match l1, l2 with
  | a :: l1', b :: l2' => f a b :: map2 f l1' l2'
  | _, _ => []
  end.

Definition sum (v : list R) : R := fold_right Rplus 0 v.

(** [tf.reduce_sum] over every axis of a rank-2 tensor. *)
Definition msum (m : matrix) : R := sum (map sum m).

Definition cols (m : matrix) : nat := length (hd [] m).

(** Row vector times matrix: entry [j] is the sum over [i] of [x_i * w_ij]. *)
Definition vecmat (x : vector) (w : matrix) : vector :=
  map (fun j => sum (map2 (fun a row => a * nth j row 0) x w)) (seq 0 (cols w)).

(** [tf.matmul x w]: every row of [x] times [w]; the rows of [x] must be as
    long as [w] has rows. *)
Definition matmul (x w : matrix) : option matrix :=
  if forallb (fun r => length r =? length w)%nat x
  then Some (map (fun r => vecmat r w) x)
  else None.

(** [m + b] with the vector [b] broadcast over the rows of [m], which must
    be as long as [b]. *)
Definition bias_add (m : matrix) (b : vector) : option matrix :=
  if forallb (fun r => length r =? length b)%nat m
  then Some (map (fun r => map2 Rplus r b) m)
  else None.

(** Two rank-2 tensors of the same shape.  (Where one of two unequal
    dimensions is 1 the framework broadcasts; the notebook never relies on
    it, and such a run counts as failed here.) *)
Fixpoint same_shape (a b : matrix) : bool :=
  match a, b with
  | [], [] => true
  | r :: a', r' :: b' => (length r =? length r')%nat && same_shape a' b'
  | _, _ => false
  end.

(** An element-wise operation on two rank-2 tensors of the same shape. *)
Definition zip_with (f : R -> R -> R) (a b : matrix) : option matrix :=
  if same_shape a b then Some (map2 (map2 f) a b) else None.

Definition pointwise (f : R -> R) (m : matrix) : matrix := map (map f) m.

(** The logistic function on the reals; in float32 it reaches 0 and 1 for
    arguments of large magnitude, as the hyperbolic tangent reaches -1 and
    1. *)
Definition sigmoid (x : R) : R := 1 / (1 + exp (- x)).

(** [tf.nn.l2_loss t] is [sum (t ** 2) / 2]. *)
Definition sum_sq (v : vector) : R := sum (map (fun x => x * x) v).

Definition l2_loss_v (v : vector) : R := sum_sq v / 2.

Definition l2_loss_m (m : matrix) : R := sum (map sum_sq m) / 2.

(** [tf.nn.l2_normalize x 1] with its default [epsilon]:
    [x * rsqrt (maximum (reduce_sum (square x) 1) epsilon)], on the reals:
    in float32 the sum of squares overflows beyond about [3.4e38], and the
    row then comes out as zeros. *)
Definition epsilon : R := 1e-12.

Definition normalize_row (r : vector) : vector :=
  map (fun x => x * / sqrt (Rmax (sum_sq r) epsilon)) r.

Definition l2_normalize (m : matrix) : matrix := map normalize_row m.

(** [tf.nn.embedding_lookup]: row [i] of the table for every id [i]; an id
    outside the table is an error. *)
Definition row_at (table : matrix) (i : Z) : option vector :=
  if (0 <=? i)%Z then nth_error table (Z.to_nat i) else None.

Fixpoint gather (table : matrix) (ids : list Z) : option matrix :=
  match ids with
  | [] => Some []
  | i :: ids' =>
      match row_at table i, gather table ids' with
      | Some r, Some m => Some (r :: m)
      | _, _ => None
      end
  end.

(** [tf.nn.dropout x keep_prob]: a kept entry is scaled by [1 / keep_prob],
    a dropped one is 0.  [keep i j] is the run's random draw for row [i],
    column [j]. *)
Fixpoint dropout_row (keep : nat -> bool) (p : R) (j : nat) (r : vector) : vector :=
  match r with
  | [] => []
  | x :: r' => (x / p * (if keep j then 1 else 0)) :: dropout_row keep p (S j) r'
  end.

Fixpoint dropout_from (keep : nat -> nat -> bool) (p : R) (i : nat) (m : matrix) : matrix :=
  match m with
  | [] => []
  | r :: m' => dropout_row (keep i) p 0 r :: dropout_from keep p (S i) m'
  end.

Definition dropout (keep : nat -> nat -> bool) (p : R) (m : matrix) : matrix :=
  dropout_from keep p 0 m.

(** [tf.reduce_sum x 1 keep_dims=True]: one column holding the row sums. *)
Definition row_sums (m : matrix) : matrix := map (fun r => [sum r]) m.

(** [tf.nn.top_k]: positions of a row ordered by decreasing entry, equal
    entries by increasing position; the first [k] of them.  A row shorter
    than [k] is an error. *)
Fixpoint insert_desc (x : nat * R) (l : list (nat * R)) : list (nat * R) :=
  match l with
  | [] => [x]
  | y :: l' =>
      if Rlt_dec (snd x) (snd y) then y :: insert_desc x l' else x :: l
  end.

Definition ranking (r : vector) : list nat :=
  map fst (fold_right insert_desc [] (combine (seq 0 (length r)) r)).

Definition top_k_row (k : nat) (r : vector) : option (list nat) :=
  if (k <=? length r)%nat then Some (firstn k (ranking r)) else None.

Fixpoint top_k (k : nat) (m : matrix) : option (list (list nat)) :=
  match m with
  | [] => Some []
  | r :: m' =>
      match top_k_row k r, top_k k m' with
      | Some i, Some rest => Some (i :: rest)
      | _, _ => None
      end
  end.

(** [tf.one_hot indices depth]: for every index the vector of length
    [depth] that is 1 at the index and 0 elsewhere. *)
Definition one_hot_vec (depth i : nat) : vector :=
  map (fun j => if (j =? i)%nat then 1 else 0) (seq 0 depth).

(** A rank-3 tensor: the length of its last axis and, for every batch
    entry, a list of vectors of that length. *)
Definition cube : Type := nat * list matrix.

Definition one_hot (depth : nat) (idx : list (list nat)) : cube :=
  (depth, map (map (one_hot_vec depth)) idx).

(** [tf.reduce_sum x 1] on a rank-3 tensor: the vectors of each batch entry
    added up. *)
Definition column_sums (depth : nat) (m : matrix) : vector :=
  map (fun j => sum (map (fun r => nth j r 0) m)) (seq 0 depth).

Definition reduce_axis1 (c : cube) : matrix := map (column_sums (fst c)) (snd c).

End Kernel.

Import Kernel.

(** ** The graph *)

(** Ranks and element types of the tensors the notebook builds. *)
Inductive kind : Type :=
| KScalar    (* float32, rank 0 *)
| KVector    (* float32, rank 1 *)
| KMatrix    (* float32, rank 2 *)
| KIds       (* int32, rank 1: vertex ids *)
| KIndices   (* int32, rank 2: label positions *)
| KCube.     (* float32, rank 3 *)

Definition value (k : kind) : Type :=
  match k with
  | KScalar => R
  | KVector => vector
  | KMatrix => matrix
  | KIds => list Z
  | KIndices => list (list nat)
  | KCube => cube
  end.

(** The int32 placeholders of shape [[None]] and the float32 placeholders of
    shape [[None, tag_total]]. *)
Inductive int_input : Type := In_pos_h | In_pos_t | In_neg_h | In_neg_t.
Inductive float_input : Type := In_pos_r | In_pos_br | In_neg_r | In_neg_br.

(** The keys of the three dictionaries of variables: [node_lookup],
    [relation_weights] (both rank 2) and [relation_biases] (rank 1). *)
Inductive embedding_key : Type := int_embeddings | adv_embeddings.
Inductive weight_key : Type := encoder_w | decoder_w.
Inductive bias_key : Type := encoder_b | decoder_b.

Inductive variable : Type :=
| Embedding (key : embedding_key)
| Weight (key : weight_key)
| Bias (key : bias_key).

(** The two [tf.nn.dropout] nodes, one per call of [autoencoder]. *)
Inductive dropout_node : Type := Drop_pos | Drop_neg.

Module tf.

Inductive tensor : kind -> Type :=
| placeholder_int32 (p : int_input) : tensor KIds
| placeholder (p : float_input) : tensor KMatrix
| embedding_variable (key : embedding_key) : tensor KMatrix
| weight_variable (key : weight_key) : tensor KMatrix
| bias_variable (key : bias_key) : tensor KVector
| constant (c : R) : tensor KScalar
| embedding_lookup (params : tensor KMatrix) (ids : tensor KIds) : tensor KMatrix
| l2_normalize_1 (x : tensor KMatrix) : tensor KMatrix
| matmul (a b : tensor KMatrix) : tensor KMatrix
| add_bias (x : tensor KMatrix) (b : tensor KVector) : tensor KMatrix
| add (a b : tensor KMatrix) : tensor KMatrix
| subtract (a b : tensor KMatrix) : tensor KMatrix
| multiply (a b : tensor KMatrix) : tensor KMatrix
| add_scalar (a : tensor KMatrix) (c : tensor KScalar) : tensor KMatrix
| maximum (a : tensor KMatrix) (c : tensor KScalar) : tensor KMatrix
| abs (x : tensor KMatrix) : tensor KMatrix
| tanh (x : tensor KMatrix) : tensor KMatrix
| sigmoid (x : tensor KMatrix) : tensor KMatrix
| dropout (node : dropout_node) (x : tensor KMatrix) (keep_prob : R) : tensor KMatrix
| l2_loss (x : tensor KMatrix) : tensor KScalar
| l2_loss1 (x : tensor KVector) : tensor KScalar
| reduce_sum (x : tensor KMatrix) : tensor KScalar
| reduce_sum_1_keep_dims (x : tensor KMatrix) : tensor KMatrix
| plus (a b : tensor KScalar) : tensor KScalar
| times (a b : tensor KScalar) : tensor KScalar
| top_k_indices (x : tensor KMatrix) (k : nat) : tensor KIndices
| one_hot (indices : tensor KIndices) (depth : nat) : tensor KCube
| reduce_sum_1 (x : tensor KCube) : tensor KMatrix.

End tf.

(** What a run is given: the values of the variables, the fed placeholders
    (a placeholder left out of [feed_dict] is [None]) and the random draws of
    the dropout nodes. *)
Record variables : Type := {
  embeddings : embedding_key -> matrix;
  weights : weight_key -> matrix;
  biases : bias_key -> vector
}.

Record feed_dict : Type := {
  fed_ids : int_input -> option (list Z);
  fed : float_input -> option matrix
}.

Definition draws : Type := dropout_node -> nat -> nat -> bool.

Definition bind {A B : Type} (o : option A) (f : A -> option B) : option B :=
  match o with
  | Some a => f a
  | None => None
  end.

Notation "x <- o ;; k" := (bind o (fun x => k))
  (at level 61, o at next level, right associativity).

(** The value a run computes for a tensor; [None] when the run fails (an
    unfed placeholder, a vertex id outside the table, operands whose shapes
    do not fit, fewer than [k] columns for [top_k]). *)
Fixpoint eval {k : kind} (t : tf.tensor k) (vs : variables) (fd : feed_dict)
  (rnd : draws) : option (value k) :=
  match t in tf.tensor k return option (value k) with
  | tf.placeholder_int32 p => fed_ids fd p
  | tf.placeholder p => fed fd p
  | tf.embedding_variable key => Some (embeddings vs key)
  | tf.weight_variable key => Some (weights vs key)
  | tf.bias_variable key => Some (biases vs key)
  | tf.constant c => Some c
  | tf.embedding_lookup params ids =>
      table <- eval params vs fd rnd ;;
      i <- eval ids vs fd rnd ;;
      gather table i
  | tf.l2_normalize_1 x =>
      m <- eval x vs fd rnd ;; Some (l2_normalize m)
  | tf.matmul a b =>
      x <- eval a vs fd rnd ;;
      w <- eval b vs fd rnd ;;
      Kernel.matmul x w
  | tf.add_bias x b =>
      m <- eval x vs fd rnd ;;
      v <- eval b vs fd rnd ;;
      bias_add m v
  | tf.add a b =>
      x <- eval a vs fd rnd ;;
      y <- eval b vs fd rnd ;;
      zip_with Rplus x y
  | tf.subtract a b =>
      x <- eval a vs fd rnd ;;
      y <- eval b vs fd rnd ;;
      zip_with Rminus x y
  | tf.multiply a b =>
      x <- eval a vs fd rnd ;;
      y <- eval b vs fd rnd ;;
      zip_with Rmult x y
  | tf.add_scalar a c =>
      x <- eval a vs fd rnd ;;
      y <- eval c vs fd rnd ;;
      Some (pointwise (fun e => e + y) x)
  | tf.maximum a c =>
      x <- eval a vs fd rnd ;;
      y <- eval c vs fd rnd ;;
      Some (pointwise (fun e => Rmax e y) x)
  | tf.abs x =>
      m <- eval x vs fd rnd ;; Some (pointwise Rabs m)
  | tf.tanh x =>
      m <- eval x vs fd rnd ;; Some (pointwise Rtrigo_def.tanh m)
  | tf.sigmoid x =>
      m <- eval x vs fd rnd ;; Some (pointwise Kernel.sigmoid m)
  | tf.dropout node x keep_prob =>
      m <- eval x vs fd rnd ;; Some (Kernel.dropout (rnd node) keep_prob m)
  | tf.l2_loss x =>
      m <- eval x vs fd rnd ;; Some (l2_loss_m m)
  | tf.l2_loss1 x =>
      v <- eval x vs fd rnd ;; Some (l2_loss_v v)
  | tf.reduce_sum x =>
      m <- eval x vs fd rnd ;; Some (msum m)
  | tf.reduce_sum_1_keep_dims x =>
      m <- eval x vs fd rnd ;; Some (row_sums m)
  | tf.plus a b =>
      x <- eval a vs fd rnd ;;
      y <- eval b vs fd rnd ;;
      Some (x + y)
  | tf.times a b =>
      x <- eval a vs fd rnd ;;
      y <- eval b vs fd rnd ;;
      Some (x * y)
  | tf.top_k_indices x k =>
      m <- eval x vs fd rnd ;; top_k k m
  | tf.one_hot indices depth =>
      i <- eval indices vs fd rnd ;; Some (Kernel.one_hot depth i)
  | tf.reduce_sum_1 x =>
      c <- eval x vs fd rnd ;; Some (reduce_axis1 c)
  end.

(** Which variables, placeholders and dropout nodes a tensor is computed
    from. *)
Fixpoint variables_of {k : kind} (t : tf.tensor k) : list variable :=
  match t with
  | tf.embedding_variable key => [Embedding key]
  | tf.weight_variable key => [Weight key]
  | tf.bias_variable key => [Bias key]
  | tf.placeholder_int32 _ | tf.placeholder _ | tf.constant _ => []
  | tf.embedding_lookup a b => variables_of a ++ variables_of b
  | tf.matmul a b | tf.add a b | tf.subtract a b | tf.multiply a b =>
      variables_of a ++ variables_of b
  | tf.add_bias a b => variables_of a ++ variables_of b
  | tf.add_scalar a c | tf.maximum a c => variables_of a ++ variables_of c
  | tf.plus a b | tf.times a b => variables_of a ++ variables_of b
  | tf.l2_normalize_1 x | tf.abs x | tf.tanh x | tf.sigmoid x
  | tf.dropout _ x _ | tf.reduce_sum_1_keep_dims x => variables_of x
  | tf.l2_loss x | tf.reduce_sum x => variables_of x
  | tf.l2_loss1 x => variables_of x
  | tf.top_k_indices x _ => variables_of x
  | tf.one_hot x _ => variables_of x
  | tf.reduce_sum_1 x => variables_of x
  end.

Fixpoint dropouts_of {k : kind} (t : tf.tensor k) : list dropout_node :=
  match t with
  | tf.dropout node x _ => node :: dropouts_of x
  | tf.embedding_variable _ | tf.weight_variable _ | tf.bias_variable _
  | tf.placeholder_int32 _ | tf.placeholder _ | tf.constant _ => []
  | tf.embedding_lookup a b => dropouts_of a ++ dropouts_of b
  | tf.matmul a b | tf.add a b | tf.subtract a b | tf.multiply a b =>
      dropouts_of a ++ dropouts_of b
  | tf.add_bias a b => dropouts_of a ++ dropouts_of b
  | tf.add_scalar a c | tf.maximum a c => dropouts_of a ++ dropouts_of c
  | tf.plus a b | tf.times a b => dropouts_of a ++ dropouts_of b
  | tf.l2_normalize_1 x | tf.abs x | tf.tanh x | tf.sigmoid x
  | tf.reduce_sum_1_keep_dims x => dropouts_of x
  | tf.l2_loss x | tf.reduce_sum x => dropouts_of x
  | tf.l2_loss1 x => dropouts_of x
  | tf.top_k_indices x _ => dropouts_of x
  | tf.one_hot x _ => dropouts_of x
  | tf.reduce_sum_1 x => dropouts_of x
  end.

Inductive input : Type :=
| IntIn (p : int_input)
| FloatIn (p : float_input).

Fixpoint inputs_of {k : kind} (t : tf.tensor k) : list input :=
  match t with
  | tf.placeholder_int32 p => [IntIn p]
  | tf.placeholder p => [FloatIn p]
  | tf.embedding_variable _ | tf.weight_variable _ | tf.bias_variable _
  | tf.constant _ => []
  | tf.embedding_lookup a b => inputs_of a ++ inputs_of b
  | tf.matmul a b | tf.add a b | tf.subtract a b | tf.multiply a b =>
      inputs_of a ++ inputs_of b
  | tf.add_bias a b => inputs_of a ++ inputs_of b
  | tf.add_scalar a c | tf.maximum a c => inputs_of a ++ inputs_of c
  | tf.plus a b | tf.times a b => inputs_of a ++ inputs_of b
  | tf.l2_normalize_1 x | tf.abs x | tf.tanh x | tf.sigmoid x
  | tf.dropout _ x _ | tf.reduce_sum_1_keep_dims x => inputs_of x
  | tf.l2_loss x | tf.reduce_sum x => inputs_of x
  | tf.l2_loss1 x => inputs_of x
  | tf.top_k_indices x _ => inputs_of x
  | tf.one_hot x _ => inputs_of x
  | tf.reduce_sum_1 x => inputs_of x
  end.

(** ** The notebook's cells *)

(** The dataset object [aminer]: sizes and batch providers.  A provider is
    called once per step; its first argument here is the number of calls made
    before, the others are the arguments of the call. *)
Record dataset : Type := {
  entity_total : nat;
  tag_total : nat;
  train_num_examples : nat;
  test_num_examples : nat;
  next_autoencoder_batch : nat -> nat -> R -> matrix * matrix;
  next_batch : nat -> nat -> R ->
    (list Z * list Z * matrix * matrix) * (list Z * list Z * matrix * matrix);
  next_test_batch : nat -> nat -> list Z * list Z * matrix
}.

(** Parameters *)
Definition learning_rate : R := 0.001.
Definition warm_up_epochs : nat := 20.
Definition epochs : nat := 66.
Definition batch_size : nat := 100.
Definition eval_batch_size : nat := 2000.
Definition display_step : nat := 5.

Definition gamma : R := 1.
Definition alpha : R := 0.5.
Definition l2_lambda : R := 0.001.
Definition beta : R := 50.0.
Definition keep_prob : R := 0.5.
Definition rep_size : nat := 64.

Definition hits_k : list nat := [1; 5; 10]%nat.

(** input *)
Definition pos_h : tf.tensor KIds := tf.placeholder_int32 In_pos_h.
Definition pos_t : tf.tensor KIds := tf.placeholder_int32 In_pos_t.
Definition pos_r : tf.tensor KMatrix := tf.placeholder In_pos_r.
Definition pos_br : tf.tensor KMatrix := tf.placeholder In_pos_br.

Definition neg_h : tf.tensor KIds := tf.placeholder_int32 In_neg_h.
Definition neg_t : tf.tensor KIds := tf.placeholder_int32 In_neg_t.
Definition neg_r : tf.tensor KMatrix := tf.placeholder In_neg_r.
Definition neg_br : tf.tensor KMatrix := tf.placeholder In_neg_br.

(** embedding *)
Definition node_lookup (key : embedding_key) : tf.tensor KMatrix :=
  tf.embedding_variable key.

Definition lookup (pos_head pos_tail neg_head neg_tail : tf.tensor KIds)
  (lookup : embedding_key -> tf.tensor KMatrix)
  : tf.tensor KMatrix * tf.tensor KMatrix * tf.tensor KMatrix * tf.tensor KMatrix :=
  let pos_head_e :=
    tf.l2_normalize_1 (tf.embedding_lookup (lookup int_embeddings) pos_head) in
  let pos_tail_e :=
    tf.l2_normalize_1 (tf.embedding_lookup (lookup adv_embeddings) pos_tail) in
  let neg_head_e :=
    tf.l2_normalize_1 (tf.embedding_lookup (lookup int_embeddings) neg_head) in
  let neg_tail_e :=
    tf.l2_normalize_1 (tf.embedding_lookup (lookup adv_embeddings) neg_tail) in
  (pos_head_e, pos_tail_e, neg_head_e, neg_tail_e).

Definition looked_up := lookup pos_h pos_t neg_h neg_t node_lookup.
Definition pos_h_e : tf.tensor KMatrix := fst (fst (fst looked_up)).
Definition pos_t_e : tf.tensor KMatrix := snd (fst (fst looked_up)).
Definition neg_h_e : tf.tensor KMatrix := snd (fst looked_up).
Definition neg_t_e : tf.tensor KMatrix := snd looked_up.

(** autoencoder *)
Definition relation_weights (key : weight_key) : tf.tensor KMatrix :=
  tf.weight_variable key.
Definition relation_biases (key : bias_key) : tf.tensor KVector :=
  tf.bias_variable key.

(** Every call adds its own dropout node to the graph; [node] names it. *)
Definition autoencoder (node : dropout_node)
  (W : weight_key -> tf.tensor KMatrix) (B : bias_key -> tf.tensor KVector)
  (x : tf.tensor KMatrix) : tf.tensor KMatrix * tf.tensor KMatrix :=
  let rep :=
    tf.dropout node
      (tf.tanh (tf.add_bias (tf.matmul x (W encoder_w)) (B encoder_b))) keep_prob in
  let decode_x :=
    tf.sigmoid (tf.add_bias (tf.matmul rep (W decoder_w)) (B decoder_b)) in
  (rep, decode_x).

Definition pos_r_rep := fst (autoencoder Drop_pos relation_weights relation_biases pos_r).
Definition pos_r_dec := snd (autoencoder Drop_pos relation_weights relation_biases pos_r).
Definition neg_r_rep := fst (autoencoder Drop_neg relation_weights relation_biases neg_r).
Definition neg_r_dec := snd (autoencoder Drop_neg relation_weights relation_biases neg_r).

(** loss *)
(** L2-norm regularizer *)
Definition relation_ae_l2_loss : tf.tensor KScalar :=
  tf.plus (tf.plus (tf.plus
    (tf.l2_loss (relation_weights encoder_w))
    (tf.l2_loss (relation_weights decoder_w)))
    (tf.l2_loss1 (relation_biases encoder_b)))
    (tf.l2_loss1 (relation_biases decoder_b)).

(** L1-norm to measure the reconstruction distance (reconstruction loss) *)
Definition relation_loss : tf.tensor KScalar :=
  tf.plus
    (tf.reduce_sum (tf.abs (tf.multiply (tf.subtract pos_r_dec pos_r) pos_br)))
    (tf.reduce_sum (tf.abs (tf.multiply (tf.subtract neg_r_dec neg_r) neg_br))).

(** warm-up reconstruction loss *)
Definition relation_pos_r_loss : tf.tensor KScalar :=
  tf.plus
    (tf.reduce_sum (tf.abs (tf.multiply (tf.subtract pos_r_dec pos_r) pos_br)))
    (tf.times (tf.constant l2_lambda) relation_ae_l2_loss).

(** positive distance *)
Definition pos : tf.tensor KMatrix :=
  tf.reduce_sum_1_keep_dims
    (tf.abs (tf.subtract (tf.add pos_h_e pos_r_rep) pos_t_e)).
(** negative distance *)
Definition neg : tf.tensor KMatrix :=
  tf.reduce_sum_1_keep_dims
    (tf.abs (tf.subtract (tf.add neg_h_e neg_r_rep) neg_t_e)).
Definition trans_loss : tf.tensor KScalar :=
  tf.reduce_sum
    (tf.maximum (tf.add_scalar (tf.subtract pos neg) (tf.constant gamma))
       (tf.constant 0)).

Definition loss : tf.tensor KScalar :=
  tf.plus
    (tf.plus trans_loss (tf.times (tf.constant alpha) relation_loss))
    (tf.times (tf.constant l2_lambda) relation_ae_l2_loss).

(** evaluate *)
Definition relation_sum : tf.tensor KScalar := tf.reduce_sum pos_r.
Definition pos_r_minus : tf.tensor KMatrix := tf.subtract pos_t_e pos_h_e.
(** pos_r_minus_dec is the predicted label vector hat s *)
Definition pos_r_minus_dec : tf.tensor KMatrix :=
  tf.sigmoid
    (tf.add_bias (tf.matmul pos_r_minus (relation_weights decoder_w))
       (relation_biases decoder_b)).

(** The body of [for k in hits_k]: the tensor appended to [hits]. *)
Definition hits_at (aminer : dataset) (k : nat) : tf.tensor KScalar :=
  (* find the indices of top k labels *)
  let topk_indices := tf.top_k_indices pos_r_minus_dec k in
  (* transform indices to 0,1 vectors whose size is total label size *)
  let pred := tf.reduce_sum_1 (tf.one_hot topk_indices (tag_total aminer)) in
  (* compare preds and original relation labels to get correct numbers *)
  tf.reduce_sum (tf.multiply pred pos_r).

Definition hits (aminer : dataset) : list (tf.tensor KScalar) :=
  map (hits_at aminer) hits_k.

(** ** Runs of the graph *)

Inductive exception : Type :=
| InvalidArgumentError   (* a failed [sess.run], of whatever class *)
| ZeroDivisionError.

Inductive outcome (A : Type) : Type :=
| Ok (a : A)
| Raised (e : exception).
Arguments Ok {A} a.
Arguments Raised {A} e.

(** A quotient of two NumPy scalars: division by zero gives [nan] or an
    infinity together with a warning, and the program goes on. *)
Inductive reported : Type :=
| Value (x : R)
| NaN
| PosInf
| NegInf.

Definition np_divide (x y : R) : reported :=
  if Req_dec_T y 0 then
    if Req_dec_T x 0 then NaN else if Rlt_dec 0 x then PosInf else NegInf
  else Value (x / y).

(** A quotient of two Python numbers: division by zero raises. *)
Definition py_divide (x y : R) : outcome reported :=
  if Req_dec_T y 0 then Raised ZeroDivisionError else Ok (Value (x / y)).

Definition variable_eqb (a b : variable) : bool :=
  match a, b with
  | Embedding int_embeddings, Embedding int_embeddings
  | Embedding adv_embeddings, Embedding adv_embeddings
  | Weight encoder_w, Weight encoder_w
  | Weight decoder_w, Weight decoder_w
  | Bias encoder_b, Bias encoder_b
  | Bias decoder_b, Bias decoder_b => true
  | _, _ => false
  end.

Definition mentions (l : list variable) (v : variable) : bool :=
  existsb (variable_eqb v) l.

(** [tf.trainable_variables ()], in the order the notebook creates them. *)
Definition trainable_variables : list variable :=
  [Embedding int_embeddings; Embedding adv_embeddings;
   Weight encoder_w; Weight decoder_w; Bias encoder_b; Bias decoder_b].

(** The feeds of the three kinds of run in the last cell. *)
Definition no_ids : int_input -> option (list Z) := fun _ => None.

Definition warm_up_feed (vecs bs : matrix) : feed_dict :=
  {| fed_ids := no_ids;
     fed := fun p =>
       match p with
       | In_pos_r => Some vecs
       | In_pos_br => Some bs
       | _ => None
       end |}.

Definition train_feed
  (pos_h_batch pos_t_batch : list Z) (pos_r_batch pos_b_batch : matrix)
  (neg_h_batch neg_t_batch : list Z) (neg_r_batch neg_b_batch : matrix) : feed_dict :=
  {| fed_ids := fun p =>
       match p with
       | In_pos_h => Some pos_h_batch
       | In_pos_t => Some pos_t_batch
       | In_neg_h => Some neg_h_batch
       | In_neg_t => Some neg_t_batch
       end;
     fed := fun p =>
       match p with
       | In_pos_r => Some pos_r_batch
       | In_pos_br => Some pos_b_batch
       | In_neg_r => Some neg_r_batch
       | In_neg_br => Some neg_b_batch
       end |}.

Definition test_feed (pos_h_batch pos_t_batch : list Z) (pos_r_batch : matrix)
  : feed_dict :=
  {| fed_ids := fun p =>
       match p with
       | In_pos_h => Some pos_h_batch
       | In_pos_t => Some pos_t_batch
       | _ => None
       end;
     fed := fun p =>
       match p with
       | In_pos_r => Some pos_r_batch
       | _ => None
       end |}.

(** [sess.run] on a list of scalar fetches. *)
Fixpoint run_all (fetches : list (tf.tensor KScalar)) (vs : variables)
  (fd : feed_dict) (rnd : draws) : option (list R) :=
  match fetches with
  | [] => Some []
  | t :: rest =>
      x <- eval t vs fd rnd ;;
      xs <- run_all rest vs fd rnd ;;
      Some (x :: xs)
  end.

Definition total_batch (aminer : dataset) : nat :=
  (train_num_examples aminer / batch_size)%nat.
Definition test_total_batch (aminer : dataset) : nat :=
  (test_num_examples aminer / eval_batch_size)%nat.

(** The evaluation block: [hits_] and [all_count] accumulated over the test
    batches.  [call] counts the calls of [next_test_batch] made so far. *)
Fixpoint evaluation_batches (aminer : dataset) (vs : variables) (rnd : nat -> draws)
  (n call : nat) (hits_ : list R) (all_count : R) : outcome (list R * R) :=
  match n with
  | O => Ok (hits_, all_count)
  | S n' =>
      let '(pos_h_batch, pos_t_batch, pos_r_batch) :=
        next_test_batch aminer call eval_batch_size in
      let fd := test_feed pos_h_batch pos_t_batch pos_r_batch in
      match run_all (hits aminer) vs fd (rnd call), eval relation_sum vs fd (rnd call) with
      | Some cur_hits, Some cur_sum =>
          evaluation_batches aminer vs rnd n' (S call)
            (map2 Rplus hits_ cur_hits) (all_count + cur_sum)
      | _, _ => Raised InvalidArgumentError
      end
  end.

(** [r = [hit/all_count for hit in hits_]]: before the first batch the
    operands are Python numbers, after it NumPy scalars. *)
Fixpoint quotients (native : bool) (hits_ : list R) (all_count : R)
  : outcome (list reported) :=
  match hits_ with
  | [] => Ok []
  | hit :: rest =>
      match (if native then py_divide hit all_count
             else Ok (np_divide hit all_count)) with
      | Raised e => Raised e
      | Ok q =>
          match quotients native rest all_count with
          | Raised e => Raised e
          | Ok qs => Ok (q :: qs)
          end
      end
  end.

Definition evaluate (aminer : dataset) (vs : variables) (rnd : nat -> draws)
  (call : nat) : outcome (list reported) :=
  let hits_ := repeat 0 (length hits_k) in
  let all_count := 0.0 in
  match evaluation_batches aminer vs rnd (test_total_batch aminer) call hits_ all_count with
  | Raised e => Raised e
  | Ok (hits_, all_count) =>
      quotients (Nat.eqb (test_total_batch aminer) 0) hits_ all_count
  end.

Section Training.

(** Adam's accumulators, and the values an Adam step of a given learning
    rate on a given objective computes for the variables.  The arithmetic is
    the framework's; what the notebook decides is which objective is
    minimized and, through it, which variables a step writes. *)
Variable slots : Type.
Variable adam :
  R -> tf.tensor KScalar -> variables -> slots -> feed_dict -> draws ->
  variables * slots.

Record session : Type := {
  vars : variables;
  accumulators : slots
}.

(** [tf.train.AdamOptimizer(rate).minimize(loss)]: the gradient of [loss]
    with respect to a trainable variable it is not computed from is
    [None], and such a variable is left out of the update. *)
Record train_op : Type := {
  objective : tf.tensor KScalar;
  rate : R;
  var_list : list variable
}.

Definition minimize (rate : R) (loss : tf.tensor KScalar) : train_op :=
  {| objective := loss;
     rate := rate;
     var_list := filter (mentions (variables_of loss)) trainable_variables |}.

(** warm-up optimizer *)
Definition relation_optimizer : train_op := minimize learning_rate relation_pos_r_loss.
(** overall loss optimizer *)
Definition optimizer : train_op := minimize learning_rate loss.

Definition apply_gradients (op : train_op) (s : session) (fd : feed_dict)
  (rnd : draws) : session :=
  let (stepped, acc) := adam (rate op) (objective op) (vars s) (accumulators s) fd rnd in
  {| vars :=
       {| embeddings := fun key =>
            if mentions (var_list op) (Embedding key)
            then embeddings stepped key else embeddings (vars s) key;
          weights := fun key =>
            if mentions (var_list op) (Weight key)
            then weights stepped key else weights (vars s) key;
          biases := fun key =>
            if mentions (var_list op) (Bias key)
            then biases stepped key else biases (vars s) key |};
     accumulators := acc |}.

(** [sess.run([op, fetch], feed_dict)]: the fetched loss is the one the
    step differentiates, computed before the variables are written. *)
Definition run_step (op : train_op) (fetch : tf.tensor KScalar) (s : session)
  (fd : feed_dict) (rnd : draws) : option (session * R) :=
  cur_loss <- eval fetch (vars s) fd rnd ;;
  _ <- eval (objective op) (vars s) fd rnd ;;
  Some (apply_gradients op s fd rnd, cur_loss).

Inductive line : Type :=
| Warm_up_relation_epoch (epoch : nat) (sum_loss : R)
| Train_TransNet_epoch (epoch : nat) (sum_loss : R)
| Evaluating
| Hits (k : nat) (r : reported).

(** The state the last cell threads through its loops: the session, how
    often each provider has been called, how many runs have drawn random
    numbers (the training steps: no dropout node is run by an evaluation),
    and the lines printed. *)
Record progress : Type := {
  sess : session;
  autoencoder_batches : nat;
  train_batches : nat;
  test_batches : nat;
  runs : nat;
  printed : list line
}.

Variable aminer : dataset.
Variable random : nat -> draws.

(** [for i in range(total_batch)] of the warm-up. *)
Fixpoint warm_up_epoch (n : nat) (st : progress) (sum_loss : R)
  : outcome (progress * R) :=
  match n with
  | O => Ok (st, sum_loss)
  | S n' =>
      let (vecs, bs) :=
        next_autoencoder_batch aminer (autoencoder_batches st) batch_size beta in
      match run_step relation_optimizer relation_pos_r_loss (sess st)
              (warm_up_feed vecs bs) (random (runs st)) with
      | None => Raised InvalidArgumentError
      | Some (s, cur_loss) =>
          warm_up_epoch n'
            {| sess := s;
               autoencoder_batches := S (autoencoder_batches st);
               train_batches := train_batches st;
               test_batches := test_batches st;
               runs := S (runs st);
               printed := printed st |}
            (sum_loss + cur_loss)
      end
  end.

Definition print (l : line) (st : progress) : progress :=
  {| sess := sess st;
     autoencoder_batches := autoencoder_batches st;
     train_batches := train_batches st;
     test_batches := test_batches st;
     runs := runs st;
     printed := printed st ++ [l] |}.

(** [for epoch in range(warm_up_epochs)], from epoch [epoch] on. *)
Fixpoint warm_up (n epoch : nat) (st : progress) : outcome progress :=
  match n with
  | O => Ok st
  | S n' =>
      match warm_up_epoch (total_batch aminer) st 0.0 with
      | Raised e => Raised e
      | Ok (st', sum_loss) =>
          warm_up n' (S epoch) (print (Warm_up_relation_epoch epoch sum_loss) st')
      end
  end.

(** [for i in range(total_batch)] of the joint training. *)
Fixpoint train_epoch (n : nat) (st : progress) (sum_loss : R)
  : outcome (progress * R) :=
  match n with
  | O => Ok (st, sum_loss)
  | S n' =>
      let '((pos_h_batch, pos_t_batch, pos_r_batch, pos_b_batch),
            (neg_h_batch, neg_t_batch, neg_r_batch, neg_b_batch)) :=
        next_batch aminer (train_batches st) batch_size beta in
      match run_step optimizer loss (sess st)
              (train_feed pos_h_batch pos_t_batch pos_r_batch pos_b_batch
                 neg_h_batch neg_t_batch neg_r_batch neg_b_batch)
              (random (runs st)) with
      | None => Raised InvalidArgumentError
      | Some (s, cur_loss) =>
          train_epoch n'
            {| sess := s;
               autoencoder_batches := autoencoder_batches st;
               train_batches := S (train_batches st);
               test_batches := test_batches st;
               runs := S (runs st);
               printed := printed st |}
            (sum_loss + cur_loss)
      end
  end.

Fixpoint print_hits (ks : list nat) (r : list reported) (st : progress) : progress :=
  match ks, r with
  | k :: ks', q :: r' => print_hits ks' r' (print (Hits k q) st)
  | _, _ => st
  end.

(** [for epoch in range(epochs)], from epoch [epoch] on, with the
    evaluation every [display_step] epochs. *)
Fixpoint train (n epoch : nat) (st : progress) : outcome progress :=
  match n with
  | O => Ok st
  | S n' =>
      match train_epoch (total_batch aminer) st 0.0 with
      | Raised e => Raised e
      | Ok (st1, sum_loss) =>
          let st2 := print (Train_TransNet_epoch epoch sum_loss) st1 in
          if (epoch mod display_step =? 0)%nat then
            match evaluate aminer (vars (sess st2)) (fun _ => random (runs st2))
                    (test_batches st2) with
            | Raised e => Raised e
            | Ok r =>
                train n' (S epoch)
                  (print_hits hits_k r
                     {| sess := sess st2;
                        autoencoder_batches := autoencoder_batches st2;
                        train_batches := train_batches st2;
                        test_batches := test_batches st2 + test_total_batch aminer;
                        runs := runs st2;
                        printed := printed st2 ++ [Evaluating] |})
            end
          else train n' (S epoch) st2
      end
  end.

(** The state of the last cell before its first loop. *)
Definition start (s : session) : progress :=
  {| sess := s; autoencoder_batches := 0; train_batches := 0;
     test_batches := 0; runs := 0; printed := [] |}.

(** The last cell after [sess.run(init)]. *)
Definition main (s : session) : outcome progress :=
  match warm_up warm_up_epochs 0 (start s) with
  | Raised e => Raised e
  | Ok st => train epochs 0 st
  end.

End Training.

Arguments vars {slots} s.
Arguments accumulators {slots} s.
Arguments sess {slots} p.
Arguments autoencoder_batches {slots} p.
Arguments train_batches {slots} p.
Arguments test_batches {slots} p.
Arguments runs {slots} p.
Arguments printed {slots} p.
Arguments apply_gradients {slots} adam op s fd rnd.
Arguments run_step {slots} adam op fetch s fd rnd.
Arguments print {slots} l st.
Arguments print_hits {slots} ks r st.
Arguments warm_up_epoch {slots} adam aminer random n st sum_loss.
Arguments warm_up {slots} adam aminer random n epoch st.
Arguments train_epoch {slots} adam aminer random n st sum_loss.
Arguments train {slots} adam aminer random n epoch st.
Arguments start {slots} s.
Arguments main {slots} adam aminer random s.

(** ** The model as its description states it *)

Module Spec.

Definition vadd (a b : vector) : vector := map2 Rplus a b.
Definition vsub (a b : vector) : vector := map2 Rminus a b.
Definition hadamard (a b : vector) : vector := map2 Rmult a b.

(** The L1 norm, the squared L2 norm of a vector and the squared Frobenius
    norm of a matrix. *)
Definition l1 (v : vector) : R := sum (map Rabs v).
Definition sq_norm (v : vector) : R := sum (map Rsqr v).
Definition frobenius_sq (m : matrix) : R := sum (map sq_norm m).
Definition l2_norm (v : vector) : R := sqrt (sq_norm v).

(** Encode: [rep = tanh (x . W_enc + b_enc)]; decode:
    [s_hat = sigmoid (rep . W_dec + b_dec)]. *)
Definition encode (W_enc : matrix) (b_enc x : vector) : vector :=
  map Rtrigo_def.tanh (vadd (vecmat x W_enc) b_enc).

Definition decode (W_dec : matrix) (b_dec rep : vector) : vector :=
  map sigmoid (vadd (vecmat rep W_dec) b_dec).

(** The hidden representations of a batch of label vectors: the encoding
    followed by the dropout mask [keep]. *)
Definition hidden (W_enc : matrix) (b_enc : vector) (keep : nat -> nat -> bool)
  (keep_prob : R) (labels : matrix) : matrix :=
  Kernel.dropout keep keep_prob (map (encode W_enc b_enc) labels).

(** Weighted reconstruction loss: [L_ae = sum |(s_hat - s) (.) w|]. *)
Definition L_ae (s_hat s w : vector) : R := l1 (hadamard (vsub s_hat s) w).

(** Its sum over the label vectors of a batch. *)
Definition L_ae_batch (s_hat s w : matrix) : R :=
  sum (map2 (fun p w_e => L_ae (fst p) (snd p) w_e) (combine s_hat s) w).

(** Regularizer:
    [L_reg = ||W_enc||^2 + ||W_dec||^2 + ||b_enc||^2 + ||b_dec||^2]. *)
Definition L_reg (W_enc W_dec : matrix) (b_enc b_dec : vector) : R :=
  frobenius_sq W_enc + frobenius_sq W_dec + sq_norm b_enc + sq_norm b_dec.

(** Distance: [d (u, v, l) = sum |u + l - v'|]. *)
Definition d (u v' l : vector) : R := l1 (vsub (vadd u l) v').

(** The distances of a batch of edges, one per edge. *)
Definition distances (u v' l : matrix) : list R :=
  map2 (fun p l_e => d (fst p) (snd p) l_e) (combine u v') l.

(** Hinge loss: [L_trans = sum max (0, gamma + d(pos) - d(neg))] over the
    batch. *)
Definition L_trans (gamma : R) (d_pos d_neg : list R) : R :=
  sum (map2 (fun dp dn => Rmax 0 (gamma + dp - dn)) d_pos d_neg).

(** Evaluation: [s_hat = sigmoid ((v' - u) . W_dec + b_dec)]. *)
Definition predict (W_dec : matrix) (b_dec u v' : vector) : vector :=
  decode W_dec b_dec (vsub v' u).

Definition is_true_label (x : R) : bool :=
  if Req_dec_T x 1 then true else false.

(** How many true labels of [s] are among the [k] labels that [s_hat] ranks
    highest, and how many true labels [s] has. *)
Definition true_in_top_k (k : nat) (s_hat s : vector) : nat :=
  length (filter (fun j => is_true_label (nth j s 0)) (firstn k (ranking s_hat))).

Definition true_labels (s : vector) : nat :=
  length (filter is_true_label s).

End Spec.

(** ** Well-formed states and batches *)

(** The embeddings a batch of vertex ids stands for, normalized at lookup. *)
Definition unit_rows (table : matrix) (ids : list Z) : option matrix :=
  rows <- gather table ids ;; Some (l2_normalize rows).

(** The same for ids that are in the table. *)
Definition embed (table : matrix) (ids : list Z) : matrix :=
  l2_normalize (map (fun i => nth (Z.to_nat i) table []) ids).

(** Every row of a matrix has [n] entries. *)
Definition width (n : nat) (m : matrix) : Prop :=
  Forall (fun r => length r = n) m.

(** The variables have the shapes the notebook declares for them, and there
    are the ten labels that building [hits] asks for. *)
Definition declared_shapes (aminer : dataset) (vs : variables) : Prop :=
  (10 <= tag_total aminer)%nat /\
  (forall key, length (embeddings vs key) = entity_total aminer /\
               width rep_size (embeddings vs key)) /\
  (length (weights vs encoder_w) = tag_total aminer /\
   width rep_size (weights vs encoder_w)) /\
  (length (weights vs decoder_w) = rep_size /\
   width (tag_total aminer) (weights vs decoder_w)) /\
  length (biases vs encoder_b) = rep_size /\
  length (biases vs decoder_b) = tag_total aminer.

(** A matrix of [n] label or weight vectors. *)
Definition labels_ok (aminer : dataset) (n : nat) (m : matrix) : Prop :=
  length m = n /\ width (tag_total aminer) m.

(** A label matrix is multi-hot when every entry is 0 or 1. *)
Definition multi_hot (m : matrix) : Prop :=
  Forall (Forall (fun x => x = 0 \/ x = 1)) m.

(** Every id of a batch names a row of the table. *)
Definition in_table (table : matrix) (ids : list Z) : Prop :=
  Forall (fun i => (0 <= i < Z.of_nat (length table))%Z) ids.

(** A batch of edges as the training provider returns it: heads, tails,
    label vectors and weight vectors, one of each per edge. *)
Definition edges_ok (aminer : dataset) (vs : variables)
  (e : list Z * list Z * matrix * matrix) : Prop :=
  let '(h, t, r, b) := e in
  in_table (embeddings vs int_embeddings) h /\
  in_table (embeddings vs adv_embeddings) t /\
  length t = length h /\
  labels_ok aminer (length h) r /\
  labels_ok aminer (length h) b.

(** A warm-up batch: label vectors and as many weight vectors. *)
Definition autoencoder_batch_ok (aminer : dataset) (b : matrix * matrix) : Prop :=
  let '(vecs, bs) := b in
  width (tag_total aminer) vecs /\ labels_ok aminer (length vecs) bs.

(** The test batch that the [i]-th call of [next_test_batch] returns. *)
Definition test_batch (aminer : dataset) (i : nat) : list Z * list Z * matrix :=
  next_test_batch aminer i eval_batch_size.

Definition test_batch_ok (aminer : dataset) (vs : variables)
  (b : list Z * list Z * matrix) : Prop :=
  let '(h, t, r) := b in
  in_table (embeddings vs int_embeddings) h /\
  in_table (embeddings vs adv_embeddings) t /\
  length t = length h /\
  labels_ok aminer (length h) r /\
  multi_hot r.

(** The [n] test batches from call [call] on are well formed. *)
Definition batches_ok (aminer : dataset) (vs : variables) (n call : nat) : Prop :=
  forall i, (call <= i < call + n)%nat ->
            test_batch_ok aminer vs (test_batch aminer i).


(** ** Quantities of the evaluation *)

(** The entries of a label vector at the given positions, added up. *)
Definition label_sum (positions : list nat) (s : vector) : R :=
  sum (map (fun i => nth i s 0) positions).

(** The predicted label vectors of a batch of edges, given the normalized
    head and tail embeddings. *)
Definition predictions (vs : variables) (u v' : matrix) : matrix :=
  map2 (Spec.predict (weights vs decoder_w) (biases vs decoder_b)) u v'.

(** Over a batch: the labels at the [k] highest ranked positions of every
    edge, added up; and the number of true labels among them. *)
Definition batch_label_sum (k : nat) (s_hat s : matrix) : R :=
  sum (map2 (fun p l => label_sum (firstn k (ranking p)) l) s_hat s).

Definition batch_true_in_top_k (k : nat) (s_hat s : matrix) : nat :=
  list_sum (map2 (Spec.true_in_top_k k) s_hat s).

Definition batch_true_labels (s : matrix) : nat :=
  list_sum (map Spec.true_labels s).

(** The predicted label vectors of a test batch. *)
Definition predicted (vs : variables) (b : list Z * list Z * matrix) : matrix :=
  let '(h, t, _) := b in
  predictions vs (embed (embeddings vs int_embeddings) h)
    (embed (embeddings vs adv_embeddings) t).

Definition labels_of (b : list Z * list Z * matrix) : matrix :=
  let '(_, _, r) := b in r.

(** Over the [n] test batches from call [call] on: the number of true
    labels ranked in the top [k] predicted labels, and the number of true
    labels. *)
Definition evaluation_hits (aminer : dataset) (vs : variables) (k n call : nat) : nat :=
  list_sum
    (map (fun i =>
            batch_true_in_top_k k (predicted vs (test_batch aminer i))
              (labels_of (test_batch aminer i)))
       (seq call n)).

Definition evaluation_true_labels (aminer : dataset) (n call : nat) : nat :=
  list_sum (map (fun i => batch_true_labels (labels_of (test_batch aminer i)))
              (seq call n)).

(** Every warm-up batch of the provider is well formed. *)
Definition autoencoder_batches_ok (aminer : dataset) : Prop :=
  forall i, autoencoder_batch_ok aminer
              (next_autoencoder_batch aminer i batch_size beta).

(** An update rule keeps the shapes of the variables, as every optimizer of
    the framework does. *)
Definition keeps_shapes {slots : Type}
  (adam : R -> tf.tensor KScalar -> variables -> slots -> feed_dict -> draws ->
          variables * slots)
  (aminer : dataset) : Prop :=
  forall rate loss vs acc fd rnd,
    declared_shapes aminer vs ->
    declared_shapes aminer (fst (adam rate loss vs acc fd rnd)).

(** An update rule that leaves every variable as it is. *)
Definition no_update : R -> tf.tensor KScalar -> variables -> unit ->
                       feed_dict -> draws -> variables * unit :=
  fun _ _ vs acc _ _ => (vs, acc).



(** ** Concrete inputs *)

(** All of them have the shapes the notebook declares: [rep_size] = 64
    columns in the embedding tables and hidden units in the autoencoder;
    there are one vertex and ten labels. *)
Definition zeros (n : nat) : vector := repeat 0 n.

Definition nothing_fed : feed_dict :=
  {| fed_ids := no_ids; fed := fun _ => None |}.

Definition keep_all : draws := fun _ _ _ => true.
Definition drop_all : draws := fun _ _ _ => false.

(** One vertex, whose row in both tables is [row], and an autoencoder whose
    parameters are 0 except for the first entries [w] of the encoder weight
    and [b] of the encoder bias. *)
Definition one_vertex (row : vector) (w b : R) : variables :=
  {| embeddings := fun _ => [row];
     weights := fun key =>
       match key with
       | encoder_w => (w :: zeros 63) :: repeat (zeros rep_size) 9
       | decoder_w => repeat (zeros 10) rep_size
       end;
     biases := fun key =>
       match key with
       | encoder_b => b :: zeros 63
       | decoder_b => zeros 10
       end |}.

(** The parameters at which the regularizer is evaluated: one encoder
    weight is 1, every other autoencoder parameter is 0. *)
Definition unit_weight : variables := one_vertex (zeros rep_size) 1 0.

(** A vertex whose embedding has norm 5, a vertex whose embedding is 0, and
    a vertex on the first axis. *)
Definition row_3_4 : vector := 3 :: 4 :: zeros 62.
Definition vertex_3_4 : variables := one_vertex row_3_4 0 0.
Definition zero_vertex : variables := one_vertex (zeros rep_size) 0 0.
Definition ten_labels_model : variables := one_vertex (1 :: zeros 63) 0 0.

(** Label vectors with the first label only and with no label, and their
    weight vectors for a given [beta]. *)
Definition first_label : vector := [1; 0; 0; 0; 0; 0; 0; 0; 0; 0].
Definition no_label : vector := [0; 0; 0; 0; 0; 0; 0; 0; 0; 0].
Definition first_weight (b : R) : vector := [b; 1; 1; 1; 1; 1; 1; 1; 1; 1].
Definition no_weight : vector := [1; 1; 1; 1; 1; 1; 1; 1; 1; 1].

(** The batch of one positive and one negative edge, both from vertex 0 to
    vertex 0, the positive one carrying the first label and the negative
    one none. *)
Definition one_edge_feed : feed_dict :=
  train_feed [0%Z] [0%Z] [first_label] [first_weight beta]
    [0%Z] [0%Z] [no_label] [no_weight].

(** A dataset of one vertex and ten labels with [examples] test examples,
    whose test batches all hold the one edge from vertex 0 to vertex 0 with
    the label vector [label]. *)
Definition ten_labels (examples : nat) (label : vector) : dataset :=
  {| entity_total := 1;
     tag_total := 10;
     train_num_examples := 100;
     test_num_examples := examples;
     next_autoencoder_batch := fun _ _ b => ([first_label], [first_weight b]);
     next_batch := fun _ _ b =>
       (([0%Z], [0%Z], [first_label], [first_weight b]),
        ([0%Z], [0%Z], [no_label], [no_weight]));
     next_test_batch := fun _ _ => ([0%Z], [0%Z], [label]) |}.


(** ** Further notions for the statements *)

(** [pred] of the body of [for k in hits_k]: the top [k] labels of every
    edge as a 0,1 vector. *)
Definition pred (aminer : dataset) (k : nat) : tf.tensor KMatrix :=
  tf.reduce_sum_1
    (tf.one_hot (tf.top_k_indices pos_r_minus_dec k) (tag_total aminer)).

(** Vertex ids of the dataset. *)
Definition ids_ok (aminer : dataset) (ids : list Z) : Prop :=
  Forall (fun i => (0 <= i < Z.of_nat (entity_total aminer))%Z) ids.

(** A batch of edges of the dataset: as many tails, label vectors and weight
    vectors as heads. *)
Definition edge_batch_ok (aminer : dataset)
  (e : list Z * list Z * matrix * matrix) : Prop :=
  let '(h, t, r, b) := e in
  ids_ok aminer h /\ ids_ok aminer t /\ length t = length h /\
  labels_ok aminer (length h) r /\ labels_ok aminer (length h) b.

(** Every training batch of the provider holds as many negative as positive
    edges of the dataset. *)
Definition train_batches_ok (aminer : dataset) : Prop :=
  forall i,
    edge_batch_ok aminer (fst (next_batch aminer i batch_size beta)) /\
    edge_batch_ok aminer (snd (next_batch aminer i batch_size beta)) /\
    length (fst (fst (fst (snd (next_batch aminer i batch_size beta))))) =
    length (fst (fst (fst (fst (next_batch aminer i batch_size beta))))).

(** Every test batch of the provider holds edges of the dataset with
    multi-hot label vectors. *)
Definition test_batches_ok (aminer : dataset) : Prop :=
  forall i,
    let '(h, t, r) := test_batch aminer i in
    ids_ok aminer h /\ ids_ok aminer t /\ length t = length h /\
    labels_ok aminer (length h) r /\ multi_hot r.

(** How many of the [n] epochs from [epoch] on end with an evaluation. *)
Definition evaluations (n epoch : nat) : nat :=
  length (filter (fun e => (e mod display_step =? 0)%nat) (seq epoch n)).

(** From one state of the last cell to a later one: how many more calls of
    the three providers, runs with random draws and printed lines. *)
Definition advanced {slots : Type} (st st' : progress slots)
  (warm_up_calls train_calls test_calls drawn lines : nat) : Prop :=
  autoencoder_batches st' = (autoencoder_batches st + warm_up_calls)%nat /\
  train_batches st' = (train_batches st + train_calls)%nat /\
  test_batches st' = (test_batches st + test_calls)%nat /\
  runs st' = (runs st + drawn)%nat /\
  length (printed st') = (length (printed st) + lines)%nat.

(** A printed line that reports no loss other than 0. *)
Definition zero_loss_line (l : line) : Prop :=
  match l with
  | Warm_up_relation_epoch _ sum_loss | Train_TransNet_epoch _ sum_loss =>
      sum_loss = 0
  | _ => True
  end.

(** A dataset with another number of training examples. *)
Definition with_train_examples (n : nat) (d : dataset) : dataset :=
  {| entity_total := entity_total d;
     tag_total := tag_total d;
     train_num_examples := n;
     test_num_examples := test_num_examples d;
     next_autoencoder_batch := next_autoencoder_batch d;
     next_batch := next_batch d;
     next_test_batch := next_test_batch d |}.

(** A placeholder that a feed leaves out. *)
Definition unfed (fd : feed_dict) (i : input) : Prop :=
  match i with
  | IntIn p => fed_ids fd p = None
  | FloatIn p => fed fd p = None
  end.

(** The feed of the empty batch. *)
Definition empty_feed : feed_dict := train_feed [] [] [] [] [] [] [] [].

(** The number of edges in the [n] test batches from call [call] on. *)
Definition evaluation_edges (aminer : dataset) (n call : nat) : nat :=
  list_sum (map (fun i => length (labels_of (test_batch aminer i))) (seq call n)).

(** ** The description's formulas for the lookup, the objectives and the
    ranking *)

(** A vector divided by its L2 norm, the norm taken as at least [1e-6]: what
    [tf.nn.l2_normalize] with its [epsilon] of [1e-12] on the squared norm is
    documented to return. *)
Definition guarded_unit (x : vector) : vector :=
  map (fun a => a / Rmax (Spec.l2_norm x) 1e-6) x.

(** The rows of a table that a batch of ids names. *)
Definition rows_of (table : matrix) (ids : list Z) : matrix :=
  map (fun i => nth (Z.to_nat i) table []) ids.



(** The reconstructions [s_hat] of a batch of label vectors under the
    dropout mask [keep]. *)
Definition reconstructions (vs : variables) (keep : nat -> nat -> bool)
  (labels : matrix) : matrix :=
  map (Spec.decode (weights vs decoder_w) (biases vs decoder_b))
    (Spec.hidden (weights vs encoder_w) (biases vs encoder_b)
       keep 0.5 labels).

(** The distances of a batch of edges under the dropout mask [keep]. *)
Definition edge_distances (vs : variables) (keep : nat -> nat -> bool)
  (h t : list Z) (labels : matrix) : list R :=
  Spec.distances (embed (embeddings vs int_embeddings) h)
    (embed (embeddings vs adv_embeddings) t)
    (Spec.hidden (weights vs encoder_w) (biases vs encoder_b)
       keep 0.5 labels).

(** The regularizer, the warm-up objective and the joint objective as the
    description states them: [L_reg] the sum of the four squared norms,
    [L_ae(pos) + lambda * L_reg] and
    [L_trans + alpha * (L_ae(pos) + L_ae(neg)) + lambda * L_reg] with margin
    1, [alpha = 0.5] and [lambda = 0.001]. *)
Definition stated_L_reg (vs : variables) : R :=
  Spec.L_reg (weights vs encoder_w) (weights vs decoder_w)
    (biases vs encoder_b) (biases vs decoder_b).

Definition stated_warm_up_objective (vs : variables) (rnd : draws)
  (vecs bs : matrix) : R :=
  Spec.L_ae_batch (reconstructions vs (rnd Drop_pos) vecs) vecs bs
  + 0.001 * stated_L_reg vs.

Definition stated_joint_objective (vs : variables) (rnd : draws)
  (ph pt : list Z) (pr pb : matrix) (nh nt : list Z) (nr nb : matrix) : R :=
  Spec.L_trans 1 (edge_distances vs (rnd Drop_pos) ph pt pr)
    (edge_distances vs (rnd Drop_neg) nh nt nr)
  + 0.5 * (Spec.L_ae_batch (reconstructions vs (rnd Drop_pos) pr) pr pb
           + Spec.L_ae_batch (reconstructions vs (rnd Drop_neg) nr) nr nb)
  + 0.001 * stated_L_reg vs.

(** Ranking the labels by predicted score: label [i] comes before label [j]
    when its score is the larger one or, the scores being equal, when it is
    the lower label.  The rank of a label is the number of labels that come
    before it, and the top [k] labels are those of a rank below [k]. *)
Definition outranks (s_hat : vector) (i j : nat) : bool :=
  if Rlt_dec (nth j s_hat 0) (nth i s_hat 0) then true
  else if Req_dec_T (nth i s_hat 0) (nth j s_hat 0) then (i <? j)%nat
  else false.

Definition rank_of (s_hat : vector) (j : nat) : nat :=
  length (filter (fun i => outranks s_hat i j) (seq 0 (length s_hat))).

(** How many labels of [s] are true and among the top [k] of [s_hat]; the
    same over the edges of a batch and over the [n] test batches from call
    [call] on, whose predicted label vectors are [s_hat i]. *)
Definition true_among_top (k : nat) (s_hat s : vector) : nat :=
  length (filter (fun j => Spec.is_true_label (nth j s 0)
                           && (rank_of s_hat j <? k)%nat)
            (seq 0 (length s_hat))).



(** ** Sums and element-wise maps *)

Lemma map2_map_l {A A' B C : Type} (f : A' -> B -> C) (g : A -> A') l1 l2 :
  map2 f (map g l1) l2 = map2 (fun a b => f (g a) b) l1 l2.
Proof.
  revert l2; induction l1 as [|a l1 IH]; intros [|b l2]; simpl; auto.
  now rewrite IH.
Qed.

Lemma map2_map_r {A B B' C : Type} (f : A -> B' -> C) (g : B -> B') l1 l2 :
  map2 f l1 (map g l2) = map2 (fun a b => f a (g b)) l1 l2.
Proof.
  revert l2; induction l1 as [|a l1 IH]; intros [|b l2]; simpl; auto.
  now rewrite IH.
Qed.

Lemma map_map2 {A B C D : Type} (g : C -> D) (f : A -> B -> C) l1 l2 :
  map g (map2 f l1 l2) = map2 (fun a b => g (f a b)) l1 l2.
Proof.
  revert l2; induction l1 as [|a l1 IH]; intros [|b l2]; simpl; auto.
  now rewrite IH.
Qed.


Lemma map2_combine {A B C : Type} (f : A -> B -> C) l1 l2 :
  map2 f l1 l2 = map (fun p => f (fst p) (snd p)) (combine l1 l2).
Proof.
  revert l2; induction l1 as [|a l1 IH]; intros [|b l2]; simpl; auto.
  now rewrite IH.
Qed.

Lemma map2_length {A B C : Type} (f : A -> B -> C) l1 l2 :
  length (map2 f l1 l2) = Nat.min (length l1) (length l2).
Proof.
  revert l2; induction l1 as [|a l1 IH]; intros [|b l2]; simpl; auto.
Qed.

Lemma sum_app l1 l2 : sum (l1 ++ l2) = sum l1 + sum l2.
Proof.
  induction l1 as [|x l1 IH]; simpl.
  - lra.
  - unfold sum in *; simpl; rewrite IH; lra.
Qed.

Lemma sum_cons x l : sum (x :: l) = x + sum l.
Proof. reflexivity. Qed.

Lemma sum_scale c l : sum (map (fun x => c * x) l) = c * sum l.
Proof.
  induction l as [|x l IH]; cbn [map].
  - unfold sum; simpl; lra.
  - rewrite !sum_cons, IH; lra.
Qed.

Lemma sum_nonneg l : Forall (fun x => 0 <= x) l -> 0 <= sum l.
Proof.
  induction 1 as [|x l Hx _ IH]; [unfold sum; simpl; lra|].
  rewrite sum_cons; lra.
Qed.


Lemma sum_sq_nonneg v : 0 <= sum_sq v.
Proof.
  apply sum_nonneg, Forall_forall; intros x Hx.
  apply in_map_iff in Hx as [y [<- _]]; nra.
Qed.

(** ** Shapes *)

Create HintDb shapes.

Lemma width_map (f : vector -> vector) n n' m :
  (forall r, length r = n -> length (f r) = n') ->
  width n m -> width n' (map f m).
Proof.
  intros Hf H. unfold width in *. rewrite Forall_map.
  eapply Forall_impl; [|exact H]. exact Hf.
Qed.

Lemma width_pointwise f n m : width n m -> width n (pointwise f m).
Proof.
  apply width_map. intros r <-. apply length_map.
Qed.

Lemma width_normalize n m : width n m -> width n (l2_normalize m).
Proof.
  apply width_map. intros r <-. apply length_map.
Qed.

Lemma dropout_row_length keep p j r : length (dropout_row keep p j r) = length r.
Proof.
  revert j; induction r as [|x r IH]; intros j; simpl; auto.
Qed.

Lemma dropout_from_length keep p i m : length (dropout_from keep p i m) = length m.
Proof.
  revert i; induction m as [|r m IH]; intros i; simpl; auto.
Qed.

Lemma width_dropout_from keep p i n m :
  width n m -> width n (dropout_from keep p i m).
Proof.
  intros H; revert i; induction H as [|r m Hr _ IH]; intros i; simpl.
  - constructor.
  - constructor; [now rewrite dropout_row_length | apply IH].
Qed.

Lemma width_dropout keep p n m : width n m -> width n (Kernel.dropout keep p m).
Proof. apply width_dropout_from. Qed.

Lemma dropout_length keep p m : length (Kernel.dropout keep p m) = length m.
Proof. apply dropout_from_length. Qed.

Lemma width_map2 (f : R -> R -> R) n a b :
  width n a -> width n b -> width n (map2 (map2 f) a b).
Proof.
  intros Ha; revert b; induction Ha as [|r a Hr _ IH]; intros b Hb.
  - constructor.
  - destruct Hb as [|r' b Hr' Hb]; [constructor|].
    cbn [map2]. constructor; [|now apply IH].
    rewrite map2_length, Hr, Hr'. apply Nat.min_id.
Qed.

Lemma map2_same_length {A B C : Type} (f : A -> B -> C) a b :
  length b = length a -> length (map2 f a b) = length a.
Proof. intros E. rewrite map2_length, E. apply Nat.min_id. Qed.

Lemma same_shape_width n a b :
  length b = length a -> width n a -> width n b -> same_shape a b = true.
Proof.
  intros L Ha; revert b L; induction Ha as [|r a Hr _ IH]; intros [|r' b] L Hb;
    try discriminate; [reflexivity|].
  inversion Hb as [|? ? Hr' Hb']; subst. cbn [same_shape].
  rewrite Hr', Nat.eqb_refl. apply IH; [now injection L | assumption].
Qed.

Lemma zip_with_shaped f n a b :
  length b = length a -> width n a -> width n b ->
  zip_with f a b = Some (map2 (map2 f) a b).
Proof.
  intros L Ha Hb. unfold zip_with. now rewrite (same_shape_width n).
Qed.

Lemma forallb_width n m :
  width n m -> forallb (fun r => (length r =? n)%nat) m = true.
Proof.
  intros H. apply forallb_forall. intros r Hr.
  apply Nat.eqb_eq. revert r Hr. now apply Forall_forall.
Qed.

Lemma matmul_shaped x w :
  width (length w) x -> Kernel.matmul x w = Some (map (fun r => vecmat r w) x).
Proof. intros H. unfold Kernel.matmul. now rewrite forallb_width. Qed.

Lemma bias_add_shaped m b :
  width (length b) m -> bias_add m b = Some (map (fun r => map2 Rplus r b) m).
Proof. intros H. unfold bias_add. now rewrite forallb_width. Qed.

Lemma vecmat_length x w : length (vecmat x w) = cols w.
Proof. unfold vecmat. now rewrite length_map, length_seq. Qed.

(** The number of columns of a matrix with at least one row. *)
Lemma cols_width n w : w <> [] -> width n w -> cols w = n.
Proof.
  intros N H. destruct H as [|r w Hr _]; [contradiction|exact Hr].
Qed.

(** An affine layer [x . w + b] on well-shaped operands. *)
Lemma affine_shaped x w b :
  width (length w) x -> length b = cols w ->
  (m <- Kernel.matmul x w ;; bias_add m b) =
  Some (map (fun r => Spec.vadd (vecmat r w) b) x).
Proof.
  intros Hx Hb. rewrite matmul_shaped by assumption. cbn [bind].
  rewrite bias_add_shaped.
  - now rewrite map_map.
  - apply width_map with (n := length w); [|assumption].
    intros r _. now rewrite vecmat_length.
Qed.

Lemma encode_length w b x :
  length b = cols w -> length (Spec.encode w b x) = cols w.
Proof.
  intros E. unfold Spec.encode, Spec.vadd.
  now rewrite length_map, map2_same_length; rewrite vecmat_length.
Qed.

Lemma decode_length w b x :
  length b = cols w -> length (Spec.decode w b x) = cols w.
Proof.
  intros E. unfold Spec.decode, Spec.vadd.
  now rewrite length_map, map2_same_length; rewrite vecmat_length.
Qed.

Lemma gathered_width n table ids :
  in_table table ids -> width n table ->
  width n (map (fun i => nth (Z.to_nat i) table []) ids).
Proof.
  intros Hi Ht. unfold width. rewrite Forall_map.
  eapply Forall_impl; [|exact Hi]. intros i Hr. cbn beta in Hr |- *.
  assert (H : In (nth (Z.to_nat i) table []) table) by (apply nth_In; lia).
  unfold width in Ht. rewrite Forall_forall in Ht. now apply Ht.
Qed.

Lemma embed_width n table ids :
  in_table table ids -> width n table -> width n (embed table ids).
Proof. intros. now apply width_normalize, gathered_width. Qed.

Lemma embed_length table ids : length (embed table ids) = length ids.
Proof. unfold embed, l2_normalize. now rewrite !length_map. Qed.

#[export] Hint Resolve width_pointwise width_normalize width_dropout
  width_map2 embed_width : shapes.
(** ** The shapes of the concrete inputs *)

Lemma one_vertex_shapes n l row w b :
  length row = rep_size ->
  declared_shapes (ten_labels n l) (one_vertex row w b).
Proof.
  intros L. unfold declared_shapes, width.
  cbn [ten_labels tag_total entity_total one_vertex embeddings weights biases].
  repeat split; try reflexivity; try lia; repeat constructor; assumption.
Qed.

Lemma first_label_multi_hot : multi_hot [first_label].
Proof. repeat (apply Forall_cons || apply Forall_nil); auto. Qed.

Lemma no_label_multi_hot : multi_hot [no_label].
Proof. repeat (apply Forall_cons || apply Forall_nil); auto. Qed.

Lemma one_label_vector_ok n l v :
  length v = 10%nat -> labels_ok (ten_labels n l) 1 [v].
Proof. intros L. split; [reflexivity|]. now repeat constructor. Qed.

Lemma one_edge_ok n l row w b s x :
  length s = 10%nat -> length x = 10%nat ->
  edges_ok (ten_labels n l) (one_vertex row w b) ([0%Z], [0%Z], [s], [x]).
Proof.
  intros Ls Lx. unfold edges_ok, in_table.
  repeat split; try reflexivity; repeat constructor; simpl; try lia; assumption.
Qed.

Lemma ten_labels_batch_ok n l row w b :
  multi_hot [l] -> length l = 10%nat ->
  test_batch_ok (ten_labels n l) (one_vertex row w b) ([0%Z], [0%Z], [l]).
Proof.
  intros Hm Hl. unfold test_batch_ok, in_table.
  repeat split; try reflexivity; try assumption;
    repeat constructor; simpl; try lia; assumption.
Qed.

Lemma ten_labels_batches_ok n l row w b call count :
  multi_hot [l] -> length l = 10%nat ->
  batches_ok (ten_labels n l) (one_vertex row w b) count call.
Proof.
  intros Hm Hl i _. now apply ten_labels_batch_ok.
Qed.

Lemma ten_labels_one_batch l : test_total_batch (ten_labels 2000 l) = 1%nat.
Proof. reflexivity. Qed.
(** ** The regularizer *)

(** The value of the regularizer tensor: half the sum of the four squared
    norms. *)
Lemma half_squared_norms W_enc W_dec b_enc b_dec :
  l2_loss_m W_enc + l2_loss_m W_dec + l2_loss_v b_enc + l2_loss_v b_dec =
  Spec.L_reg W_enc W_dec b_enc b_dec / 2.
Proof.
  unfold l2_loss_m, l2_loss_v, Spec.L_reg, Spec.frobenius_sq.
  change Spec.sq_norm with sum_sq. lra.
Qed.

Lemma eval_relation_ae_l2_loss vs fd rnd :
  eval relation_ae_l2_loss vs fd rnd =
  Some (Spec.L_reg (weights vs encoder_w) (weights vs decoder_w)
          (biases vs encoder_b) (biases vs decoder_b) / 2).
Proof. simpl. now rewrite half_squared_norms. Qed.

Lemma sum_sq_zeros n : sum_sq (zeros n) = 0.
Proof.
  induction n as [|n IH]; [reflexivity|].
  unfold zeros, sum_sq in *. cbn [repeat map]. rewrite sum_cons, IH. lra.
Qed.

Lemma frobenius_sq_zeros m n :
  Spec.frobenius_sq (repeat (zeros m) n) = 0.
Proof.
  induction n as [|n IH]; [reflexivity|].
  unfold Spec.frobenius_sq in *. cbn [repeat map]. rewrite sum_cons, IH.
  change Spec.sq_norm with sum_sq. rewrite sum_sq_zeros. lra.
Qed.

(** C1, at the parameters [unit_weight]: the four squared norms add up to 1,
    and the regularizer tensor of the notebook evaluates to 1/2. *)
Theorem relation_ae_l2_loss_unit_weight :
  Spec.L_reg (weights unit_weight encoder_w) (weights unit_weight decoder_w)
    (biases unit_weight encoder_b) (biases unit_weight decoder_b) = 1 /\
  eval relation_ae_l2_loss unit_weight nothing_fed keep_all = Some (1 / 2) /\
  eval relation_ae_l2_loss unit_weight nothing_fed keep_all <> Some 1.
Proof.
  assert (E : Spec.L_reg (weights unit_weight encoder_w)
                (weights unit_weight decoder_w)
                (biases unit_weight encoder_b)
                (biases unit_weight decoder_b) = 1).
  { unfold Spec.L_reg. cbn [unit_weight one_vertex weights biases].
    rewrite frobenius_sq_zeros.
    unfold Spec.frobenius_sq at 1. cbn [map]. rewrite sum_cons.
    fold (Spec.frobenius_sq (repeat (zeros rep_size) 9)).
    rewrite frobenius_sq_zeros.
    change Spec.sq_norm with sum_sq.
    change (sum_sq (1 :: zeros 63)) with (1 * 1 + sum_sq (zeros 63)).
    change (sum_sq (0 :: zeros 63)) with (0 * 0 + sum_sq (zeros 63)).
    rewrite !sum_sq_zeros. lra. }
  rewrite eval_relation_ae_l2_loss, E. repeat split.
  intros H. injection H. lra.
Qed.

(** ** Embedding lookup *)

Lemma gather_in_table table ids :
  in_table table ids ->
  exists rows, gather table ids = Some rows /\ length rows = length ids.
Proof.
  induction 1 as [|i ids Hi _ [rows [E L]]]; simpl.
  - now exists [].
  - unfold row_at. destruct (Z.leb_spec 0 i) as [_|]; [|lia].
    destruct (nth_error table (Z.to_nat i)) as [r|] eqn:N.
    + rewrite E. exists (r :: rows). simpl. now rewrite L.
    + apply nth_error_None in N. lia.
Qed.

Lemma gather_rows table ids rows :
  gather table ids = Some rows ->
  Forall2 (fun i r => row_at table i = Some r) ids rows.
Proof.
  revert rows; induction ids as [|i ids IH]; simpl; intros rows E.
  - injection E as <-. constructor.
  - destruct (row_at table i) as [r|] eqn:Hr; [|discriminate].
    destruct (gather table ids) as [m|]; [|discriminate].
    injection E as <-. constructor; auto.
Qed.

Lemma eval_normalized_lookup key p vs fd rnd :
  eval (tf.l2_normalize_1
          (tf.embedding_lookup (node_lookup key) (tf.placeholder_int32 p)))
       vs fd rnd =
  (ids <- fed_ids fd p ;; unit_rows (embeddings vs key) ids).
Proof. simpl. now destruct (fed_ids fd p). Qed.

Lemma sum_sq_row_3_4 : sum_sq row_3_4 = 25.
Proof.
  change (sum_sq row_3_4) with (3 * 3 + (4 * 4 + sum_sq (zeros 62))).
  rewrite sum_sq_zeros. lra.
Qed.



(** ** What a tensor is computed from *)

Ltac agree_side :=
  intros;
  match goal with
  | H : forall _, _ -> _ = _ |- _ =>
      apply H; simpl; try apply in_or_app; solve [auto]
  end.

(** The value of a tensor is the same in two runs that agree on the
    variables, the placeholders and the dropout draws it is computed from. *)
Lemma eval_agree {k : kind} (t : tf.tensor k) vs vs' fd fd' rnd rnd' :
  (forall key, In (Embedding key) (variables_of t) ->
     embeddings vs key = embeddings vs' key) ->
  (forall key, In (Weight key) (variables_of t) ->
     weights vs key = weights vs' key) ->
  (forall key, In (Bias key) (variables_of t) ->
     biases vs key = biases vs' key) ->
  (forall p, In (IntIn p) (inputs_of t) -> fed_ids fd p = fed_ids fd' p) ->
  (forall p, In (FloatIn p) (inputs_of t) -> fed fd p = fed fd' p) ->
  (forall node, In node (dropouts_of t) -> rnd node = rnd' node) ->
  eval t vs fd rnd = eval t vs' fd' rnd'.
Proof.
  induction t; simpl; intros He Hw Hb Hi Hf Hd.
  all: try (rewrite IHt1, IHt2; [reflexivity | agree_side ..]).
  all: try (rewrite IHt; [| agree_side ..]).
  all: try reflexivity.
  all: try (f_equal; agree_side).
  all: try agree_side.
  rewrite (Hd node) by auto. reflexivity.
Qed.

(** A tensor with no dropout node below it has the same value whatever the
    draws of the run. *)
Lemma eval_without_dropout {k : kind} (t : tf.tensor k) vs fd rnd rnd' :
  dropouts_of t = [] -> eval t vs fd rnd = eval t vs fd rnd'.
Proof.
  intros E. apply eval_agree; auto.
  rewrite E. intros node [].
Qed.
(** ** The autoencoder and the losses *)

Lemma encoder_cols aminer vs :
  declared_shapes aminer vs -> cols (weights vs encoder_w) = rep_size.
Proof.
  intros (Hk & _ & [L W] & _). apply cols_width; [|exact W].
  intros E. rewrite E in L. simpl in L. lia.
Qed.

Lemma decoder_cols aminer vs :
  declared_shapes aminer vs -> cols (weights vs decoder_w) = tag_total aminer.
Proof.
  intros (_ & _ & _ & [L W] & _). apply cols_width; [|exact W].
  intros E. rewrite E in L. discriminate.
Qed.

Lemma encode_rows s w b :
  pointwise Rtrigo_def.tanh (map (fun r => Spec.vadd (vecmat r w) b) s) =
  map (Spec.encode w b) s.
Proof. unfold pointwise. now rewrite map_map. Qed.

Lemma decode_rows rep w b :
  pointwise sigmoid (map (fun r => Spec.vadd (vecmat r w) b) rep) =
  map (Spec.decode w b) rep.
Proof. unfold pointwise. now rewrite map_map. Qed.

(** The hidden representations and the reconstructions have the declared
    widths. *)
Lemma hidden_width aminer vs keep p s :
  declared_shapes aminer vs ->
  width rep_size
    (Spec.hidden (weights vs encoder_w) (biases vs encoder_b) keep p s).
Proof.
  intros D. apply width_dropout. unfold width. rewrite Forall_map.
  apply Forall_forall. intros r _. rewrite encode_length.
  - now apply (encoder_cols aminer).
  - rewrite (encoder_cols aminer) by assumption. apply D.
Qed.

Lemma hidden_length w b keep p s : length (Spec.hidden w b keep p s) = length s.
Proof. unfold Spec.hidden. now rewrite dropout_length, length_map. Qed.

Lemma decoded_width aminer vs rep :
  declared_shapes aminer vs ->
  width (tag_total aminer)
    (map (Spec.decode (weights vs decoder_w) (biases vs decoder_b)) rep).
Proof.
  intros D. unfold width. rewrite Forall_map.
  apply Forall_forall. intros r _. rewrite decode_length.
  - now apply decoder_cols.
  - rewrite (decoder_cols aminer) by assumption. apply D.
Qed.

(** The decoder applied to any tensor of [rep_size] columns. *)
Lemma eval_decoder aminer (x : tf.tensor KMatrix) vs fd rnd rep :
  declared_shapes aminer vs ->
  eval x vs fd rnd = Some rep ->
  width rep_size rep ->
  eval (tf.sigmoid
          (tf.add_bias (tf.matmul x (relation_weights decoder_w))
             (relation_biases decoder_b))) vs fd rnd =
  Some (map (Spec.decode (weights vs decoder_w) (biases vs decoder_b)) rep).
Proof.
  intros D E W. cbn [eval relation_weights relation_biases]. rewrite E.
  cbn [bind]. rewrite affine_shaped.
  - cbn [bind]. now rewrite decode_rows.
  - destruct D as (_ & _ & _ & [-> _] & _). exact W.
  - rewrite (decoder_cols aminer) by assumption. apply D.
Qed.

Lemma eval_autoencoder aminer node p vs fd rnd s :
  declared_shapes aminer vs ->
  fed fd p = Some s ->
  width (tag_total aminer) s ->
  eval (fst (autoencoder node relation_weights relation_biases (tf.placeholder p)))
       vs fd rnd =
  Some (Spec.hidden (weights vs encoder_w) (biases vs encoder_b)
          (rnd node) keep_prob s) /\
  eval (snd (autoencoder node relation_weights relation_biases (tf.placeholder p)))
       vs fd rnd =
  Some (map (Spec.decode (weights vs decoder_w) (biases vs decoder_b))
          (Spec.hidden (weights vs encoder_w) (biases vs encoder_b)
             (rnd node) keep_prob s)).
Proof.
  intros D E W.
  assert (H : eval (fst (autoencoder node relation_weights relation_biases
                           (tf.placeholder p))) vs fd rnd =
              Some (Spec.hidden (weights vs encoder_w) (biases vs encoder_b)
                      (rnd node) keep_prob s)).
  { cbn [autoencoder fst eval relation_weights relation_biases]. rewrite E.
    cbn [bind]. rewrite affine_shaped.
    - cbn [bind]. now rewrite encode_rows.
    - destruct D as (_ & _ & [-> _] & _). exact W.
    - rewrite (encoder_cols aminer) by assumption. apply D. }
  split; [exact H|].
  cbn [autoencoder snd]. cbn [autoencoder fst] in H.
  apply (eval_decoder aminer); [assumption | exact H |].
  now apply (hidden_width aminer).
Qed.

(** The reconstruction term of the graph is the weighted reconstruction
    loss summed over the batch. *)
Lemma reconstruction_sum s_hat s w :
  msum (pointwise Rabs (map2 (map2 Rmult) (map2 (map2 Rminus) s_hat s) w)) =
  Spec.L_ae_batch s_hat s w.
Proof.
  unfold msum, pointwise, Spec.L_ae_batch.
  revert s w; induction s_hat as [|a s_hat IH]; intros [|b s] [|c w];
    try reflexivity.
  cbn [map2 combine map fst snd]. rewrite !sum_cons, IH. reflexivity.
Qed.

Lemma eval_reconstruction (dec : tf.tensor KMatrix) p q vs fd rnd n s_hat s w :
  eval dec vs fd rnd = Some s_hat ->
  fed fd p = Some s ->
  fed fd q = Some w ->
  width n s_hat -> width n s -> width n w ->
  length s = length s_hat -> length w = length s_hat ->
  eval (tf.reduce_sum
          (tf.abs (tf.multiply (tf.subtract dec (tf.placeholder p))
                     (tf.placeholder q)))) vs fd rnd =
  Some (Spec.L_ae_batch s_hat s w).
Proof.
  intros E Es Ew W Ws Ww L Lw. cbn [eval]. rewrite E, Es, Ew. cbn [bind].
  rewrite (zip_with_shaped Rminus n) by assumption. cbn [bind].
  rewrite (zip_with_shaped Rmult n).
  - cbn [bind]. now rewrite reconstruction_sum.
  - now rewrite map2_same_length.
  - auto with shapes.
  - assumption.
Qed.

(** The distance tensors of the graph hold one L1 distance per edge. *)
Lemma distance_rows u l v :
  row_sums (pointwise Rabs (map2 (map2 Rminus) (map2 (map2 Rplus) u l) v)) =
  map (fun x => [x]) (Spec.distances u v l).
Proof.
  unfold row_sums, pointwise, Spec.distances.
  revert l v; induction u as [|a u IH]; intros [|b l] [|c v];
    try reflexivity.
  cbn [map2 combine map fst snd]. now rewrite IH.
Qed.

Lemma distances_length u v l :
  length v = length u -> length l = length u ->
  length (Spec.distances u v l) = length u.
Proof.
  intros Lv Ll. unfold Spec.distances.
  rewrite map2_length, length_combine. lia.
Qed.

Lemma eval_distance (U L V : tf.tensor KMatrix) vs fd rnd n u l v :
  eval U vs fd rnd = Some u ->
  eval L vs fd rnd = Some l ->
  eval V vs fd rnd = Some v ->
  width n u -> width n l -> width n v ->
  length l = length u -> length v = length u ->
  eval (tf.reduce_sum_1_keep_dims (tf.abs (tf.subtract (tf.add U L) V)))
       vs fd rnd =
  Some (map (fun x => [x]) (Spec.distances u v l)).
Proof.
  intros Eu El Ev Wu Wl Wv Ll Lv. cbn [eval]. rewrite Eu, El, Ev. cbn [bind].
  rewrite (zip_with_shaped Rplus n) by assumption. cbn [bind].
  rewrite (zip_with_shaped Rminus n).
  - cbn [bind]. now rewrite distance_rows.
  - now rewrite map2_same_length.
  - auto with shapes.
  - assumption.
Qed.

(** The hinge of the graph, summed over the batch. *)
Lemma hinge_sum g dp dn :
  msum (pointwise (fun e => Rmax e 0)
          (pointwise (fun e => e + g)
             (map2 (map2 Rminus) (map (fun x => [x]) dp) (map (fun x => [x]) dn)))) =
  Spec.L_trans g dp dn.
Proof.
  unfold msum, pointwise, Spec.L_trans.
  revert dn; induction dp as [|a dp IH]; intros [|b dn]; try reflexivity.
  cbn [map2 map]. rewrite !sum_cons, IH. f_equal.
  unfold sum; cbn [fold_right]. rewrite Rplus_0_r, Rmax_comm.
  f_equal. lra.
Qed.

Lemma width_columns (l : list R) : width 1 (map (fun x => [x]) l).
Proof. unfold width. rewrite Forall_map. now apply Forall_forall. Qed.

Lemma eval_hinge (P N : tf.tensor KMatrix) vs fd rnd g dp dn :
  eval P vs fd rnd = Some (map (fun x => [x]) dp) ->
  eval N vs fd rnd = Some (map (fun x => [x]) dn) ->
  length dn = length dp ->
  eval (tf.reduce_sum
          (tf.maximum (tf.add_scalar (tf.subtract P N) (tf.constant g))
             (tf.constant 0))) vs fd rnd =
  Some (Spec.L_trans g dp dn).
Proof.
  intros Ep En L. cbn [eval]. rewrite Ep, En. cbn [bind].
  rewrite (zip_with_shaped Rminus 1).
  - cbn [bind]. now rewrite hinge_sum.
  - now rewrite !length_map.
  - apply width_columns.
  - apply width_columns.
Qed.
(** ** The translation, joint and warm-up losses *)

Lemma gather_total table ids :
  in_table table ids ->
  gather table ids = Some (map (fun i => nth (Z.to_nat i) table []) ids).
Proof.
  induction 1 as [|i ids Hi _ IH]; simpl; [reflexivity|].
  unfold row_at. destruct (Z.leb_spec 0 i) as [_|]; [|lia].
  rewrite nth_error_nth' with (d := []) by lia.
  now rewrite IH.
Qed.

Lemma eval_lookup key p vs fd rnd ids :
  fed_ids fd p = Some ids ->
  in_table (embeddings vs key) ids ->
  eval (tf.l2_normalize_1
          (tf.embedding_lookup (node_lookup key) (tf.placeholder_int32 p)))
       vs fd rnd =
  Some (embed (embeddings vs key) ids).
Proof.
  intros E H. rewrite eval_normalized_lookup, E. cbn [bind].
  unfold unit_rows. now rewrite gather_total.
Qed.

(** The distances of a batch of edges fed to head, tail and label
    placeholders [ph], [pt] and [pr], with the dropout node [node]. *)
Lemma eval_edge_distance aminer vs fd rnd ph pt pr node h t r b :
  declared_shapes aminer vs ->
  edges_ok aminer vs (h, t, r, b) ->
  fed_ids fd ph = Some h -> fed_ids fd pt = Some t -> fed fd pr = Some r ->
  eval (tf.reduce_sum_1_keep_dims
          (tf.abs
             (tf.subtract
                (tf.add
                   (tf.l2_normalize_1
                      (tf.embedding_lookup (node_lookup int_embeddings)
                         (tf.placeholder_int32 ph)))
                   (fst (autoencoder node relation_weights relation_biases
                           (tf.placeholder pr))))
                (tf.l2_normalize_1
                   (tf.embedding_lookup (node_lookup adv_embeddings)
                      (tf.placeholder_int32 pt))))))
       vs fd rnd =
  Some (map (fun x => [x])
          (Spec.distances (embed (embeddings vs int_embeddings) h)
             (embed (embeddings vs adv_embeddings) t)
             (Spec.hidden (weights vs encoder_w) (biases vs encoder_b)
                (rnd node) keep_prob r))).
Proof.
  intros D (Hh & Ht & Lt & [Lr Wr] & _) Eh Et Er.
  pose proof D as (_ & Hemb & _).
  apply eval_distance with (n := rep_size).
  - now apply eval_lookup.
  - now apply (eval_autoencoder aminer).
  - now apply eval_lookup.
  - apply embed_width; [assumption | apply Hemb].
  - now apply (hidden_width aminer).
  - apply embed_width; [assumption | apply Hemb].
  - now rewrite hidden_length, embed_length.
  - now rewrite !embed_length.
Qed.

Lemma trans_loss_value aminer vs rnd ph pt pr pb nh nt nr nb :
  declared_shapes aminer vs ->
  edges_ok aminer vs (ph, pt, pr, pb) ->
  edges_ok aminer vs (nh, nt, nr, nb) ->
  length nh = length ph ->
  eval trans_loss vs (train_feed ph pt pr pb nh nt nr nb) rnd =
  Some (Spec.L_trans 1
          (Spec.distances (embed (embeddings vs int_embeddings) ph)
             (embed (embeddings vs adv_embeddings) pt)
             (Spec.hidden (weights vs encoder_w) (biases vs encoder_b)
                (rnd Drop_pos) keep_prob pr))
          (Spec.distances (embed (embeddings vs int_embeddings) nh)
             (embed (embeddings vs adv_embeddings) nt)
             (Spec.hidden (weights vs encoder_w) (biases vs encoder_b)
                (rnd Drop_neg) keep_prob nr))).
Proof.
  intros D Hp Hn L.
  unfold trans_loss. apply eval_hinge.
  - now apply (eval_edge_distance aminer) with (b := pb).
  - now apply (eval_edge_distance aminer) with (b := nb).
  - destruct Hp as (_ & _ & Lpt & [Lpr _] & _).
    destruct Hn as (_ & _ & Lnt & [Lnr _] & _).
    rewrite !distances_length; rewrite ?hidden_length, ?embed_length; congruence.
Qed.

(** The reconstruction term of a batch of label vectors fed to the
    placeholder [pr], with weight vectors fed to [pb]. *)
Lemma eval_reconstruction_term aminer vs fd rnd node pr pb r b :
  declared_shapes aminer vs ->
  fed fd pr = Some r -> fed fd pb = Some b ->
  width (tag_total aminer) r -> labels_ok aminer (length r) b ->
  eval (tf.reduce_sum
          (tf.abs
             (tf.multiply
                (tf.subtract
                   (snd (autoencoder node relation_weights relation_biases
                           (tf.placeholder pr)))
                   (tf.placeholder pr))
                (tf.placeholder pb)))) vs fd rnd =
  Some (Spec.L_ae_batch
          (map (Spec.decode (weights vs decoder_w) (biases vs decoder_b))
             (Spec.hidden (weights vs encoder_w) (biases vs encoder_b)
                (rnd node) keep_prob r))
          r b).
Proof.
  intros D Er Eb Wr [Lb Wb].
  apply eval_reconstruction with (n := tag_total aminer); try assumption.
  - now apply (eval_autoencoder aminer).
  - now apply decoded_width.
  - now rewrite length_map, hidden_length.
  - now rewrite length_map, hidden_length.
Qed.

Lemma eval_plus (a b : tf.tensor KScalar) vs fd rnd :
  eval (tf.plus a b) vs fd rnd =
  (x <- eval a vs fd rnd ;; y <- eval b vs fd rnd ;; Some (x + y)).
Proof. reflexivity. Qed.

Lemma eval_times (a b : tf.tensor KScalar) vs fd rnd :
  eval (tf.times a b) vs fd rnd =
  (x <- eval a vs fd rnd ;; y <- eval b vs fd rnd ;; Some (x * y)).
Proof. reflexivity. Qed.

Lemma loss_value aminer vs rnd ph pt pr pb nh nt nr nb :
  declared_shapes aminer vs ->
  edges_ok aminer vs (ph, pt, pr, pb) ->
  edges_ok aminer vs (nh, nt, nr, nb) ->
  length nh = length ph ->
  let s_hat keep labels :=
    map (Spec.decode (weights vs decoder_w) (biases vs decoder_b))
      (Spec.hidden (weights vs encoder_w) (biases vs encoder_b)
         keep keep_prob labels) in
  eval loss vs (train_feed ph pt pr pb nh nt nr nb) rnd =
  Some (Spec.L_trans 1
          (Spec.distances (embed (embeddings vs int_embeddings) ph)
             (embed (embeddings vs adv_embeddings) pt)
             (Spec.hidden (weights vs encoder_w) (biases vs encoder_b)
                (rnd Drop_pos) keep_prob pr))
          (Spec.distances (embed (embeddings vs int_embeddings) nh)
             (embed (embeddings vs adv_embeddings) nt)
             (Spec.hidden (weights vs encoder_w) (biases vs encoder_b)
                (rnd Drop_neg) keep_prob nr))
        + 0.5 * (Spec.L_ae_batch (s_hat (rnd Drop_pos) pr) pr pb
                 + Spec.L_ae_batch (s_hat (rnd Drop_neg) nr) nr nb)
        + 0.001 * (Spec.L_reg (weights vs encoder_w) (weights vs decoder_w)
                     (biases vs encoder_b) (biases vs decoder_b) / 2)).
Proof.
  intros D Hp Hn L s_hat.
  unfold loss. rewrite !eval_plus, !eval_times.
  rewrite (trans_loss_value aminer) by assumption.
  rewrite eval_relation_ae_l2_loss.
  unfold relation_loss. rewrite eval_plus.
  destruct Hp as (_ & _ & _ & [Lpr Wpr] & Hpb).
  destruct Hn as (_ & _ & _ & [Lnr Wnr] & Hnb).
  rewrite <- Lpr in Hpb. rewrite <- Lnr in Hnb.
  unfold pos_r_dec, neg_r_dec, pos_r, neg_r, pos_br, neg_br.
  rewrite (eval_reconstruction_term aminer vs _ rnd Drop_pos In_pos_r In_pos_br pr pb)
    by (assumption || reflexivity).
  rewrite (eval_reconstruction_term aminer vs _ rnd Drop_neg In_neg_r In_neg_br nr nb)
    by (assumption || reflexivity).
  reflexivity.
Qed.

Lemma relation_pos_r_loss_value aminer vs vecs bs rnd :
  declared_shapes aminer vs ->
  autoencoder_batch_ok aminer (vecs, bs) ->
  eval relation_pos_r_loss vs (warm_up_feed vecs bs) rnd =
  Some (Spec.L_ae_batch
          (map (Spec.decode (weights vs decoder_w) (biases vs decoder_b))
             (Spec.hidden (weights vs encoder_w) (biases vs encoder_b)
                (rnd Drop_pos) keep_prob vecs))
          vecs bs
        + 0.001 * (Spec.L_reg (weights vs encoder_w) (weights vs decoder_w)
                     (biases vs encoder_b) (biases vs decoder_b) / 2)).
Proof.
  intros D [Wv Hb].
  unfold relation_pos_r_loss. rewrite eval_plus, eval_times.
  rewrite eval_relation_ae_l2_loss.
  unfold pos_r_dec, pos_r, pos_br.
  rewrite (eval_reconstruction_term aminer vs _ rnd Drop_pos In_pos_r In_pos_br vecs bs)
    by (assumption || reflexivity).
  reflexivity.
Qed.

(** ** What the lookup returns *)

Lemma sqrt_epsilon : sqrt epsilon = 1e-6.
Proof.
  unfold epsilon. replace 1e-12 with (1e-6 * 1e-6) by lra.
  apply sqrt_square. lra.
Qed.

Lemma sqrt_Rmax x y :
  0 <= x -> 0 <= y -> sqrt (Rmax x y) = Rmax (sqrt x) (sqrt y).
Proof.
  intros Hx Hy. unfold Rmax.
  destruct (Rle_dec x y) as [L|L], (Rle_dec (sqrt x) (sqrt y)) as [S|S];
    try reflexivity.
  - exfalso. apply S. now apply sqrt_le_1.
  - apply Rle_antisym; [exact S|]. apply sqrt_le_1; lra.
Qed.

(** The normalization of the framework divides a row by its L2 norm, the
    norm taken as at least [1e-6]. *)
Lemma normalize_row_guarded r : normalize_row r = guarded_unit r.
Proof.
  unfold normalize_row, guarded_unit. apply map_ext. intros a.
  unfold Spec.l2_norm. change (Spec.sq_norm r) with (sum_sq r).
  rewrite sqrt_Rmax, sqrt_epsilon;
    [reflexivity | apply sum_sq_nonneg | unfold epsilon; lra].
Qed.

Lemma embed_guarded table ids :
  embed table ids = map guarded_unit (rows_of table ids).
Proof.
  unfold embed, l2_normalize, rows_of.
  apply map_ext. apply normalize_row_guarded.
Qed.



Lemma sq_norm_row_3_4 : Spec.sq_norm row_3_4 = 25.
Proof. exact sum_sq_row_3_4. Qed.


(** At the vertex of the row [(3, 4, 0, ...)] the lookup returns
    [(3/5, 4/5, 0, ...)]. *)
Example lookup_of_row_3_4 :
  eval pos_h_e vertex_3_4 one_edge_feed keep_all =
  Some [3 / 5 :: 4 / 5 :: zeros 62].
Proof.
  unfold pos_h_e, looked_up, lookup, pos_h; cbn [fst snd].
  rewrite (eval_lookup int_embeddings In_pos_h vertex_3_4 one_edge_feed
             keep_all [0%Z] eq_refl) by (repeat constructor; cbn; lia).
  rewrite embed_guarded.
  cbn [rows_of map Z.to_nat nth vertex_3_4 one_vertex embeddings].
  unfold guarded_unit, Spec.l2_norm. rewrite sq_norm_row_3_4.
  replace 25 with (5 * 5) by lra. rewrite sqrt_square by lra.
  rewrite Rmax_left by lra.
  assert (Z : forall n, map (fun a => a / 5) (zeros n) = zeros n).
  { unfold zeros. induction n as [|n IH]; [reflexivity|].
    cbn [repeat map]. rewrite IH. f_equal. lra. }
  change row_3_4 with (3 :: 4 :: zeros 62).
  cbn [map]. now rewrite Z.
Qed.
(** C6: for every well-formed batch of positive and negative edges, the
    translation loss is the hinge [max (0, gamma + d(pos) - d(neg))] with
    [gamma = 1], summed over the edges of the batch, where [d] is the L1
    norm of the normalized head embedding plus the hidden representation of
    the labels minus the normalized tail embedding. *)
Theorem trans_loss_is_hinge_of_distances aminer vs rnd ph pt pr pb nh nt nr nb :
  declared_shapes aminer vs ->
  edges_ok aminer vs (ph, pt, pr, pb) ->
  edges_ok aminer vs (nh, nt, nr, nb) ->
  length nh = length ph ->
  eval trans_loss vs (train_feed ph pt pr pb nh nt nr nb) rnd =
  Some (Spec.L_trans 1
          (Spec.distances (embed (embeddings vs int_embeddings) ph)
             (embed (embeddings vs adv_embeddings) pt)
             (Spec.hidden (weights vs encoder_w) (biases vs encoder_b)
                (rnd Drop_pos) keep_prob pr))
          (Spec.distances (embed (embeddings vs int_embeddings) nh)
             (embed (embeddings vs adv_embeddings) nt)
             (Spec.hidden (weights vs encoder_w) (biases vs encoder_b)
                (rnd Drop_neg) keep_prob nr))).
Proof.
  intros D Hp Hn L.
  unfold trans_loss. apply eval_hinge.
  - now apply (eval_edge_distance aminer) with (b := pb).
  - now apply (eval_edge_distance aminer) with (b := nb).
  - destruct Hp as (_ & _ & Lpt & [Lpr _] & _).
    destruct Hn as (_ & _ & Lnt & [Lnr _] & _).
    rewrite !distances_length; rewrite ?hidden_length, ?embed_length; congruence.
Qed.

Lemma trans_loss_is_hinge_of_distances_witness :
  eval trans_loss vertex_3_4 one_edge_feed keep_all =
  Some (Spec.L_trans 1
          (Spec.distances (embed [row_3_4] [0%Z]) (embed [row_3_4] [0%Z])
             (Spec.hidden (weights vertex_3_4 encoder_w)
                (biases vertex_3_4 encoder_b)
                (keep_all Drop_pos) keep_prob [first_label]))
          (Spec.distances (embed [row_3_4] [0%Z]) (embed [row_3_4] [0%Z])
             (Spec.hidden (weights vertex_3_4 encoder_w)
                (biases vertex_3_4 encoder_b)
                (keep_all Drop_neg) keep_prob [no_label]))).
Proof.
  apply (trans_loss_is_hinge_of_distances (ten_labels 2000 first_label)
           vertex_3_4 keep_all
           [0%Z] [0%Z] [first_label] [first_weight beta]
           [0%Z] [0%Z] [no_label] [no_weight]).
  - apply one_vertex_shapes. reflexivity.
  - apply one_edge_ok; reflexivity.
  - apply one_edge_ok; reflexivity.
  - reflexivity.
Defined.

(** The four squared norms at the parameters [unit_weight] add up to 1. *)
Lemma stated_L_reg_unit_weight : stated_L_reg unit_weight = 1.
Proof.
  unfold stated_L_reg, Spec.L_reg.
  cbn [unit_weight one_vertex weights biases].
  rewrite frobenius_sq_zeros.
  unfold Spec.frobenius_sq at 1. cbn [map]. rewrite sum_cons.
  fold (Spec.frobenius_sq (repeat (zeros rep_size) 9)).
  rewrite frobenius_sq_zeros.
  change Spec.sq_norm with sum_sq.
  change (sum_sq (1 :: zeros 63)) with (1 * 1 + sum_sq (zeros 63)).
  change (sum_sq (0 :: zeros 63)) with (0 * 0 + sum_sq (zeros 63)).
  rewrite !sum_sq_zeros. lra.
Qed.

Lemma loss_and_stated_objective aminer vs rnd ph pt pr pb nh nt nr nb :
  declared_shapes aminer vs ->
  edges_ok aminer vs (ph, pt, pr, pb) ->
  edges_ok aminer vs (nh, nt, nr, nb) ->
  length nh = length ph ->
  eval loss vs (train_feed ph pt pr pb nh nt nr nb) rnd =
  Some (stated_joint_objective vs rnd ph pt pr pb nh nt nr nb
        - 0.001 * (stated_L_reg vs / 2)).
Proof.
  intros D P N L. rewrite (loss_value aminer) by assumption.
  unfold stated_joint_objective, edge_distances, reconstructions, stated_L_reg,
    keep_prob.
  f_equal. lra.
Qed.

Lemma warm_up_loss_and_stated_objective aminer vs vecs bs rnd :
  declared_shapes aminer vs ->
  autoencoder_batch_ok aminer (vecs, bs) ->
  eval relation_pos_r_loss vs (warm_up_feed vecs bs) rnd =
  Some (stated_warm_up_objective vs rnd vecs bs
        - 0.001 * (stated_L_reg vs / 2)).
Proof.
  intros D B. rewrite (relation_pos_r_loss_value aminer) by assumption.
  unfold stated_warm_up_objective, reconstructions, stated_L_reg, keep_prob.
  f_equal. lra.
Qed.

(** C5: for every well-formed batch of positive and negative edges the
    joint loss is the translation loss plus 0.5 times the sum of the weighted
    reconstruction losses of the positive and of the negative label vectors
    plus 0.001 times half the sum of the four squared norms: the objective
    that the description states less half of its regularizer term.  At the
    parameters [unit_weight], whose squared norms add up to 1, the loss of
    one pair of edges is 0.0005 below the stated objective. *)
Theorem loss_halves_the_stated_regularizer :
  (forall aminer vs rnd ph pt pr pb nh nt nr nb,
     declared_shapes aminer vs ->
     edges_ok aminer vs (ph, pt, pr, pb) ->
     edges_ok aminer vs (nh, nt, nr, nb) ->
     length nh = length ph ->
     eval loss vs (train_feed ph pt pr pb nh nt nr nb) rnd =
     Some (stated_joint_objective vs rnd ph pt pr pb nh nt nr nb
           - 0.001 * (stated_L_reg vs / 2))) /\
  stated_L_reg unit_weight = 1 /\
  eval loss unit_weight one_edge_feed keep_all =
  Some (stated_joint_objective unit_weight keep_all
          [0%Z] [0%Z] [first_label] [first_weight beta]
          [0%Z] [0%Z] [no_label] [no_weight] - 0.0005) /\
  eval loss unit_weight one_edge_feed keep_all <>
  Some (stated_joint_objective unit_weight keep_all
          [0%Z] [0%Z] [first_label] [first_weight beta]
          [0%Z] [0%Z] [no_label] [no_weight]).
Proof.
  assert (E : eval loss unit_weight one_edge_feed keep_all =
              Some (stated_joint_objective unit_weight keep_all
                      [0%Z] [0%Z] [first_label] [first_weight beta]
                      [0%Z] [0%Z] [no_label] [no_weight] - 0.0005)).
  { unfold one_edge_feed.
    rewrite (loss_and_stated_objective (ten_labels 2000 first_label)).
    - rewrite stated_L_reg_unit_weight. f_equal. lra.
    - apply one_vertex_shapes. reflexivity.
    - apply one_edge_ok; reflexivity.
    - apply one_edge_ok; reflexivity.
    - reflexivity. }
  split; [exact loss_and_stated_objective|].
  split; [exact stated_L_reg_unit_weight|].
  split; [exact E|].
  rewrite E. intros H. injection H. lra.
Qed.

Lemma loss_halves_the_stated_regularizer_witness :
  eval loss vertex_3_4 one_edge_feed keep_all =
  Some (stated_joint_objective vertex_3_4 keep_all
          [0%Z] [0%Z] [first_label] [first_weight beta]
          [0%Z] [0%Z] [no_label] [no_weight]
        - 0.001 * (stated_L_reg vertex_3_4 / 2)).
Proof.
  apply (proj1 loss_halves_the_stated_regularizer (ten_labels 2000 first_label)
           vertex_3_4 keep_all
           [0%Z] [0%Z] [first_label] [first_weight beta]
           [0%Z] [0%Z] [no_label] [no_weight]).
  - apply one_vertex_shapes. reflexivity.
  - apply one_edge_ok; reflexivity.
  - apply one_edge_ok; reflexivity.
  - reflexivity.
Defined.

(** C7: the warm-up train operation minimizes [relation_pos_r_loss]; on
    every well-formed warm-up batch this is the weighted reconstruction loss
    of the positive label vectors plus 0.001 times half the sum of the four
    squared norms: the warm-up objective that the description states less
    half of its regularizer term.  Its value is the same in two runs that
    agree on the autoencoder parameters, on the positive label and weight
    vectors and on the draws of the positive dropout node, whatever the
    embeddings, the vertex ids, the negative label and weight vectors and
    the other draws are.  At the parameters [unit_weight] the loss of one
    label vector is 0.0005 below the stated objective. *)
Theorem warm_up_objective_halves_the_stated_regularizer :
  objective relation_optimizer = relation_pos_r_loss /\
  (forall aminer vs vecs bs rnd,
     declared_shapes aminer vs ->
     autoencoder_batch_ok aminer (vecs, bs) ->
     eval relation_pos_r_loss vs (warm_up_feed vecs bs) rnd =
     Some (stated_warm_up_objective vs rnd vecs bs
           - 0.001 * (stated_L_reg vs / 2))) /\
  (forall vs vs' fd fd' rnd rnd',
     weights vs = weights vs' ->
     biases vs = biases vs' ->
     fed fd In_pos_r = fed fd' In_pos_r ->
     fed fd In_pos_br = fed fd' In_pos_br ->
     rnd Drop_pos = rnd' Drop_pos ->
     eval relation_pos_r_loss vs fd rnd = eval relation_pos_r_loss vs' fd' rnd') /\
  eval relation_pos_r_loss unit_weight
    (warm_up_feed [first_label] [first_weight beta]) keep_all =
  Some (stated_warm_up_objective unit_weight keep_all
          [first_label] [first_weight beta] - 0.0005) /\
  eval relation_pos_r_loss unit_weight
    (warm_up_feed [first_label] [first_weight beta]) keep_all <>
  Some (stated_warm_up_objective unit_weight keep_all
          [first_label] [first_weight beta]).
Proof.
  assert (E : eval relation_pos_r_loss unit_weight
                (warm_up_feed [first_label] [first_weight beta]) keep_all =
              Some (stated_warm_up_objective unit_weight keep_all
                      [first_label] [first_weight beta] - 0.0005)).
  { rewrite (warm_up_loss_and_stated_objective (ten_labels 2000 first_label)).
    - rewrite stated_L_reg_unit_weight. f_equal. lra.
    - apply one_vertex_shapes. reflexivity.
    - split; [|apply one_label_vector_ok; reflexivity].
      now repeat constructor. }
  split; [reflexivity|].
  split; [exact warm_up_loss_and_stated_objective|].
  split; [|split; [exact E | rewrite E; intros H; injection H; lra]].
  intros vs vs' fd fd' rnd rnd' Hw Hb Hr Hbr Hd.
  apply eval_agree; simpl.
  - intros key H. intuition discriminate.
  - intros key _. now rewrite Hw.
  - intros key _. now rewrite Hb.
  - intros p H. intuition discriminate.
  - intros p H.
    intuition (try discriminate);
      match goal with E' : FloatIn _ = FloatIn _ |- _ => injection E' as <- end;
      assumption.
  - intros node H. intuition (subst; auto).
Qed.

Lemma warm_up_objective_halves_the_stated_regularizer_witness :
  eval relation_pos_r_loss vertex_3_4
    (warm_up_feed [first_label] [first_weight beta]) keep_all =
  Some (stated_warm_up_objective vertex_3_4 keep_all
          [first_label] [first_weight beta]
        - 0.001 * (stated_L_reg vertex_3_4 / 2)).
Proof.
  apply (proj1 (proj2 warm_up_objective_halves_the_stated_regularizer)
           (ten_labels 2000 first_label) vertex_3_4).
  - apply one_vertex_shapes. reflexivity.
  - split; [|apply one_label_vector_ok; reflexivity].
    now repeat constructor.
Defined.
(** ** Ranking and top-k *)

Lemma insert_desc_length x l : length (insert_desc x l) = S (length l).
Proof.
  induction l as [|y l IH]; simpl; [reflexivity|].
  destruct (Rlt_dec (snd x) (snd y)); simpl; now rewrite ?IH.
Qed.

Lemma insert_desc_in x l y : In y (insert_desc x l) -> y = x \/ In y l.
Proof.
  induction l as [|z l IH]; simpl.
  - intros [<-|[]]; auto.
  - destruct (Rlt_dec (snd x) (snd z)); simpl.
    + intros [<-|H]; auto. destruct (IH H); auto.
    + intros [<-|[<-|H]]; auto.
Qed.

Lemma sorted_length l : length (fold_right insert_desc [] l) = length l.
Proof.
  induction l as [|x l IH]; simpl; [reflexivity|].
  now rewrite insert_desc_length, IH.
Qed.

Lemma sorted_in l y : In y (fold_right insert_desc [] l) -> In y l.
Proof.
  induction l as [|x l IH]; simpl; [auto|].
  intros H. apply insert_desc_in in H as [->|H]; auto.
Qed.

Lemma ranking_length r : length (ranking r) = length r.
Proof.
  unfold ranking.
  rewrite length_map, sorted_length, length_combine, length_seq.
  apply Nat.min_id.
Qed.

(** Every ranked position is a position of the row. *)
Lemma ranking_bound r i : In i (ranking r) -> (i < length r)%nat.
Proof.
  unfold ranking. intros H.
  apply in_map_iff in H as [[j x] [<- H]].
  apply sorted_in, in_combine_l, in_seq in H. simpl. lia.
Qed.

Lemma top_k_rows k m :
  Forall (fun r => (k <= length r)%nat) m ->
  top_k k m = Some (map (fun r => firstn k (ranking r)) m).
Proof.
  induction 1 as [|r m Hr _ IH]; simpl; [reflexivity|].
  unfold top_k_row. apply Nat.leb_le in Hr. now rewrite Hr, IH.
Qed.

(** The top [k] positions are the first of the top [k'] for [k <= k']. *)
Lemma firstn_prefix {A : Type} (k k' : nat) (l : list A) :
  (k <= k')%nat -> exists rest, firstn k' l = firstn k l ++ rest.
Proof.
  intros H. exists (skipn k (firstn k' l)).
  rewrite <- (firstn_skipn k (firstn k' l)) at 1.
  now rewrite firstn_firstn, Nat.min_l.
Qed.

(** ** The ranking is the sorted list of all positions *)

Lemma insert_desc_permutation x l : Permutation (insert_desc x l) (x :: l).
Proof.
  induction l as [|y l IH]; simpl; [reflexivity|].
  destruct (Rlt_dec (snd x) (snd y)); [|reflexivity].
  rewrite IH. apply perm_swap.
Qed.

Lemma sorted_permutation l : Permutation (fold_right insert_desc [] l) l.
Proof.
  induction l as [|x l IH]; simpl; [reflexivity|].
  rewrite insert_desc_permutation. now constructor.
Qed.

Lemma map_fst_combine {A B : Type} (l : list A) (l' : list B) :
  length l = length l' -> map fst (combine l l') = l.
Proof.
  revert l'; induction l as [|a l IH]; intros [|b l'] E; try discriminate;
    [reflexivity|].
  simpl. now rewrite IH by now injection E.
Qed.

Lemma ranking_permutation r : Permutation (ranking r) (seq 0 (length r)).
Proof.
  unfold ranking. rewrite sorted_permutation.
  rewrite map_fst_combine; [reflexivity|]. now rewrite length_seq.
Qed.

(** No position is ranked twice. *)
Lemma ranking_NoDup r k : NoDup (firstn k (ranking r)).
Proof.
  assert (N : NoDup (ranking r)).
  { eapply Permutation_NoDup; [symmetry; apply ranking_permutation|].
    apply seq_NoDup. }
  rewrite <- (firstn_skipn k (ranking r)) in N.
  now apply NoDup_app_remove_r in N.
Qed.




(** ** One-hot vectors and the hit count *)

Lemma nth_one_hot depth i j :
  (j < depth)%nat ->
  nth j (one_hot_vec depth i) 0 = if (j =? i)%nat then 1 else 0.
Proof.
  intros H. unfold one_hot_vec.
  set (f := fun j => if (j =? i)%nat then 1 else 0).
  rewrite nth_indep with (d' := f O) by now rewrite length_map, length_seq.
  rewrite map_nth, seq_nth by assumption. reflexivity.
Qed.

Lemma column_sums_one_hot depth positions :
  column_sums depth (map (one_hot_vec depth) positions) =
  map (fun j => sum (map (fun i => if (j =? i)%nat then 1 else 0) positions))
    (seq 0 depth).
Proof.
  unfold column_sums.
  apply map_ext_in. intros j Hj. apply in_seq in Hj.
  rewrite map_map. f_equal.
  apply map_ext. intros i. apply nth_one_hot. lia.
Qed.

Lemma weighted_sum_plus {A : Type} (f g : A -> R) l s :
  sum (map2 Rmult (map (fun j => f j + g j) l) s) =
  sum (map2 Rmult (map f l) s) + sum (map2 Rmult (map g l) s).
Proof.
  revert s; induction l as [|a l IH]; intros [|x s]; cbn [map map2];
    try (unfold sum; simpl; lra).
  rewrite !sum_cons, IH. lra.
Qed.

Lemma weighted_sum_zero {A : Type} (l : list A) s :
  sum (map2 Rmult (map (fun _ => 0) l) s) = 0.
Proof.
  revert s; induction l as [|a l IH]; intros [|x s]; cbn [map map2];
    try reflexivity.
  rewrite sum_cons, IH. lra.
Qed.

Lemma select_before s a i :
  (i < a)%nat ->
  sum (map2 Rmult (map (fun j => if (j =? i)%nat then 1 else 0) (seq a (length s))) s) = 0.
Proof.
  revert a; induction s as [|x s IH]; intros a H; [reflexivity|].
  cbn [length seq map map2]. rewrite sum_cons, IH by lia.
  destruct (Nat.eqb_spec a i); [lia|lra].
Qed.

(** The dot product with a one-hot vector selects an entry. *)
Lemma select_entry s a i :
  (a <= i < a + length s)%nat ->
  sum (map2 Rmult (map (fun j => if (j =? i)%nat then 1 else 0) (seq a (length s))) s) =
  nth (i - a) s 0.
Proof.
  revert a; induction s as [|x s IH]; intros a H; [simpl in H; lia|].
  cbn [length seq map map2]. rewrite sum_cons.
  destruct (Nat.eqb_spec a i) as [->|N].
  - rewrite select_before by lia. rewrite Nat.sub_diag. simpl. lra.
  - simpl in H. rewrite IH by lia.
    replace (i - a)%nat with (S (i - S a)) by lia. simpl. lra.
Qed.

(** Weighting the labels by how often each position was selected adds up the
    labels at the selected positions. *)
Lemma selected_labels positions s :
  Forall (fun i => (i < length s)%nat) positions ->
  sum (map2 Rmult
         (map (fun j => sum (map (fun i => if (j =? i)%nat then 1 else 0) positions))
            (seq 0 (length s))) s) =
  label_sum positions s.
Proof.
  unfold label_sum.
  induction 1 as [|i positions Hi _ IH].
  - apply weighted_sum_zero.
  - cbn [map]. rewrite sum_cons, <- IH.
    replace (nth i s 0) with
      (sum (map2 Rmult
              (map (fun j => if (j =? i)%nat then 1 else 0) (seq 0 (length s))) s))
      by (rewrite select_entry by lia; now rewrite Nat.sub_0_r).
    apply (weighted_sum_plus
             (fun j => if (j =? i)%nat then 1 else 0)
             (fun j => sum (map (fun i' => if (j =? i')%nat then 1 else 0) positions))).
Qed.

Lemma in_firstn {A : Type} (k : nat) (l : list A) x :
  In x (firstn k l) -> In x l.
Proof.
  revert l; induction k as [|k IH]; intros [|y l]; simpl; auto.
  - intros [].
  - intros [->|H]; auto.
Qed.

(** The hit count of one row of the graph: the labels at the top [k]
    positions, added up. *)
Lemma row_hits s_hat s k :
  length s_hat = length s ->
  sum (map2 Rmult
         (column_sums (length s)
            (map (one_hot_vec (length s)) (firstn k (ranking s_hat)))) s) =
  label_sum (firstn k (ranking s_hat)) s.
Proof.
  intros L. rewrite column_sums_one_hot. apply selected_labels.
  apply Forall_forall. intros i Hi. rewrite <- L.
  eapply ranking_bound, in_firstn, Hi.
Qed.
(** ** The evaluation tensors *)

Lemma map2_flip {A B C : Type} (f : A -> B -> C) l1 l2 :
  map2 (fun b a => f a b) l2 l1 = map2 f l1 l2.
Proof.
  revert l2; induction l1 as [|a l1 IH]; intros [|b l2]; simpl; auto.
  now rewrite IH.
Qed.

Lemma eval_pos_h_e vs fd rnd h :
  fed_ids fd In_pos_h = Some h ->
  in_table (embeddings vs int_embeddings) h ->
  eval pos_h_e vs fd rnd = Some (embed (embeddings vs int_embeddings) h).
Proof. apply eval_lookup. Qed.

Lemma eval_pos_t_e vs fd rnd t :
  fed_ids fd In_pos_t = Some t ->
  in_table (embeddings vs adv_embeddings) t ->
  eval pos_t_e vs fd rnd = Some (embed (embeddings vs adv_embeddings) t).
Proof. apply eval_lookup. Qed.

Lemma predictions_width aminer vs u v' :
  declared_shapes aminer vs ->
  width (tag_total aminer) (predictions vs u v').
Proof.
  intros D. apply Forall_forall. intros p Hp.
  unfold predictions in Hp. rewrite map2_combine in Hp.
  apply in_map_iff in Hp as [q [<- _]].
  unfold Spec.predict. rewrite decode_length.
  - now apply decoder_cols.
  - rewrite (decoder_cols aminer) by assumption. apply D.
Qed.

(** The predicted label vectors are [sigmoid ((v' - u) . W_dec + b_dec)]. *)
Lemma eval_pos_r_minus_dec aminer vs h t r rnd :
  declared_shapes aminer vs ->
  test_batch_ok aminer vs (h, t, r) ->
  eval pos_r_minus_dec vs (test_feed h t r) rnd = Some (predicted vs (h, t, r)).
Proof.
  intros D (Hh & Ht & Lt & _).
  pose proof D as (_ & Hemb & _).
  assert (Wh : width rep_size (embed (embeddings vs int_embeddings) h))
    by (apply embed_width; [assumption | apply Hemb]).
  assert (Wt : width rep_size (embed (embeddings vs adv_embeddings) t))
    by (apply embed_width; [assumption | apply Hemb]).
  unfold pos_r_minus_dec.
  rewrite (eval_decoder aminer pos_r_minus vs _ rnd
             (map2 (map2 Rminus) (embed (embeddings vs adv_embeddings) t)
                (embed (embeddings vs int_embeddings) h))).
  - unfold predicted, predictions, Spec.predict, Spec.vsub.
    now rewrite map_map2, map2_flip.
  - assumption.
  - unfold pos_r_minus. cbn [eval].
    rewrite (eval_pos_t_e vs _ rnd t), (eval_pos_h_e vs _ rnd h)
      by (assumption || reflexivity).
    cbn [bind]. apply (zip_with_shaped Rminus rep_size); try assumption.
    now rewrite !embed_length.
  - auto with shapes.
Qed.

Lemma predicted_length vs h t r :
  length t = length h -> length (predicted vs (h, t, r)) = length h.
Proof.
  intros L. unfold predicted, predictions.
  rewrite map2_same_length; rewrite !embed_length; congruence.
Qed.

Lemma reduced_one_hot_width depth idx :
  width depth (reduce_axis1 (Kernel.one_hot depth idx)).
Proof.
  unfold reduce_axis1, Kernel.one_hot, width. cbn [fst snd].
  rewrite !Forall_map. apply Forall_forall. intros i _.
  unfold column_sums. now rewrite length_map, length_seq.
Qed.

Lemma hits_value depth k s_hat s :
  width depth s_hat -> width depth s ->
  msum (map2 (map2 Rmult)
          (reduce_axis1
             (Kernel.one_hot depth (map (fun p => firstn k (ranking p)) s_hat)))
          s) =
  batch_label_sum k s_hat s.
Proof.
  unfold msum, reduce_axis1, Kernel.one_hot, batch_label_sum. cbn [fst snd].
  intros H; revert s; induction H as [|p s_hat Hp _ IH]; intros s Hs.
  - reflexivity.
  - destruct Hs as [|l s Hl Hs]; [reflexivity|].
    cbn [map map2]. rewrite !sum_cons, IH by assumption.
    f_equal. subst depth. rewrite <- Hl. apply row_hits. congruence.
Qed.

(** The tensor appended to [hits] for [k]: the labels at the top [k]
    predicted positions of every edge, added up. *)
Lemma eval_hits_at aminer vs h t r rnd k :
  declared_shapes aminer vs ->
  test_batch_ok aminer vs (h, t, r) ->
  (k <= tag_total aminer)%nat ->
  eval (hits_at aminer k) vs (test_feed h t r) rnd =
  Some (batch_label_sum k (predicted vs (h, t, r)) r).
Proof.
  intros D Hb Hk.
  pose proof (eval_pos_r_minus_dec aminer vs h t r rnd D Hb) as E.
  pose proof (predictions_width aminer vs
                (embed (embeddings vs int_embeddings) h)
                (embed (embeddings vs adv_embeddings) t) D) as W.
  fold (predicted vs (h, t, r)) in W.
  destruct Hb as (_ & _ & Lt & [Lr Wr] & _).
  unfold hits_at. cbn [eval]. rewrite E. cbn [bind].
  rewrite top_k_rows.
  - cbn [bind eval pos_r test_feed fed].
    rewrite (zip_with_shaped Rmult (tag_total aminer)).
    + cbn [bind]. now rewrite hits_value.
    + unfold reduce_axis1, Kernel.one_hot. cbn [fst snd].
      rewrite !length_map, predicted_length; congruence.
    + apply reduced_one_hot_width.
    + assumption.
  - eapply Forall_impl; [|exact W]. simpl. intros p ->. exact Hk.
Qed.
(** ** Counting true labels *)

Lemma multi_hot_nth s i :
  Forall (fun x => x = 0 \/ x = 1) s -> nth i s 0 = 0 \/ nth i s 0 = 1.
Proof.
  intros H; revert i; induction H as [|x s Hx _ IH]; intros [|i]; simpl; auto.
Qed.

Lemma is_true_label_1 : Spec.is_true_label 1 = true.
Proof. unfold Spec.is_true_label. destruct (Req_dec_T 1 1); [reflexivity|lra]. Qed.

Lemma is_true_label_0 : Spec.is_true_label 0 = false.
Proof. unfold Spec.is_true_label. destruct (Req_dec_T 0 1); [lra|reflexivity]. Qed.

(** On a multi-hot label vector, adding up the labels at some positions
    counts the true labels at these positions. *)
Lemma label_sum_counts positions s :
  Forall (fun x => x = 0 \/ x = 1) s ->
  label_sum positions s =
  INR (length (filter (fun j => Spec.is_true_label (nth j s 0)) positions)).
Proof.
  intros H. unfold label_sum.
  induction positions as [|i positions IH]; [reflexivity|].
  cbn [map filter]. rewrite sum_cons, IH.
  destruct (multi_hot_nth s i H) as [-> | ->].
  - rewrite is_true_label_0. lra.
  - rewrite is_true_label_1. cbn [length]. rewrite S_INR. lra.
Qed.

Lemma sum_counts s :
  Forall (fun x => x = 0 \/ x = 1) s -> sum s = INR (Spec.true_labels s).
Proof.
  unfold Spec.true_labels.
  induction 1 as [|x s [-> | ->] _ IH]; [reflexivity| |];
    cbn [filter]; rewrite sum_cons, IH.
  - rewrite is_true_label_0. lra.
  - rewrite is_true_label_1. cbn [length]. rewrite S_INR. lra.
Qed.

Lemma label_sum_nonneg positions s :
  Forall (fun x => x = 0 \/ x = 1) s -> 0 <= label_sum positions s.
Proof.
  intros H. rewrite label_sum_counts by assumption. apply pos_INR.
Qed.

(** The labels at the top [k] positions are among those at the top [k'] for
    [k <= k']. *)
Lemma label_sum_monotone k k' p s :
  (k <= k')%nat ->
  Forall (fun x => x = 0 \/ x = 1) s ->
  label_sum (firstn k (ranking p)) s <= label_sum (firstn k' (ranking p)) s.
Proof.
  intros Hk Hs. destruct (firstn_prefix k k' (ranking p) Hk) as [rest ->].
  unfold label_sum. rewrite map_app, sum_app.
  pose proof (label_sum_nonneg rest s Hs) as N. unfold label_sum in N. lra.
Qed.

Lemma batch_label_sum_monotone k k' s_hat s :
  (k <= k')%nat -> multi_hot s ->
  batch_label_sum k s_hat s <= batch_label_sum k' s_hat s.
Proof.
  intros Hk Hs. unfold batch_label_sum.
  revert s_hat; induction Hs as [|l s Hl _ IH]; intros [|p s_hat];
    try (cbn [map2]; lra).
  cbn [map2]. rewrite !sum_cons.
  pose proof (label_sum_monotone k k' p l Hk Hl). specialize (IH s_hat). lra.
Qed.

Lemma batch_label_sum_counts k s_hat s :
  multi_hot s ->
  batch_label_sum k s_hat s = INR (batch_true_in_top_k k s_hat s).
Proof.
  intros Hs. unfold batch_label_sum, batch_true_in_top_k.
  revert s_hat; induction Hs as [|l s Hl _ IH]; intros [|p s_hat];
    try reflexivity.
  cbn [map2 list_sum fold_right]. rewrite sum_cons, plus_INR, IH.
  f_equal. now apply label_sum_counts.
Qed.

Lemma msum_counts s : multi_hot s -> msum s = INR (batch_true_labels s).
Proof.
  unfold msum, batch_true_labels.
  induction 1 as [|l s Hl _ IH]; [reflexivity|].
  cbn [map list_sum fold_right]. rewrite sum_cons, plus_INR, IH.
  f_equal. now apply sum_counts.
Qed.

(** ** The top labels are the labels of the lowest ranks *)

Lemma filter_permutation_length {A : Type} (f : A -> bool) l l' :
  Permutation l l' -> length (filter f l) = length (filter f l').
Proof.
  induction 1 as [|x l l' _ IH|x y l|l l' l'' _ IH _ IH']; cbn [filter].
  - reflexivity.
  - destruct (f x); cbn [length]; now rewrite IH.
  - destruct (f x), (f y); reflexivity.
  - congruence.
Qed.












(** ** One test batch *)

(** What a run of [hits] and [relation_sum] on a well-formed test batch
    returns. *)
Lemma run_test_batch aminer vs rnd h t r :
  declared_shapes aminer vs ->
  test_batch_ok aminer vs (h, t, r) ->
  run_all (hits aminer) vs (test_feed h t r) rnd =
  Some (map (fun k => batch_label_sum k (predicted vs (h, t, r)) r) hits_k) /\
  eval relation_sum vs (test_feed h t r) rnd = Some (msum r).
Proof.
  intros D Hb. pose proof D as (Hk & _).
  split; [|reflexivity].
  unfold hits, hits_k. cbn [map run_all].
  rewrite !(eval_hits_at aminer vs h t r rnd) by (assumption || lia).
  reflexivity.
Qed.

(** C3: for every well-formed test batch (vertex ids in the tables, one
    multi-hot label vector of [tag_total] entries per edge), the counts
    that a run of [hits] returns satisfy [count@1 <= count@5 <= count@10],
    and so do the counts divided by the total of true labels when this
    total is not 0. *)
Theorem hits_monotone_in_k aminer vs rnd h t r :
  declared_shapes aminer vs ->
  test_batch_ok aminer vs (h, t, r) ->
  exists count1 count5 count10 total,
    run_all (hits aminer) vs (test_feed h t r) rnd =
    Some [count1; count5; count10] /\
    eval relation_sum vs (test_feed h t r) rnd = Some total /\
    count1 <= count5 <= count10 /\
    (total <> 0 ->
     count1 / total <= count5 / total <= count10 / total).
Proof.
  intros D Hb.
  destruct (run_test_batch aminer vs rnd h t r D Hb) as [Eh Es].
  destruct Hb as (_ & _ & _ & _ & Hm).
  do 4 eexists. split; [exact Eh|]. split; [exact Es|].
  set (p := predicted vs (h, t, r)).
  pose proof (batch_label_sum_monotone 1 5 p r ltac:(lia) Hm) as H15.
  pose proof (batch_label_sum_monotone 5 10 p r ltac:(lia) Hm) as H510.
  split; [lra|]. intros Hz.
  assert (P : 0 < / msum r).
  { apply Rinv_0_lt_compat. rewrite msum_counts in Hz |- * by assumption.
    pose proof (pos_INR (batch_true_labels r)). lra. }
  unfold Rdiv. split; apply Rmult_le_compat_r; lra.
Qed.

Lemma hits_monotone_in_k_witness :
  exists count1 count5 count10 total,
    run_all (hits (ten_labels 2000 first_label)) ten_labels_model
      (test_feed [0%Z] [0%Z] [first_label]) keep_all =
    Some [count1; count5; count10] /\
    eval relation_sum ten_labels_model
      (test_feed [0%Z] [0%Z] [first_label]) keep_all = Some total /\
    count1 <= count5 <= count10 /\
    (total <> 0 ->
     count1 / total <= count5 / total <= count10 / total).
Proof.
  apply (hits_monotone_in_k (ten_labels 2000 first_label) ten_labels_model
           keep_all [0%Z] [0%Z] [first_label]).
  - apply one_vertex_shapes. reflexivity.
  - apply ten_labels_batch_ok; [apply first_label_multi_hot | reflexivity].
Defined.

(** ** The evaluation loop *)

(** What [hits_] and [all_count] hold after [n] well-formed test batches. *)
Lemma evaluation_batches_counts aminer vs rnd n :
  declared_shapes aminer vs ->
  forall call h1 h5 h10 all_count,
    batches_ok aminer vs n call ->
    evaluation_batches aminer vs rnd n call [h1; h5; h10] all_count =
    Ok ([h1 + INR (evaluation_hits aminer vs 1 n call);
         h5 + INR (evaluation_hits aminer vs 5 n call);
         h10 + INR (evaluation_hits aminer vs 10 n call)],
        all_count + INR (evaluation_true_labels aminer n call)).
Proof.
  intros Hd. induction n as [|n IH]; intros call h1 h5 h10 all_count Hok.
  - unfold evaluation_hits, evaluation_true_labels. simpl.
    now rewrite !Rplus_0_r.
  - assert (Hb : test_batch_ok aminer vs (test_batch aminer call))
      by (apply Hok; lia).
    cbn [evaluation_batches].
    change (next_test_batch aminer call eval_batch_size)
      with (test_batch aminer call).
    unfold evaluation_hits, evaluation_true_labels.
    cbn [seq map list_sum fold_right].
    destruct (test_batch aminer call) as [[h t] r].
    destruct (run_test_batch aminer vs (rnd call) h t r Hd Hb) as [-> ->].
    assert (Hm : multi_hot r) by apply Hb.
    unfold hits_k. cbn [map map2].
    rewrite IH by (intros i Hi; apply Hok; lia).
    unfold evaluation_hits, evaluation_true_labels.
    cbn [labels_of]. rewrite !plus_INR.
    rewrite !batch_label_sum_counts, msum_counts by assumption.
    fold list_sum. now rewrite !Rplus_assoc.
Qed.

Lemma np_divide_value x y : y <> 0 -> np_divide x y = Value (x / y).
Proof.
  intros H. unfold np_divide. now destruct (Req_dec_T y 0).
Qed.

Lemma evaluation_true_labels_0 aminer call :
  evaluation_true_labels aminer 0 call = 0%nat.
Proof. reflexivity. Qed.

(** What the evaluation block returns over well-formed test batches with at
    least one true label. *)
Lemma evaluate_counts aminer vs rnd call :
  declared_shapes aminer vs ->
  batches_ok aminer vs (test_total_batch aminer) call ->
  evaluation_true_labels aminer (test_total_batch aminer) call <> 0%nat ->
  evaluate aminer vs rnd call =
  Ok (map (fun k =>
             Value (INR (evaluation_hits aminer vs k (test_total_batch aminer) call)
                    / INR (evaluation_true_labels aminer (test_total_batch aminer) call)))
        hits_k).
Proof.
  intros Hd Hok Ht.
  unfold evaluate. cbn [hits_k length repeat].
  rewrite evaluation_batches_counts by assumption.
  destruct (Nat.eqb_spec (test_total_batch aminer) 0) as [E|_].
  - rewrite E in Ht. now rewrite evaluation_true_labels_0 in Ht.
  - assert (Hz : 0.0 + INR (evaluation_true_labels aminer (test_total_batch aminer) call) <> 0).
    { apply not_0_INR in Ht. lra. }
    cbn [quotients map]. rewrite !np_divide_value by assumption.
    replace (0.0 + INR (evaluation_true_labels aminer (test_total_batch aminer) call))
      with (INR (evaluation_true_labels aminer (test_total_batch aminer) call))
      by lra.
    now rewrite !Rplus_0_l.
Qed.





Lemma first_label_counted call :
  evaluation_true_labels (ten_labels 2000 first_label) 1 call = 1%nat.
Proof.
  unfold evaluation_true_labels, batch_true_labels, Spec.true_labels.
  cbn [seq map test_batch ten_labels next_test_batch labels_of first_label filter].
  now rewrite is_true_label_1, !is_true_label_0.
Qed.

(** ** Evaluation without a true label *)

Lemma list_sum_cons x l : list_sum (x :: l) = (x + list_sum l)%nat.
Proof. reflexivity. Qed.

Lemma no_true_in_top_k k s_hat s :
  Forall (Forall (fun x => x = 0)) s -> batch_true_in_top_k k s_hat s = 0%nat.
Proof.
  unfold batch_true_in_top_k.
  intros H; revert s_hat; induction H as [|l s Hl _ IH]; intros [|p s_hat];
    try reflexivity.
  cbn [map2]. rewrite list_sum_cons, IH, Nat.add_0_r.
  unfold Spec.true_in_top_k.
  induction (firstn k (ranking p)) as [|j positions IHp]; [reflexivity|].
  cbn [filter].
  replace (nth j l 0) with 0.
  - now rewrite is_true_label_0.
  - clear -Hl. revert j; induction Hl as [|x l -> _ IHl]; intros [|j]; simpl; auto.
Qed.

Lemma no_true_labels s :
  Forall (Forall (fun x => x = 0)) s -> batch_true_labels s = 0%nat.
Proof.
  unfold batch_true_labels.
  induction 1 as [|l s Hl _ IH]; [reflexivity|].
  cbn [map]. rewrite list_sum_cons, IH, Nat.add_0_r.
  unfold Spec.true_labels.
  induction Hl as [|x l -> _ IHl]; [reflexivity|].
  cbn [filter]. now rewrite is_true_label_0.
Qed.

Lemma list_sum_zero {A : Type} (f : A -> nat) l :
  (forall x, In x l -> f x = 0%nat) -> list_sum (map f l) = 0%nat.
Proof.
  induction l as [|a l IH]; intros H; [reflexivity|].
  cbn [map]. rewrite list_sum_cons, H by (simpl; auto).
  apply IH. intros x Hx. apply H. simpl; auto.
Qed.

(** C9: the quotients [hit / all_count] are taken whatever [all_count] is.
    With fewer test examples than [eval_batch_size] there is no test batch,
    [all_count] is still the Python number 0.0 and the division raises
    [ZeroDivisionError]; with well-formed test batches whose label matrices
    are all 0, [all_count] is the NumPy scalar 0 and every reported value
    is [nan]. *)
Theorem hits_division_unguarded :
  (forall aminer vs rnd call,
     (test_num_examples aminer < eval_batch_size)%nat ->
     test_total_batch aminer = 0%nat /\
     evaluate aminer vs rnd call = Raised ZeroDivisionError) /\
  (forall aminer vs rnd call,
     (0 < test_total_batch aminer)%nat ->
     declared_shapes aminer vs ->
     batches_ok aminer vs (test_total_batch aminer) call ->
     (forall i, (call <= i < call + test_total_batch aminer)%nat ->
        Forall (Forall (fun x => x = 0)) (labels_of (test_batch aminer i))) ->
     evaluate aminer vs rnd call = Ok [NaN; NaN; NaN]).
Proof.
  split.
  - intros aminer vs rnd call H.
    assert (E : test_total_batch aminer = 0%nat)
      by (unfold test_total_batch; now apply Nat.div_small).
    split; [assumption|].
    unfold evaluate. rewrite E. cbn [evaluation_batches Nat.eqb hits_k length repeat quotients].
    unfold py_divide. destruct (Req_dec_T 0.0 0) as [_|N]; [reflexivity|].
    exfalso; apply N; lra.
  - intros aminer vs rnd call Hn Hd Hok Hz.
    unfold evaluate. cbn [hits_k length repeat].
    rewrite evaluation_batches_counts by assumption.
    destruct (Nat.eqb_spec (test_total_batch aminer) 0) as [E|_]; [lia|].
    assert (T : evaluation_true_labels aminer (test_total_batch aminer) call = 0%nat).
    { apply list_sum_zero. intros i Hi. apply in_seq in Hi.
      apply no_true_labels, Hz. lia. }
    assert (H : forall k,
               evaluation_hits aminer vs k (test_total_batch aminer) call = 0%nat).
    { intros k. apply list_sum_zero. intros i Hi. apply in_seq in Hi.
      apply no_true_in_top_k, Hz. lia. }
    rewrite T, !H. cbn [INR quotients].
    assert (D : np_divide (0 + 0) (0.0 + 0) = NaN).
    { unfold np_divide.
      destruct (Req_dec_T (0.0 + 0) 0) as [_|N]; [|exfalso; apply N; lra].
      destruct (Req_dec_T (0 + 0) 0) as [_|N]; [reflexivity|exfalso; apply N; lra]. }
    now rewrite D.
Qed.

Lemma hits_division_unguarded_witness :
  evaluate (ten_labels 1999 first_label) ten_labels_model (fun _ => keep_all) 0 =
  Raised ZeroDivisionError /\
  evaluate (ten_labels 2000 no_label) ten_labels_model (fun _ => keep_all) 0 =
  Ok [NaN; NaN; NaN].
Proof.
  split.
  - apply (proj1 hits_division_unguarded (ten_labels 1999 first_label)).
    unfold eval_batch_size. simpl. lia.
  - apply (proj2 hits_division_unguarded (ten_labels 2000 no_label)).
    + rewrite ten_labels_one_batch. lia.
    + apply one_vertex_shapes. reflexivity.
    + apply ten_labels_batches_ok; [apply no_label_multi_hot | reflexivity].
    + intros i _. repeat (apply Forall_cons || apply Forall_nil); reflexivity.
Defined.
(** ** Evaluation and dropout *)

Lemma run_all_without_dropout fetches vs fd rnd rnd' :
  Forall (fun t => dropouts_of t = []) fetches ->
  run_all fetches vs fd rnd = run_all fetches vs fd rnd'.
Proof.
  induction 1 as [|t fetches Ht _ IH]; simpl; [reflexivity|].
  now rewrite (eval_without_dropout t vs fd rnd rnd' Ht), IH.
Qed.

Lemma hits_without_dropout aminer :
  Forall (fun t => dropouts_of t = []) (hits aminer).
Proof. repeat constructor. Qed.

Lemma evaluation_batches_draws aminer vs rnd rnd' n :
  forall call hits_ all_count,
    evaluation_batches aminer vs rnd n call hits_ all_count =
    evaluation_batches aminer vs rnd' n call hits_ all_count.
Proof.
  induction n as [|n IH]; intros call hits_ all_count; [reflexivity|].
  cbn [evaluation_batches].
  destruct (next_test_batch aminer call eval_batch_size) as [[h t] r].
  rewrite (run_all_without_dropout (hits aminer) vs _ (rnd call) (rnd' call))
    by apply hits_without_dropout.
  rewrite (eval_without_dropout relation_sum vs _ (rnd call) (rnd' call))
    by reflexivity.
  destruct (run_all _ _ _ _); [|reflexivity].
  destruct (eval relation_sum _ _ _); [|reflexivity].
  apply IH.
Qed.

Lemma tanh_1_pos : 0 < Rtrigo_def.tanh 1.
Proof.
  unfold Rtrigo_def.tanh. apply Rdiv_lt_0_compat.
  - rewrite <- sinh_0. apply sinh_lt. lra.
  - unfold cosh. pose proof (exp_pos 1). pose proof (exp_pos (Ropp 1)). lra.
Qed.

(** C8: the tensors that the evaluation fetches have no dropout node and
    neither encoder parameter below them; a run of [hits] and
    [relation_sum], and with it the whole evaluation, returns the same
    values whatever the dropout draws are; the hidden representation that
    the training losses are computed from does depend on the draws. *)
Theorem evaluation_ignores_dropout :
  (forall aminer k,
     dropouts_of (hits_at aminer k) = [] /\
     mentions (variables_of (hits_at aminer k)) (Weight encoder_w) = false /\
     mentions (variables_of (hits_at aminer k)) (Bias encoder_b) = false) /\
  dropouts_of relation_sum = [] /\
  (forall aminer vs fd rnd rnd',
     run_all (hits aminer) vs fd rnd = run_all (hits aminer) vs fd rnd' /\
     eval relation_sum vs fd rnd = eval relation_sum vs fd rnd') /\
  (forall aminer vs rnd rnd' call,
     evaluate aminer vs rnd call = evaluate aminer vs rnd' call) /\
  (exists vs fd rnd rnd',
     eval pos_r_rep vs fd rnd <> eval pos_r_rep vs fd rnd').
Proof.
  split; [intros aminer k; repeat split|].
  split; [reflexivity|]. split; [|split].
  - intros aminer vs fd rnd rnd'. split.
    + apply run_all_without_dropout, hits_without_dropout.
    + now apply eval_without_dropout.
  - intros aminer vs rnd rnd' call. unfold evaluate.
    now rewrite (evaluation_batches_draws aminer vs rnd rnd').
  - exists (one_vertex (zeros rep_size) 0 1),
           (warm_up_feed [no_label] [no_weight]), keep_all, drop_all.
    intros H. unfold pos_r_rep, pos_r in H.
    assert (D : declared_shapes (ten_labels 2000 no_label)
                  (one_vertex (zeros rep_size) 0 1))
      by (apply one_vertex_shapes; reflexivity).
    assert (W : width 10 [no_label]) by now repeat constructor.
    rewrite (proj1 (eval_autoencoder (ten_labels 2000 no_label) Drop_pos In_pos_r
                      (one_vertex (zeros rep_size) 0 1)
                      (warm_up_feed [no_label] [no_weight]) keep_all [no_label]
                      D eq_refl W)),
            (proj1 (eval_autoencoder (ten_labels 2000 no_label) Drop_pos In_pos_r
                      (one_vertex (zeros rep_size) 0 1)
                      (warm_up_feed [no_label] [no_weight]) drop_all [no_label]
                      D eq_refl W)) in H.
    apply (f_equal (fun o => match o with
                             | Some ((x :: _) :: _) => x
                             | _ => 0
                             end)) in H.
    cbn in H.
    match type of H with
    | Rtrigo_def.tanh ?a / _ * _ = _ => replace a with 1 in H by lra
    end.
    pose proof tanh_1_pos as P. unfold keep_prob in H. lra.
Qed.
(** ** The warm-up phase *)

Section WarmUp.

Variable slots : Type.
Variable adam :
  R -> tf.tensor KScalar -> variables -> slots -> feed_dict -> draws ->
  variables * slots.
Variable aminer : dataset.
Variable random : nat -> draws.

Hypothesis adam_keeps_shapes : keeps_shapes adam aminer.
Hypothesis provider_ok : autoencoder_batches_ok aminer.

Lemma relation_optimizer_var_list :
  var_list relation_optimizer =
  [Weight encoder_w; Weight decoder_w; Bias encoder_b; Bias decoder_b].
Proof. reflexivity. Qed.

Lemma relation_optimizer_keeps_embeddings (s : session slots) fd rnd key :
  embeddings (vars (apply_gradients adam relation_optimizer s fd rnd)) key =
  embeddings (vars s) key.
Proof.
  unfold apply_gradients.
  destruct (adam _ _ _ _ _ _) as [stepped acc]. cbn [vars embeddings].
  rewrite relation_optimizer_var_list. now destruct key.
Qed.

(** A step writes variables of the declared shapes. *)
Lemma apply_gradients_shapes op (s : session slots) fd rnd :
  declared_shapes aminer (vars s) ->
  declared_shapes aminer (vars (apply_gradients adam op s fd rnd)).
Proof.
  intros D.
  pose proof (adam_keeps_shapes (rate op) (objective op) (vars s)
                (accumulators s) fd rnd D) as D'.
  unfold apply_gradients.
  destruct (adam _ _ _ _ _ _) as [stepped acc]. cbn [fst] in D'.
  destruct D as (Hk & He & Hwe & Hwd & Hbe & Hbd).
  destruct D' as (_ & He' & Hwe' & Hwd' & Hbe' & Hbd').
  unfold declared_shapes. cbn [vars embeddings weights biases].
  split; [exact Hk|]. split; [|split; [|split; [|split]]].
  - intros key.
    destruct (mentions (var_list op) (Embedding key)); [apply He' | apply He].
  - destruct (mentions (var_list op) (Weight encoder_w)); assumption.
  - destruct (mentions (var_list op) (Weight decoder_w)); assumption.
  - destruct (mentions (var_list op) (Bias encoder_b)); assumption.
  - destruct (mentions (var_list op) (Bias decoder_b)); assumption.
Qed.

(** A warm-up step on a well-formed batch does not fail: its feed holds both
    placeholders that [relation_pos_r_loss] is computed from. *)
Lemma warm_up_step_runs (s : session slots) vecs bs rnd :
  declared_shapes aminer (vars s) ->
  autoencoder_batch_ok aminer (vecs, bs) ->
  exists cur_loss,
    run_step adam relation_optimizer relation_pos_r_loss s
      (warm_up_feed vecs bs) rnd =
    Some (apply_gradients adam relation_optimizer s (warm_up_feed vecs bs) rnd,
          cur_loss).
Proof.
  intros D B. unfold run_step. cbn [objective relation_optimizer minimize].
  rewrite (relation_pos_r_loss_value aminer) by assumption.
  cbn [bind]. eexists. reflexivity.
Qed.

Lemma warm_up_epoch_keeps_embeddings n :
  forall (st : progress slots) sum_loss,
    declared_shapes aminer (vars (sess st)) ->
    exists st' total,
      warm_up_epoch adam aminer random n st sum_loss = Ok (st', total) /\
      declared_shapes aminer (vars (sess st')) /\
      forall key,
        embeddings (vars (sess st')) key = embeddings (vars (sess st)) key.
Proof.
  induction n as [|n IH]; intros st sum_loss D.
  - exists st, sum_loss. split; [reflexivity|]. split; [exact D|reflexivity].
  - cbn [warm_up_epoch].
    pose proof (provider_ok (autoencoder_batches st)) as B.
    destruct (next_autoencoder_batch aminer (autoencoder_batches st) batch_size beta)
      as [vecs bs].
    destruct (warm_up_step_runs (sess st) vecs bs (random (runs st)) D B)
      as [l ->].
    match goal with
    | |- context [warm_up_epoch _ _ _ n ?st1 ?l1] =>
        destruct (IH st1 l1) as [st' [total [E [D' K]]]];
          [cbn [sess]; now apply apply_gradients_shapes|]
    end.
    exists st', total. split; [exact E|]. split; [exact D'|].
    intros key. rewrite K. cbn [sess].
    apply relation_optimizer_keeps_embeddings.
Qed.

Lemma warm_up_keeps_embeddings n :
  forall epoch (st : progress slots),
    declared_shapes aminer (vars (sess st)) ->
    exists st',
      warm_up adam aminer random n epoch st = Ok st' /\
      declared_shapes aminer (vars (sess st')) /\
      forall key,
        embeddings (vars (sess st')) key = embeddings (vars (sess st)) key.
Proof.
  induction n as [|n IH]; intros epoch st D.
  - exists st. split; [reflexivity|]. split; [exact D|reflexivity].
  - cbn [warm_up].
    destruct (warm_up_epoch_keeps_embeddings (total_batch aminer) st 0.0 D)
      as [st1 [total [-> [D1 K1]]]].
    destruct (IH (S epoch) (print (Warm_up_relation_epoch epoch total) st1))
      as [st' [E [D' K]]]; [exact D1|].
    exists st'. split; [exact E|]. split; [exact D'|].
    intros key. rewrite K. cbn [print sess]. apply K1.
Qed.

End WarmUp.

(** C10: the warm-up train operation writes the four autoencoder
    parameters only; a warm-up step leaves both embedding tables as they
    are; and the warm-up phase over well-formed batches, of any number of
    epochs from any state, runs to its end with both embedding tables as
    they were at its start. *)
Theorem warm_up_leaves_embeddings_unchanged :
  var_list relation_optimizer =
  [Weight encoder_w; Weight decoder_w; Bias encoder_b; Bias decoder_b] /\
  (forall slots adam (s : session slots) fd rnd key,
     embeddings (vars (apply_gradients adam relation_optimizer s fd rnd)) key =
     embeddings (vars s) key) /\
  (forall slots adam aminer random n epoch (st : progress slots),
     keeps_shapes adam aminer ->
     autoencoder_batches_ok aminer ->
     declared_shapes aminer (vars (sess st)) ->
     exists st',
       warm_up adam aminer random n epoch st = Ok st' /\
       forall key,
         embeddings (vars (sess st')) key = embeddings (vars (sess st)) key).
Proof.
  split; [reflexivity|]. split.
  - intros. apply relation_optimizer_keeps_embeddings.
  - intros slots adam aminer random n epoch st Ha Hp D.
    destruct (warm_up_keeps_embeddings slots adam aminer random Ha Hp n epoch st D)
      as [st' [E [_ K]]].
    now exists st'.
Qed.

Lemma warm_up_leaves_embeddings_unchanged_witness :
  exists st',
    warm_up no_update (ten_labels 2000 first_label) (fun _ => keep_all)
      warm_up_epochs 0%nat
      (start {| vars := ten_labels_model; accumulators := tt |}) = Ok st' /\
    forall key,
      embeddings (vars (sess st')) key = embeddings ten_labels_model key.
Proof.
  apply (proj2 (proj2 warm_up_leaves_embeddings_unchanged) unit no_update
           (ten_labels 2000 first_label) (fun _ => keep_all) warm_up_epochs 0%nat
           (start {| vars := ten_labels_model; accumulators := tt |})).
  - intros rate loss vs acc fd rnd D. exact D.
  - intros i. split; [|apply one_label_vector_ok; reflexivity].
    now repeat constructor.
  - apply one_vertex_shapes. reflexivity.
Defined.
(** ** The ranking on concrete rows *)

Lemma insert_desc_first x y l :
  ~ snd x < snd y -> insert_desc x (y :: l) = x :: y :: l.
Proof. intros H. simpl. now destruct (Rlt_dec (snd x) (snd y)). Qed.

Lemma insert_desc_later x y l :
  snd x < snd y -> insert_desc x (y :: l) = y :: insert_desc x l.
Proof. intros H. simpl. now destruct (Rlt_dec (snd x) (snd y)). Qed.

Ltac rank :=
  unfold ranking; cbn [length seq combine fold_right];
  change (insert_desc ?x []) with [x];
  repeat first [ rewrite insert_desc_later by (simpl; lra)
               | rewrite insert_desc_first by (simpl; lra)
               | change (insert_desc ?x []) with [x] ];
  cbn [map fst].

(** Larger entries come first, equal entries in the order of their
    positions. *)
Example ranking_by_decreasing_entry :
  ranking [1; 3; 2; 3] = [1; 3; 2; 0]%nat.
Proof. rank. reflexivity. Qed.

Example top_k_of_a_row :
  top_k 2 [[1; 3; 2; 3]] = Some [[1; 3]]%nat /\ top_k 5 [[1; 3; 2; 3]] = None.
Proof.
  split; [|reflexivity].
  cbn [top_k top_k_row length Nat.leb]. 
  replace (ranking [1; 3; 2; 3]) with [1; 3; 2; 0]%nat
    by (symmetry; apply ranking_by_decreasing_entry).
  reflexivity.
Qed.

Lemma ranking_of_equal_entries c :
  ranking [c; c; c; c; c; c; c; c; c; c] = seq 0 10.
Proof. rank. reflexivity. Qed.
Lemma ten_labels_predicted n l i :
  exists c,
    predicted ten_labels_model (test_batch (ten_labels n l) i) =
    [[c; c; c; c; c; c; c; c; c; c]].
Proof.
  eexists. unfold predicted, predictions, embed, Spec.predict, Spec.decode,
    Spec.vadd, Spec.vsub, vecmat, cols, l2_normalize, normalize_row.
  cbn [test_batch ten_labels next_test_batch ten_labels_model one_vertex
       embeddings weights biases map map2 nth Z.to_nat hd length seq
       zeros repeat rep_size sum fold_right].
  reflexivity.
Qed.

Lemma filter_none {A : Type} (f : A -> bool) l :
  (forall x, In x l -> f x = false) -> filter f l = [].
Proof.
  induction l as [|a l IH]; intros H; [reflexivity|].
  cbn [filter]. rewrite H by (simpl; auto). apply IH.
  intros x Hx. apply H. simpl; auto.
Qed.

Lemma ten_labels_hits k call :
  (1 <= k)%nat ->
  evaluation_hits (ten_labels 2000 first_label) ten_labels_model k 1 call = 1%nat.
Proof.
  intros Hk. unfold evaluation_hits. cbn [seq map].
  destruct (ten_labels_predicted 2000 first_label call) as [c ->].
  cbn [test_batch ten_labels next_test_batch labels_of].
  unfold batch_true_in_top_k, Spec.true_in_top_k. cbn [map2].
  rewrite ranking_of_equal_entries.
  destruct k as [|k]; [lia|].
  cbn [seq firstn filter nth first_label]. rewrite is_true_label_1.
  rewrite filter_none; [reflexivity|].
  intros j Hj. apply in_firstn in Hj. simpl in Hj.
  repeat (destruct Hj as [<-|Hj]; [apply is_true_label_0|]).
  destruct Hj.
Qed.

(** The evaluation on one test edge whose only true label is the first of
    ten equally predicted labels: the label is ranked first, and all three
    reported values are 1. *)
Example evaluate_ten_labels rnd :
  evaluate (ten_labels 2000 first_label) ten_labels_model rnd 0 =
  Ok [Value 1; Value 1; Value 1].
Proof.
  rewrite evaluate_counts.
  - rewrite ten_labels_one_batch. unfold hits_k. cbn [map].
    rewrite !ten_labels_hits, first_label_counted by lia.
    repeat f_equal; simpl; lra.
  - apply one_vertex_shapes. reflexivity.
  - apply ten_labels_batches_ok; [apply first_label_multi_hot | reflexivity].
  - rewrite ten_labels_one_batch, first_label_counted. discriminate.
Qed.

(** Of two labels with the same score the lower one ranks first: where the
    scores of the first two labels are both 1 and the second label is the
    true one, it is not the top label; where the first score is below 1, it
    is. *)
Example equal_scores_rank_the_lower_label_first :
  true_among_top 1 [1; 1] [0; 1] = 0%nat /\
  true_among_top 1 [0.5; 1] [0; 1] = 1%nat.
Proof.
  unfold true_among_top, rank_of, outranks.
  cbn [length seq filter nth Nat.ltb Nat.leb].
  rewrite is_true_label_0, is_true_label_1. cbn [andb].
  split.
  - destruct (Rlt_dec 1 1) as [H|_]; [lra|].
    destruct (Req_dec_T 1 1) as [_|H]; [|lra].
    reflexivity.
  - destruct (Rlt_dec 1 0.5) as [H|_]; [lra|].
    destruct (Req_dec_T 0.5 1) as [H|_]; [lra|].
    destruct (Rlt_dec 1 1) as [H|_]; [lra|].
    destruct (Req_dec_T 1 1) as [_|H]; [|lra].
    reflexivity.
Qed.
(** ** The losses on one pair of edges *)

Lemma tanh_0 : Rtrigo_def.tanh 0 = 0.
Proof. unfold Rtrigo_def.tanh. rewrite sinh_0. unfold Rdiv. apply Rmult_0_l. Qed.

Lemma sigmoid_0 : sigmoid 0 = 1 / 2.
Proof. unfold sigmoid. rewrite Ropp_0, exp_0. lra. Qed.

Lemma nth_zeros j n : nth j (zeros n) 0 = 0.
Proof.
  revert j; induction n as [|n IH]; intros [|j]; simpl; auto.
Qed.

Lemma vecmat_zeros x n m : vecmat x (repeat (zeros m) (S n)) = zeros m.
Proof.
  unfold vecmat, cols. cbn [repeat hd].
  replace (length (zeros m)) with m by (symmetry; apply repeat_length).
  assert (E : forall j, sum (map2 (fun a row => a * nth j row 0) x
                               (repeat (zeros m) (S n))) = 0).
  { intros j. generalize (S n) as k. induction x as [|a x IH]; intros [|k];
      try reflexivity.
    cbn [repeat map2]. rewrite sum_cons, IH, nth_zeros. lra. }
  rewrite (map_ext _ (fun _ => 0) E). clear E.
  generalize 0%nat. unfold zeros.
  induction m as [|m IH]; intros a; [reflexivity|].
  cbn [seq map repeat]. now rewrite IH.
Qed.

Lemma zeros_plus_zeros n : map2 Rplus (zeros n) (zeros n) = zeros n.
Proof.
  unfold zeros. induction n as [|n IH]; [reflexivity|].
  cbn [repeat map2]. now rewrite IH, Rplus_0_l.
Qed.

Lemma map_zeros f n : f 0 = 0 -> map f (zeros n) = zeros n.
Proof.
  intros E. unfold zeros. induction n as [|n IH]; [reflexivity|].
  cbn [repeat map]. now rewrite IH, E.
Qed.

Lemma dropout_row_zeros keep p j n : dropout_row keep p j (zeros n) = zeros n.
Proof.
  unfold zeros. revert j; induction n as [|n IH]; intros j; [reflexivity|].
  cbn [repeat dropout_row]. rewrite IH. f_equal. unfold Rdiv. ring.
Qed.

(** With an encoder whose parameters are all 0 the hidden representation of
    a label vector is 0, and with such a decoder every label is predicted
    with 1/2. *)
Lemma hidden_of_zero_encoder keep p s :
  Spec.hidden (repeat (zeros rep_size) 10) (zeros rep_size) keep p [s] =
  [zeros rep_size].
Proof.
  unfold Spec.hidden, Spec.encode, Spec.vadd. cbn [map].
  rewrite (vecmat_zeros s 9), zeros_plus_zeros, (map_zeros _ _ tanh_0).
  unfold Kernel.dropout. cbn [dropout_from]. now rewrite dropout_row_zeros.
Qed.

Lemma decode_of_zero_decoder x :
  Spec.decode (repeat (zeros 10) rep_size) (zeros 10) x = repeat (1 / 2) 10.
Proof.
  unfold Spec.decode, Spec.vadd.
  rewrite (vecmat_zeros x 63), zeros_plus_zeros.
  cbn [zeros repeat map]. now rewrite sigmoid_0.
Qed.

Lemma distance_to_itself u n :
  length u = n -> Spec.d u u (zeros n) = 0.
Proof.
  intros <-. unfold Spec.d, Spec.l1, Spec.vsub, Spec.vadd, zeros.
  induction u as [|x u IH]; [reflexivity|].
  cbn [length repeat map2 map]. rewrite sum_cons, IH.
  replace (x + 0 - x) with 0 by lra. rewrite Rabs_R0. lra.
Qed.

Lemma Rabs_half_weighted w : 0 <= w -> Rabs ((1 / 2 - 0) * w) = w / 2.
Proof. intros H. rewrite Rabs_right; lra. Qed.

Lemma Rabs_miss_weighted w : 0 <= w -> Rabs ((1 / 2 - 1) * w) = w / 2.
Proof. intros H. rewrite Rabs_left1; lra. Qed.

(** The joint loss on one positive edge with the first label and one
    negative edge without label, between the same two vertices, under an
    autoencoder whose parameters are all 0:
    [1 + 0.5 * ((50 / 2 + 9 / 2) + 10 / 2) + 0.001 * 0]. *)
Example loss_on_one_edge rnd :
  eval loss vertex_3_4 one_edge_feed rnd = Some 18.25.
Proof.
  unfold one_edge_feed.
  rewrite (loss_value (ten_labels 2000 first_label)).
  - cbn [vertex_3_4 one_vertex embeddings weights biases].
    change ((0 :: zeros 63) :: repeat (zeros rep_size) 9)
      with (repeat (zeros rep_size) 10).
    change (0 :: zeros 63) with (zeros rep_size).
    rewrite !hidden_of_zero_encoder.
    cbn [map]. rewrite decode_of_zero_decoder.
    unfold Spec.distances, Spec.L_trans, embed, l2_normalize.
    cbn [map map2 combine fst snd].
    rewrite distance_to_itself
      by (unfold normalize_row; now rewrite length_map).
    unfold Spec.L_reg. rewrite !frobenius_sq_zeros.
    change Spec.sq_norm with sum_sq. rewrite !sum_sq_zeros.
    unfold Spec.L_ae_batch, Spec.L_ae, Spec.l1, Spec.hadamard, Spec.vsub.
    cbn [combine map2 map fst snd repeat first_label no_label first_weight
         no_weight].
    rewrite !Rabs_half_weighted, Rabs_miss_weighted by (unfold beta; lra).
    unfold sum; cbn [fold_right]. rewrite Rmax_right by lra.
    f_equal. unfold beta. lra.
  - apply one_vertex_shapes. reflexivity.
  - apply one_edge_ok; reflexivity.
  - apply one_edge_ok; reflexivity.
  - reflexivity.
Qed.

(** ** The ranges of the activations *)

Lemma div_lt_above x y c : 0 < y -> x < c * y -> x / y < c.
Proof.
  intros Hy H. apply Rmult_lt_reg_r with y; [assumption|].
  replace (x / y * y) with x by (field; lra). assumption.
Qed.

Lemma div_lt_below x y c : 0 < y -> c * y < x -> c < x / y.
Proof.
  intros Hy H. apply Rmult_lt_reg_r with y; [assumption|].
  replace (x / y * y) with x by (field; lra). assumption.
Qed.

Lemma sigmoid_range y : 0 < sigmoid y < 1.
Proof.
  unfold sigmoid. pose proof (exp_pos (- y)) as E.
  split.
  - apply Rdiv_lt_0_compat; lra.
  - apply div_lt_above; lra.
Qed.

Lemma tanh_range y : -1 < Rtrigo_def.tanh y < 1.
Proof.
  unfold Rtrigo_def.tanh, sinh, cosh.
  pose proof (exp_pos y) as E. pose proof (exp_pos (- y)) as E'.
  set (a := exp y) in *. set (b := exp (- y)) in *.
  replace ((a - b) / 2 / ((a + b) / 2)) with ((a - b) / (a + b))
    by (field; lra).
  split.
  - apply div_lt_below; lra.
  - apply div_lt_above; lra.
Qed.

Lemma tanh_1_half : 1 / 2 < Rtrigo_def.tanh 1.
Proof.
  unfold Rtrigo_def.tanh, sinh, cosh.
  pose proof (exp_ineq1 1 ltac:(lra)) as E.
  pose proof (exp_pos (Ropp 1)) as E'.
  assert (I : exp 1 * exp (Ropp 1) = 1)
    by (rewrite <- exp_plus; replace (1 + Ropp 1) with 0 by lra; apply exp_0).
  set (a := exp 1) in *. set (b := exp (Ropp 1)) in *.
  assert (P : 0 < (a - 2) * b) by (apply Rmult_lt_0_compat; lra).
  assert (B : b < 1 / 2) by lra.
  replace ((a - b) / 2 / ((a + b) / 2)) with ((a - b) / (a + b))
    by (field; lra).
  apply div_lt_below; lra.
Qed.

Lemma eval_sigmoid_range (x : tf.tensor KMatrix) vs fd rnd m :
  eval (tf.sigmoid x) vs fd rnd = Some m ->
  Forall (Forall (fun y => 0 <= y <= 1)) m.
Proof.
  cbn [eval]. destruct (eval x vs fd rnd) as [m'|]; cbn [bind]; [|discriminate].
  intros [= <-]. unfold pointwise.
  apply Forall_map, Forall_forall. intros r _.
  apply Forall_map, Forall_forall. intros y _.
  pose proof (sigmoid_range y). lra.
Qed.

Lemma dropout_row_range keep j r :
  Forall (fun y => -1 <= y <= 1) r ->
  Forall (fun y => -2 <= y <= 2) (dropout_row keep keep_prob j r).
Proof.
  intros H. revert j. induction H as [|y r Hy _ IH]; intros j; cbn [dropout_row].
  - constructor.
  - constructor; [|apply IH].
    unfold keep_prob. destruct (keep j); lra.
Qed.

Lemma dropout_from_range keep i m :
  Forall (Forall (fun y => -1 <= y <= 1)) m ->
  Forall (Forall (fun y => -2 <= y <= 2)) (dropout_from keep keep_prob i m).
Proof.
  intros H. revert i. induction H as [|r m Hr _ IH]; intros i; cbn [dropout_from].
  - constructor.
  - constructor; [now apply dropout_row_range | apply IH].
Qed.

Lemma dropout_row_dropped keep p a r j :
  keep (a + j)%nat = false -> nth j (dropout_row keep p a r) 0 = 0.
Proof.
  revert a j. induction r as [|y r IH]; intros a j H; cbn [dropout_row].
  - now destruct j.
  - destruct j as [|j]; cbn [nth].
    + rewrite Nat.add_0_r in H. rewrite H. lra.
    + apply IH. now rewrite Nat.add_succ_comm.
Qed.

Lemma dropout_from_dropped keep p a m i j :
  keep (a + i)%nat j = false ->
  nth j (nth i (dropout_from keep p a m) []) 0 = 0.
Proof.
  revert a i. induction m as [|r m IH]; intros a i H; cbn [dropout_from].
  - now destruct i, j.
  - destruct i as [|i]; cbn [nth].
    + rewrite Nat.add_0_r in H. now apply (dropout_row_dropped _ _ 0%nat).
    + apply IH. now rewrite Nat.add_succ_comm.
Qed.

Lemma eval_hidden_range node (x : tf.tensor KMatrix) vs fd rnd m :
  eval (tf.dropout node (tf.tanh x) keep_prob) vs fd rnd = Some m ->
  Forall (Forall (fun y => -2 <= y <= 2)) m /\
  forall i j, rnd node i j = false -> nth j (nth i m []) 0 = 0.
Proof.
  cbn [eval]. destruct (eval x vs fd rnd) as [m'|]; cbn [bind]; [|discriminate].
  intros [= <-]. split.
  - apply dropout_from_range. unfold pointwise.
    apply Forall_map, Forall_forall. intros r _.
    apply Forall_map, Forall_forall. intros y _.
    pose proof (tanh_range y). lra.
  - intros i j H. now apply (dropout_from_dropped _ _ 0%nat).
Qed.

(** X1: whatever the variables and the feed are, every score of a
    reconstructed or predicted label vector lies between 0 and 1. *)
Theorem label_scores_between_0_and_1 vs fd rnd m :
  eval pos_r_dec vs fd rnd = Some m \/ eval neg_r_dec vs fd rnd = Some m \/
  eval pos_r_minus_dec vs fd rnd = Some m ->
  Forall (Forall (fun y => 0 <= y <= 1)) m.
Proof.
  intros [H|[H|H]]; exact (eval_sigmoid_range _ _ _ _ _ H).
Qed.

Lemma label_scores_between_0_and_1_witness :
  Forall (Forall (fun y => 0 <= y <= 1))
    (predicted ten_labels_model ([0%Z], [0%Z], [first_label])).
Proof.
  apply (label_scores_between_0_and_1 ten_labels_model
           (test_feed [0%Z] [0%Z] [first_label]) keep_all).
  right; right.
  apply (eval_pos_r_minus_dec (ten_labels 2000 first_label)).
  - apply one_vertex_shapes. reflexivity.
  - apply ten_labels_batch_ok; [apply first_label_multi_hot | reflexivity].
Defined.

(** X2: every entry of the hidden representation that the training losses
    use lies between -2 and 2, the hyperbolic tangent scaled by
    [1 / keep_prob]; an entry whose draw drops it is 0; and an entry can
    exceed 1. *)
Theorem hidden_representation_range :
  (forall vs fd rnd m,
     eval pos_r_rep vs fd rnd = Some m \/ eval neg_r_rep vs fd rnd = Some m ->
     Forall (Forall (fun y => -2 <= y <= 2)) m) /\
  (forall vs fd rnd m i j,
     eval pos_r_rep vs fd rnd = Some m -> rnd Drop_pos i j = false ->
     nth j (nth i m []) 0 = 0) /\
  (forall vs fd rnd m i j,
     eval neg_r_rep vs fd rnd = Some m -> rnd Drop_neg i j = false ->
     nth j (nth i m []) 0 = 0) /\
  (exists vs fd rnd m,
     eval pos_r_rep vs fd rnd = Some m /\ 1 < nth 0 (nth 0 m []) 0).
Proof.
  split; [|split; [|split]].
  - intros vs fd rnd m [H|H]; exact (proj1 (eval_hidden_range _ _ _ _ _ _ H)).
  - intros vs fd rnd m i j H. exact (proj2 (eval_hidden_range _ _ _ _ _ _ H) i j).
  - intros vs fd rnd m i j H. exact (proj2 (eval_hidden_range _ _ _ _ _ _ H) i j).
  - exists (one_vertex (zeros rep_size) 0 1),
           (warm_up_feed [no_label] [no_weight]), keep_all.
    eexists. split.
    + apply (proj1 (eval_autoencoder (ten_labels 2000 no_label) Drop_pos In_pos_r
                      (one_vertex (zeros rep_size) 0 1)
                      (warm_up_feed [no_label] [no_weight]) keep_all [no_label]
                      (one_vertex_shapes 2000 no_label (zeros rep_size) 0 1 eq_refl)
                      eq_refl
                      ltac:(now repeat constructor))).
    + cbn.
      match goal with
      | |- _ < Rtrigo_def.tanh ?a / _ * _ => replace a with 1 by lra
      end.
      pose proof tanh_1_half. unfold keep_prob. lra.
Qed.

Lemma hidden_representation_range_witness :
  Forall (Forall (fun y => -2 <= y <= 2))
    (Spec.hidden (weights vertex_3_4 encoder_w) (biases vertex_3_4 encoder_b)
       (drop_all Drop_pos) keep_prob [first_label]) /\
  nth 0 (nth 0 (Spec.hidden (weights vertex_3_4 encoder_w)
                  (biases vertex_3_4 encoder_b) (drop_all Drop_pos) keep_prob
                  [first_label]) []) 0 = 0.
Proof.
  assert (E : eval pos_r_rep vertex_3_4
                (warm_up_feed [first_label] [first_weight beta]) drop_all =
              Some (Spec.hidden (weights vertex_3_4 encoder_w)
                      (biases vertex_3_4 encoder_b) (drop_all Drop_pos) keep_prob
                      [first_label])).
  { apply (proj1 (eval_autoencoder (ten_labels 2000 first_label) Drop_pos In_pos_r
                    vertex_3_4 (warm_up_feed [first_label] [first_weight beta])
                    drop_all [first_label]
                    (one_vertex_shapes 2000 first_label row_3_4 0 0 eq_refl)
                    eq_refl
                    ltac:(now repeat constructor))). }
  destruct hidden_representation_range as (R1 & R2 & _).
  split.
  - apply (R1 _ _ _ _ (or_introl E)).
  - apply (R2 _ _ _ _ 0%nat 0%nat E). reflexivity.
Defined.

(** ** The signs of the losses *)

Lemma bind_some {A B : Type} (o : option A) (k : A -> option B) y :
  (x <- o ;; k x) = Some y -> exists a, o = Some a /\ k a = Some y.
Proof. destruct o as [a|]; [now exists a | discriminate]. Qed.

Lemma msum_nonneg m : Forall (Forall (fun x => 0 <= x)) m -> 0 <= msum m.
Proof.
  intros H. unfold msum. apply sum_nonneg.
  apply Forall_map. eapply Forall_impl; [|exact H].
  intros r Hr. now apply sum_nonneg.
Qed.

Lemma pointwise_all (P : R -> Prop) f m :
  (forall x, P (f x)) -> Forall (Forall P) (pointwise f m).
Proof.
  intros H. unfold pointwise.
  apply Forall_map, Forall_forall. intros r _.
  apply Forall_map, Forall_forall. intros x _. apply H.
Qed.

Lemma eval_sum_abs_nonneg (x : tf.tensor KMatrix) vs fd rnd v :
  eval (tf.reduce_sum (tf.abs x)) vs fd rnd = Some v -> 0 <= v.
Proof.
  cbn [eval]. destruct (eval x vs fd rnd) as [m|]; cbn [bind]; [|discriminate].
  intros [= <-]. apply msum_nonneg, pointwise_all. exact Rabs_pos.
Qed.

Lemma eval_sum_maximum_nonneg (x : tf.tensor KMatrix) vs fd rnd v :
  eval (tf.reduce_sum (tf.maximum x (tf.constant 0))) vs fd rnd = Some v ->
  0 <= v.
Proof.
  cbn [eval]. destruct (eval x vs fd rnd) as [m|]; cbn [bind]; [|discriminate].
  intros [= <-]. apply msum_nonneg, pointwise_all. intros e. apply Rmax_r.
Qed.

Lemma L_reg_nonneg W_enc W_dec b_enc b_dec :
  0 <= Spec.L_reg W_enc W_dec b_enc b_dec.
Proof.
  unfold Spec.L_reg, Spec.frobenius_sq. change Spec.sq_norm with sum_sq.
  assert (F : forall m, 0 <= sum (map sum_sq m)).
  { intros m. apply sum_nonneg, Forall_map, Forall_forall.
    intros r _. apply sum_sq_nonneg. }
  pose proof (F W_enc). pose proof (F W_dec).
  pose proof (sum_sq_nonneg b_enc). pose proof (sum_sq_nonneg b_dec). lra.
Qed.

Lemma relation_loss_nonneg vs fd rnd v :
  eval relation_loss vs fd rnd = Some v -> 0 <= v.
Proof.
  unfold relation_loss. rewrite eval_plus. intros H.
  apply bind_some in H as (a & Ha & H). apply bind_some in H as (b & Hb & H).
  injection H as <-.
  apply eval_sum_abs_nonneg in Ha. apply eval_sum_abs_nonneg in Hb. lra.
Qed.

Lemma trans_loss_nonneg vs fd rnd v :
  eval trans_loss vs fd rnd = Some v -> 0 <= v.
Proof. apply eval_sum_maximum_nonneg. Qed.

Lemma regularizer_term_nonneg vs fd rnd v :
  eval (tf.times (tf.constant l2_lambda) relation_ae_l2_loss) vs fd rnd = Some v ->
  0 <= v.
Proof.
  rewrite eval_times, eval_relation_ae_l2_loss. cbn [eval bind].
  intros [= <-].
  pose proof (L_reg_nonneg (weights vs encoder_w) (weights vs decoder_w)
                (biases vs encoder_b) (biases vs decoder_b)).
  unfold l2_lambda. nra.
Qed.

Lemma relation_pos_r_loss_nonneg vs fd rnd v :
  eval relation_pos_r_loss vs fd rnd = Some v -> 0 <= v.
Proof.
  unfold relation_pos_r_loss. rewrite eval_plus. intros H.
  apply bind_some in H as (a & Ha & H). apply bind_some in H as (b & Hb & H).
  injection H as <-.
  apply eval_sum_abs_nonneg in Ha. apply regularizer_term_nonneg in Hb. lra.
Qed.

Lemma loss_nonneg vs fd rnd v :
  eval loss vs fd rnd = Some v -> 0 <= v.
Proof.
  unfold loss. rewrite !eval_plus. intros H.
  apply bind_some in H as (a & Ha & H). apply bind_some in H as (b & Hb & H).
  injection H as <-.
  apply bind_some in Ha as (t & Ht & Ha). apply bind_some in Ha as (r & Hr & Ha).
  injection Ha as <-.
  apply trans_loss_nonneg in Ht. apply regularizer_term_nonneg in Hb.
  rewrite eval_times in Hr. cbn [eval bind] in Hr.
  apply bind_some in Hr as (x & Hx & Hr). injection Hr as <-.
  apply relation_loss_nonneg in Hx. unfold alpha. nra.
Qed.

(** X3: whatever the variables, the feed and the draws are, a run that
    fetches the translation loss, the reconstruction loss of [relation_loss],
    the warm-up loss or the joint loss returns a number that is not
    negative. *)
Theorem losses_are_not_negative vs fd rnd v :
  eval trans_loss vs fd rnd = Some v \/ eval relation_loss vs fd rnd = Some v \/
  eval relation_pos_r_loss vs fd rnd = Some v \/ eval loss vs fd rnd = Some v ->
  0 <= v.
Proof.
  intros [H|[H|[H|H]]].
  - exact (trans_loss_nonneg _ _ _ _ H).
  - exact (relation_loss_nonneg _ _ _ _ H).
  - exact (relation_pos_r_loss_nonneg _ _ _ _ H).
  - exact (loss_nonneg _ _ _ _ H).
Qed.

Lemma losses_are_not_negative_witness : 0 <= 18.25.
Proof.
  apply (losses_are_not_negative vertex_3_4 one_edge_feed keep_all).
  right; right; right. apply loss_on_one_edge.
Defined.

(** A sum of numbers that are not negative is 0 exactly when each is 0. *)
Lemma sum_zero_iff l :
  Forall (fun x => 0 <= x) l -> (sum l = 0 <-> Forall (fun x => x = 0) l).
Proof.
  induction 1 as [|x l Hx Hl IH]; [now split|].
  rewrite sum_cons. pose proof (sum_nonneg l Hl) as S. split.
  - intros E. constructor; [lra|]. apply IH. lra.
  - intros E. inversion E as [|? ? E0 El]; subst.
    apply IH in El. lra.
Qed.

Lemma L_trans_zero_iff g dp dn :
  Spec.L_trans g dp dn = 0 <->
  Forall (fun p => g + fst p <= snd p) (combine dp dn).
Proof.
  unfold Spec.L_trans. rewrite map2_combine, sum_zero_iff.
  - rewrite Forall_map.
    split; apply Forall_impl; intros [a b]; cbn [fst snd];
      unfold Rmax; destruct (Rle_dec 0 (g + a - b)); lra.
  - apply Forall_map, Forall_forall. intros [a b] _. apply Rmax_l.
Qed.

(** X4: on a well-formed batch, the translation loss is 0 exactly when the
    distance of every positive edge plus the margin 1 is at most the
    distance of its negative edge. *)
Theorem trans_loss_zero_iff_margin aminer vs rnd ph pt pr pb nh nt nr nb :
  declared_shapes aminer vs ->
  edges_ok aminer vs (ph, pt, pr, pb) ->
  edges_ok aminer vs (nh, nt, nr, nb) ->
  length nh = length ph ->
  let d_pos :=
    Spec.distances (embed (embeddings vs int_embeddings) ph)
      (embed (embeddings vs adv_embeddings) pt)
      (Spec.hidden (weights vs encoder_w) (biases vs encoder_b)
         (rnd Drop_pos) keep_prob pr) in
  let d_neg :=
    Spec.distances (embed (embeddings vs int_embeddings) nh)
      (embed (embeddings vs adv_embeddings) nt)
      (Spec.hidden (weights vs encoder_w) (biases vs encoder_b)
         (rnd Drop_neg) keep_prob nr) in
  eval trans_loss vs (train_feed ph pt pr pb nh nt nr nb) rnd = Some 0 <->
  Forall (fun p => 1 + fst p <= snd p) (combine d_pos d_neg).
Proof.
  intros D P N L d_pos d_neg.
  rewrite (trans_loss_value aminer) by assumption.
  fold d_pos d_neg. rewrite <- L_trans_zero_iff. split.
  - now intros [= ->].
  - now intros ->.
Qed.

Lemma trans_loss_zero_iff_margin_witness :
  let d_pos :=
    Spec.distances (embed (embeddings vertex_3_4 int_embeddings) [0%Z])
      (embed (embeddings vertex_3_4 adv_embeddings) [0%Z])
      (Spec.hidden (weights vertex_3_4 encoder_w) (biases vertex_3_4 encoder_b)
         (keep_all Drop_pos) keep_prob [first_label]) in
  let d_neg :=
    Spec.distances (embed (embeddings vertex_3_4 int_embeddings) [0%Z])
      (embed (embeddings vertex_3_4 adv_embeddings) [0%Z])
      (Spec.hidden (weights vertex_3_4 encoder_w) (biases vertex_3_4 encoder_b)
         (keep_all Drop_neg) keep_prob [no_label]) in
  eval trans_loss vertex_3_4 one_edge_feed keep_all = Some 0 <->
  Forall (fun p => 1 + fst p <= snd p) (combine d_pos d_neg).
Proof.
  apply (trans_loss_zero_iff_margin (ten_labels 2000 first_label) vertex_3_4
           keep_all [0%Z] [0%Z] [first_label] [first_weight beta]
           [0%Z] [0%Z] [no_label] [no_weight]).
  - apply one_vertex_shapes. reflexivity.
  - apply one_edge_ok; reflexivity.
  - apply one_edge_ok; reflexivity.
  - reflexivity.
Defined.

(** ** The reported values as fractions *)

Lemma filter_firstn_le {A : Type} (f : A -> bool) k l :
  (length (filter f (firstn k l)) <= length (filter f l))%nat.
Proof.
  rewrite <- (firstn_skipn k l) at 2. rewrite filter_app, length_app. lia.
Qed.

Lemma filter_firstn_monotone {A : Type} (f : A -> bool) k k' l :
  (k <= k')%nat ->
  (length (filter f (firstn k l)) <= length (filter f (firstn k' l)))%nat.
Proof.
  intros H. destruct (firstn_prefix k k' l H) as [rest ->].
  rewrite filter_app, length_app. lia.
Qed.

Lemma filter_positions (P : R -> bool) s a :
  length (filter (fun j => P (nth (j - a) s 0)) (seq a (length s))) =
  length (filter P s).
Proof.
  revert a. induction s as [|x s IH]; intros a; [reflexivity|].
  cbn [length seq filter]. rewrite Nat.sub_diag. cbn [nth].
  rewrite (filter_ext_in (fun j => P (nth (j - a) (x :: s) 0))
             (fun j => P (nth (j - S a) s 0))).
  - destruct (P x); cbn [length]; now rewrite IH.
  - intros j Hj. apply in_seq in Hj.
    replace (j - a)%nat with (S (j - S a)) by lia. reflexivity.
Qed.

Lemma true_in_ranking s_hat s :
  length s_hat = length s ->
  length (filter (fun j => Spec.is_true_label (nth j s 0)) (ranking s_hat)) =
  Spec.true_labels s.
Proof.
  intros L.
  rewrite (filter_permutation_length _ _ _ (ranking_permutation s_hat)), L.
  unfold Spec.true_labels. rewrite <- (filter_positions Spec.is_true_label s 0).
  f_equal. apply filter_ext. intros j. now rewrite Nat.sub_0_r.
Qed.

Lemma true_in_top_k_le k s_hat s :
  length s_hat = length s ->
  (Spec.true_in_top_k k s_hat s <= Spec.true_labels s)%nat.
Proof.
  intros L. rewrite <- (true_in_ranking s_hat s L).
  apply filter_firstn_le.
Qed.

Lemma true_in_top_k_all k s_hat s :
  length s_hat = length s -> (length s <= k)%nat ->
  Spec.true_in_top_k k s_hat s = Spec.true_labels s.
Proof.
  intros L K. rewrite <- (true_in_ranking s_hat s L).
  unfold Spec.true_in_top_k. rewrite firstn_all2; [reflexivity|].
  rewrite ranking_length. lia.
Qed.

Lemma true_in_top_k_monotone k k' s_hat s :
  (k <= k')%nat ->
  (Spec.true_in_top_k k s_hat s <= Spec.true_in_top_k k' s_hat s)%nat.
Proof. apply filter_firstn_monotone. Qed.

Lemma batch_true_in_top_k_le n k s_hat s :
  width n s_hat -> width n s ->
  (batch_true_in_top_k k s_hat s <= batch_true_labels s)%nat.
Proof.
  unfold batch_true_in_top_k, batch_true_labels.
  intros H; revert s; induction H as [|p s_hat Hp _ IH]; intros s Hs.
  - apply Nat.le_0_l.
  - destruct Hs as [|l s Hl Hs]; [apply Nat.le_0_l|].
    cbn [map2 map]. rewrite !list_sum_cons.
    pose proof (IH s Hs). pose proof (true_in_top_k_le k p l ltac:(congruence)).
    lia.
Qed.

Lemma batch_true_in_top_k_all n k s_hat s :
  width n s_hat -> width n s -> length s = length s_hat -> (n <= k)%nat ->
  batch_true_in_top_k k s_hat s = batch_true_labels s.
Proof.
  unfold batch_true_in_top_k, batch_true_labels.
  intros H; revert s; induction H as [|p s_hat Hp _ IH]; intros s Hs L K.
  - now destruct s.
  - destruct Hs as [|l s Hl Hs]; [discriminate|].
    cbn [map2 map]. rewrite !list_sum_cons.
    rewrite IH by (cbn [length] in L; (assumption || lia)).
    rewrite true_in_top_k_all; [reflexivity | congruence | lia].
Qed.

Lemma batch_true_in_top_k_monotone k k' s_hat s :
  (k <= k')%nat ->
  (batch_true_in_top_k k s_hat s <= batch_true_in_top_k k' s_hat s)%nat.
Proof.
  intros K. unfold batch_true_in_top_k.
  revert s; induction s_hat as [|p s_hat IH]; intros [|l s];
    cbn [map2]; try apply Nat.le_refl.
  rewrite !list_sum_cons. pose proof (IH s). pose proof (true_in_top_k_monotone k k' p l K). lia.
Qed.

Lemma list_sum_le {A : Type} (f g : A -> nat) l :
  (forall x, In x l -> (f x <= g x)%nat) ->
  (list_sum (map f l) <= list_sum (map g l))%nat.
Proof.
  induction l as [|x l IH]; intros H; cbn [map]; [apply Nat.le_refl|].
  rewrite !list_sum_cons. pose proof (H x (or_introl eq_refl)).
  assert (list_sum (map f l) <= list_sum (map g l))%nat
    by (apply IH; intros y Hy; apply H; now right).
  lia.
Qed.

Lemma list_sum_eq {A : Type} (f g : A -> nat) l :
  (forall x, In x l -> f x = g x) ->
  list_sum (map f l) = list_sum (map g l).
Proof. intros H. f_equal. now apply map_ext_in. Qed.

(** The predicted and the true label vectors of a well-formed test batch
    have one entry per label, and there are as many of the ones as of the
    others. *)
Lemma test_batch_widths aminer vs b :
  declared_shapes aminer vs -> test_batch_ok aminer vs b ->
  width (tag_total aminer) (predicted vs b) /\
  width (tag_total aminer) (labels_of b) /\
  length (labels_of b) = length (predicted vs b).
Proof.
  destruct b as [[h t] r]. intros D (_ & _ & Lt & [Lr Wr] & _).
  split; [|split].
  - now apply predictions_width.
  - exact Wr.
  - cbn [labels_of]. rewrite predicted_length; congruence.
Qed.

Lemma evaluation_hits_le aminer vs k n call :
  declared_shapes aminer vs -> batches_ok aminer vs n call ->
  (evaluation_hits aminer vs k n call <= evaluation_true_labels aminer n call)%nat.
Proof.
  intros D B. apply list_sum_le. intros i Hi. apply in_seq in Hi.
  destruct (test_batch_widths aminer vs (test_batch aminer i) D (B i Hi))
    as (W & W' & _).
  now apply (batch_true_in_top_k_le (tag_total aminer)).
Qed.

Lemma evaluation_hits_monotone aminer vs k k' n call :
  (k <= k')%nat ->
  (evaluation_hits aminer vs k n call <= evaluation_hits aminer vs k' n call)%nat.
Proof.
  intros K. apply list_sum_le. intros i _.
  now apply batch_true_in_top_k_monotone.
Qed.

Lemma evaluation_hits_all aminer vs k n call :
  declared_shapes aminer vs -> batches_ok aminer vs n call ->
  (tag_total aminer <= k)%nat ->
  evaluation_hits aminer vs k n call = evaluation_true_labels aminer n call.
Proof.
  intros D B K. apply list_sum_eq. intros i Hi. apply in_seq in Hi.
  destruct (test_batch_widths aminer vs (test_batch aminer i) D (B i Hi))
    as (W & W' & L).
  now apply (batch_true_in_top_k_all (tag_total aminer)).
Qed.

Lemma fraction_le (a b t : nat) :
  (a <= b)%nat -> t <> 0%nat -> INR a / INR t <= INR b / INR t.
Proof.
  intros H T. apply le_INR in H.
  assert (0 < INR t) by (apply lt_0_INR; lia).
  apply Rmult_le_compat_r; [|assumption].
  left. now apply Rinv_0_lt_compat.
Qed.

(** X6: over well-formed test batches with at least one true label, the
    three values that the evaluation reports are fractions between 0 and 1,
    and the one for 1 is at most the one for 5, which is at most the one
    for 10. *)
Theorem reported_hits_are_ordered_fractions aminer vs rnd call :
  declared_shapes aminer vs ->
  batches_ok aminer vs (test_total_batch aminer) call ->
  evaluation_true_labels aminer (test_total_batch aminer) call <> 0%nat ->
  exists r1 r5 r10,
    evaluate aminer vs rnd call = Ok [Value r1; Value r5; Value r10] /\
    0 <= r1 /\ r1 <= r5 /\ r5 <= r10 /\ r10 <= 1.
Proof.
  intros D B T.
  rewrite (evaluate_counts aminer vs rnd call D B T). cbn [hits_k map].
  do 3 eexists. split; [reflexivity|].
  set (n := test_total_batch aminer) in *.
  set (t := evaluation_true_labels aminer n call) in *.
  assert (Pt : 0 < INR t) by (apply lt_0_INR; lia).
  split; [|split; [|split]].
  - apply Rmult_le_pos; [apply pos_INR|]. left. now apply Rinv_0_lt_compat.
  - apply fraction_le; [|assumption]. apply evaluation_hits_monotone. lia.
  - apply fraction_le; [|assumption]. apply evaluation_hits_monotone. lia.
  - replace 1 with (INR t / INR t) by (field; lra).
    apply fraction_le; [|assumption]. now apply evaluation_hits_le.
Qed.

Lemma reported_hits_are_ordered_fractions_witness :
  exists r1 r5 r10,
    evaluate (ten_labels 2000 first_label) ten_labels_model
      (fun _ => keep_all) 0 = Ok [Value r1; Value r5; Value r10] /\
    0 <= r1 /\ r1 <= r5 /\ r5 <= r10 /\ r10 <= 1.
Proof.
  apply (reported_hits_are_ordered_fractions (ten_labels 2000 first_label)
           ten_labels_model (fun _ => keep_all) 0%nat).
  - apply one_vertex_shapes. reflexivity.
  - apply ten_labels_batches_ok; [apply first_label_multi_hot | reflexivity].
  - rewrite ten_labels_one_batch, first_label_counted. discriminate.
Defined.

(** X7: when the dataset has exactly ten labels, the top 10 predicted
    labels are all the labels, and the value reported for 10 is 1. *)
Theorem ten_labels_give_hits_10_of_1 aminer vs rnd call :
  tag_total aminer = 10%nat ->
  declared_shapes aminer vs ->
  batches_ok aminer vs (test_total_batch aminer) call ->
  evaluation_true_labels aminer (test_total_batch aminer) call <> 0%nat ->
  exists r1 r5,
    evaluate aminer vs rnd call = Ok [Value r1; Value r5; Value 1].
Proof.
  intros E D B T.
  rewrite (evaluate_counts aminer vs rnd call D B T). cbn [hits_k map].
  rewrite (evaluation_hits_all aminer vs 10) by (assumption || lia).
  set (t := evaluation_true_labels aminer (test_total_batch aminer) call) in *.
  replace (INR t / INR t) with 1 by (field; now apply not_0_INR).
  now do 2 eexists.
Qed.

Lemma ten_labels_give_hits_10_of_1_witness :
  exists r1 r5,
    evaluate (ten_labels 2000 first_label) ten_labels_model
      (fun _ => keep_all) 0 = Ok [Value r1; Value r5; Value 1].
Proof.
  apply (ten_labels_give_hits_10_of_1 (ten_labels 2000 first_label)
           ten_labels_model (fun _ => keep_all) 0%nat).
  - reflexivity.
  - apply one_vertex_shapes. reflexivity.
  - apply ten_labels_batches_ok; [apply first_label_multi_hot | reflexivity].
  - rewrite ten_labels_one_batch, first_label_counted. discriminate.
Defined.

(** ** The 0,1 vectors of the top labels *)

Lemma indicator_sum_absent j l :
  ~ In j l -> sum (map (fun i => if (j =? i)%nat then 1 else 0) l) = 0.
Proof.
  induction l as [|x l IH]; intros H; [reflexivity|].
  cbn [map]. rewrite sum_cons, IH by (intros I; apply H; now right).
  destruct (Nat.eqb_spec j x) as [->|_]; [|lra].
  exfalso. apply H. now left.
Qed.

Lemma indicator_sum_NoDup j l :
  NoDup l ->
  sum (map (fun i => if (j =? i)%nat then 1 else 0) l) = 0 \/
  sum (map (fun i => if (j =? i)%nat then 1 else 0) l) = 1.
Proof.
  induction 1 as [|x l Hx _ IH]; [now left|].
  cbn [map]. rewrite sum_cons.
  destruct (Nat.eqb_spec j x) as [->|_].
  - right. rewrite indicator_sum_absent by assumption. lra.
  - destruct IH as [-> | ->]; [left | right]; lra.
Qed.

Lemma sum_times_ones l : sum (map2 Rmult l (repeat 1 (length l))) = sum l.
Proof.
  induction l as [|x l IH]; [reflexivity|].
  cbn [length repeat map2]. rewrite !sum_cons, IH. lra.
Qed.

Lemma nth_ones i n : (i < n)%nat -> nth i (repeat 1 n) 0 = 1.
Proof.
  revert i; induction n as [|n IH]; intros [|i] H; cbn [repeat nth];
    try lia; [reflexivity | apply IH; lia].
Qed.

Lemma label_sum_ones positions n :
  Forall (fun i => (i < n)%nat) positions ->
  label_sum positions (repeat 1 n) = INR (length positions).
Proof.
  unfold label_sum. induction 1 as [|i l Hi _ IH]; [reflexivity|].
  cbn [map]. rewrite sum_cons, IH, nth_ones by assumption.
  change (length (i :: l)) with (S (length l)). rewrite S_INR. lra.
Qed.

(** The row of [pred] for positions that are distinct labels: one entry
    per label, each 0 or 1, as many ones as positions. *)
Lemma marked_row depth positions :
  NoDup positions -> Forall (fun i => (i < depth)%nat) positions ->
  let row := column_sums depth (map (one_hot_vec depth) positions) in
  length row = depth /\ Forall (fun x => x = 0 \/ x = 1) row /\
  sum row = INR (length positions).
Proof.
  intros N B row. subst row. rewrite column_sums_one_hot.
  split; [|split].
  - now rewrite length_map, length_seq.
  - apply Forall_map, Forall_forall. intros j _.
    now apply indicator_sum_NoDup.
  - set (row := map _ (seq 0 depth)).
    assert (L : length row = depth)
      by (unfold row; now rewrite length_map, length_seq).
    rewrite <- (sum_times_ones row), L.
    rewrite <- (label_sum_ones positions depth B).
    unfold row. rewrite <- (repeat_length 1 depth) at 1.
    apply selected_labels. now rewrite repeat_length.
Qed.

(** X8: on a well-formed test batch and for [k] up to the number of
    labels, [pred] is a matrix of 0,1 vectors, one per edge and of one entry
    per label, each holding exactly [k] ones; the tensor appended to [hits]
    is the sum of its product with the true labels. *)
Theorem pred_marks_k_labels aminer vs rnd h t r k :
  declared_shapes aminer vs ->
  test_batch_ok aminer vs (h, t, r) ->
  (k <= tag_total aminer)%nat ->
  hits_at aminer k = tf.reduce_sum (tf.multiply (pred aminer k) pos_r) /\
  exists m,
    eval (pred aminer k) vs (test_feed h t r) rnd = Some m /\
    length m = length h /\
    Forall (fun row =>
              length row = tag_total aminer /\
              Forall (fun x => x = 0 \/ x = 1) row /\
              sum row = INR k) m.
Proof.
  intros D B K. split; [reflexivity|].
  pose proof (eval_pos_r_minus_dec aminer vs h t r rnd D B) as E.
  destruct (test_batch_widths aminer vs (h, t, r) D B) as (W & _ & _).
  destruct B as (_ & _ & Lt & _).
  unfold pred. cbn [eval]. rewrite E. cbn [bind].
  rewrite top_k_rows
    by (eapply Forall_impl; [|exact W]; cbn beta; intros p ->; exact K).
  cbn [bind]. eexists. split; [reflexivity|].
  unfold reduce_axis1, Kernel.one_hot. cbn [fst snd]. split.
  - now rewrite !length_map, predicted_length.
  - rewrite !Forall_map. eapply Forall_impl; [|exact W].
    cbn beta. intros p Lp.
    destruct (marked_row (tag_total aminer) (firstn k (ranking p)))
      as (L & Z & S).
    + apply ranking_NoDup.
    + apply Forall_forall. intros i Hi. apply in_firstn in Hi.
      apply ranking_bound in Hi. lia.
    + split; [exact L|]. split; [exact Z|].
      rewrite S, length_firstn, ranking_length. f_equal. lia.
Qed.

Lemma pred_marks_k_labels_witness :
  hits_at (ten_labels 2000 first_label) 5 =
  tf.reduce_sum (tf.multiply (pred (ten_labels 2000 first_label) 5) pos_r) /\
  exists m,
    eval (pred (ten_labels 2000 first_label) 5) ten_labels_model
      (test_feed [0%Z] [0%Z] [first_label]) keep_all = Some m /\
    length m = 1%nat /\
    Forall (fun row =>
              length row = 10%nat /\
              Forall (fun x => x = 0 \/ x = 1) row /\
              sum row = INR 5) m.
Proof.
  apply (pred_marks_k_labels (ten_labels 2000 first_label) ten_labels_model
           keep_all [0%Z] [0%Z] [first_label] 5).
  - apply one_vertex_shapes. reflexivity.
  - apply ten_labels_batch_ok; [apply first_label_multi_hot | reflexivity].
  - cbn [ten_labels tag_total]. lia.
Defined.

(** ** The last cell as a whole *)

(** The joint train operation has every trainable variable in its list. *)
Lemma optimizer_var_list : var_list optimizer = trainable_variables.
Proof. reflexivity. Qed.

Lemma edge_batch_edges aminer vs e :
  declared_shapes aminer vs -> edge_batch_ok aminer e -> edges_ok aminer vs e.
Proof.
  intros (_ & E & _). destruct e as [[[h t] r] b]. intros (Hh & Ht & R).
  unfold edges_ok, in_table.
  rewrite (proj1 (E int_embeddings)), (proj1 (E adv_embeddings)).
  now split; [|split].
Qed.

Lemma test_batches_batches aminer vs n call :
  declared_shapes aminer vs -> test_batches_ok aminer ->
  batches_ok aminer vs n call.
Proof.
  intros (_ & E & _) T i _. specialize (T i).
  destruct (test_batch aminer i) as [[h t] r].
  destruct T as (Hh & Ht & R).
  unfold test_batch_ok, in_table.
  rewrite (proj1 (E int_embeddings)), (proj1 (E adv_embeddings)).
  now split; [|split].
Qed.

(** Without a test batch the quotients are taken on the Python numbers 0
    and 0.0. *)
Lemma evaluate_no_batches aminer vs rnd call :
  test_total_batch aminer = 0%nat ->
  evaluate aminer vs rnd call = Raised ZeroDivisionError.
Proof.
  intros E. unfold evaluate. rewrite E.
  cbn [evaluation_batches Nat.eqb hits_k length repeat quotients].
  unfold py_divide. destruct (Req_dec_T 0.0 0) as [_|N]; [reflexivity|].
  exfalso. apply N. lra.
Qed.

Lemma no_test_batch aminer :
  (test_num_examples aminer < eval_batch_size)%nat ->
  test_total_batch aminer = 0%nat.
Proof. intros H. unfold test_total_batch. now apply Nat.div_small. Qed.

(** With a test batch the evaluation of well-formed batches reports three
    values, numbers or [nan]. *)
Lemma evaluate_runs aminer vs rnd call :
  declared_shapes aminer vs -> test_batches_ok aminer ->
  test_total_batch aminer <> 0%nat ->
  exists q1 q5 q10, evaluate aminer vs rnd call = Ok [q1; q5; q10].
Proof.
  intros D T N. unfold evaluate. cbn [hits_k length repeat].
  rewrite (evaluation_batches_counts aminer vs rnd (test_total_batch aminer) D)
    by now apply test_batches_batches.
  apply Nat.eqb_neq in N. rewrite N. cbn [quotients].
  now do 3 eexists.
Qed.

Section LastCell.

Variable slots : Type.
Variable adam :
  R -> tf.tensor KScalar -> variables -> slots -> feed_dict -> draws ->
  variables * slots.
Variable aminer : dataset.
Variable random : nat -> draws.

(** *** With fewer test examples than a test batch holds *)

Lemma train_stops n epoch (st : progress slots) :
  test_total_batch aminer = 0%nat ->
  (epoch mod display_step = 0)%nat ->
  exists e, train adam aminer random (S n) epoch st = Raised e.
Proof.
  intros T M. cbn [train].
  destruct (train_epoch adam aminer random (total_batch aminer) st 0.0)
    as [[st1 sum_loss]|e]; [|now exists e].
  rewrite M. cbn [Nat.eqb].
  rewrite evaluate_no_batches by assumption. now eexists.
Qed.

Lemma main_stops (s : session slots) :
  test_total_batch aminer = 0%nat ->
  exists e, main adam aminer random s = Raised e.
Proof.
  intros T. unfold main.
  destruct (warm_up adam aminer random warm_up_epochs 0 (start s))
    as [st|e]; [|now exists e].
  now apply train_stops.
Qed.

(** *** On well-formed batches *)

Hypothesis adam_keeps_shapes : keeps_shapes adam aminer.
Hypothesis warm_up_provider_ok : autoencoder_batches_ok aminer.
Hypothesis train_provider_ok : train_batches_ok aminer.

(** A joint step on a well-formed batch does not fail. *)
Lemma train_step_runs (s : session slots) i rnd :
  declared_shapes aminer (vars s) ->
  let '((ph, pt, pr, pb), (nh, nt, nr, nb)) :=
    next_batch aminer i batch_size beta in
  exists cur_loss,
    run_step adam optimizer loss s (train_feed ph pt pr pb nh nt nr nb) rnd =
    Some (apply_gradients adam optimizer s
            (train_feed ph pt pr pb nh nt nr nb) rnd, cur_loss).
Proof.
  intros D. pose proof (train_provider_ok i) as (P & N & L).
  destruct (next_batch aminer i batch_size beta)
    as [[[[ph pt] pr] pb] [[[nh nt] nr] nb]].
  cbn [fst snd] in P, N, L.
  unfold run_step. cbn [objective optimizer minimize].
  rewrite (loss_value aminer)
    by (try apply edge_batch_edges; assumption).
  cbn [bind]. eexists. reflexivity.
Qed.

Lemma warm_up_epoch_advances n :
  forall (st : progress slots) sum_loss,
    declared_shapes aminer (vars (sess st)) ->
    exists st' total,
      warm_up_epoch adam aminer random n st sum_loss = Ok (st', total) /\
      declared_shapes aminer (vars (sess st')) /\
      advanced st st' n 0 0 n 0.
Proof.
  induction n as [|n IH]; intros st sum_loss D.
  - exists st, sum_loss. split; [reflexivity|]. split; [exact D|].
    unfold advanced. repeat split; lia.
  - cbn [warm_up_epoch].
    pose proof (warm_up_provider_ok (autoencoder_batches st)) as B.
    destruct (next_autoencoder_batch aminer (autoencoder_batches st) batch_size beta)
      as [vecs bs].
    destruct (warm_up_step_runs slots adam aminer (sess st) vecs bs
                (random (runs st)) D B) as [l ->].
    match goal with
    | |- context [warm_up_epoch _ _ _ n ?st1 ?l1] =>
        destruct (IH st1 l1) as (st' & total & E & D' & A);
          [cbn [sess]; now apply apply_gradients_shapes|]
    end.
    exists st', total. split; [exact E|]. split; [exact D'|].
    unfold advanced in *.
    cbn [autoencoder_batches train_batches test_batches runs printed] in A.
    repeat split; lia.
Qed.

Lemma warm_up_advances n :
  forall epoch (st : progress slots),
    declared_shapes aminer (vars (sess st)) ->
    exists st',
      warm_up adam aminer random n epoch st = Ok st' /\
      declared_shapes aminer (vars (sess st')) /\
      advanced st st' (n * total_batch aminer) 0 0 (n * total_batch aminer) n.
Proof.
  induction n as [|n IH]; intros epoch st D.
  - exists st. split; [reflexivity|]. split; [exact D|].
    unfold advanced. repeat split; lia.
  - cbn [warm_up].
    destruct (warm_up_epoch_advances (total_batch aminer) st 0.0 D)
      as (st1 & total & -> & D1 & A1).
    destruct (IH (S epoch) (print (Warm_up_relation_epoch epoch total) st1))
      as (st' & E & D' & A); [exact D1|].
    exists st'. split; [exact E|]. split; [exact D'|].
    unfold advanced in *.
    cbn [print autoencoder_batches train_batches test_batches runs printed] in A.
    rewrite length_app in A. cbn [length] in A.
    rewrite Nat.mul_succ_l. repeat split; lia.
Qed.

Lemma train_epoch_advances n :
  forall (st : progress slots) sum_loss,
    declared_shapes aminer (vars (sess st)) ->
    exists st' total,
      train_epoch adam aminer random n st sum_loss = Ok (st', total) /\
      declared_shapes aminer (vars (sess st')) /\
      advanced st st' 0 n 0 n 0.
Proof.
  induction n as [|n IH]; intros st sum_loss D.
  - exists st, sum_loss. split; [reflexivity|]. split; [exact D|].
    unfold advanced. repeat split; lia.
  - cbn [train_epoch].
    pose proof (train_step_runs (sess st) (train_batches st) (random (runs st)) D)
      as S.
    destruct (next_batch aminer (train_batches st) batch_size beta)
      as [[[[ph pt] pr] pb] [[[nh nt] nr] nb]].
    destruct S as [l ->].
    match goal with
    | |- context [train_epoch _ _ _ n ?st1 ?l1] =>
        destruct (IH st1 l1) as (st' & total & E & D' & A);
          [cbn [sess]; now apply apply_gradients_shapes|]
    end.
    exists st', total. split; [exact E|]. split; [exact D'|].
    unfold advanced in *.
    cbn [autoencoder_batches train_batches test_batches runs printed] in A.
    repeat split; lia.
Qed.

Lemma train_reaches_first_evaluation n epoch (st : progress slots) :
  test_total_batch aminer = 0%nat ->
  (epoch mod display_step = 0)%nat ->
  declared_shapes aminer (vars (sess st)) ->
  train adam aminer random (S n) epoch st = Raised ZeroDivisionError.
Proof.
  intros T M D. cbn [train].
  destruct (train_epoch_advances (total_batch aminer) st 0.0 D)
    as (st1 & total & -> & _).
  rewrite M. cbn [Nat.eqb].
  now rewrite evaluate_no_batches.
Qed.

Hypothesis test_provider_ok : test_batches_ok aminer.
Hypothesis test_batch_there : test_total_batch aminer <> 0%nat.

Lemma evaluations_step n epoch :
  evaluations (S n) epoch =
  ((if (epoch mod display_step =? 0)%nat then 1 else 0)
   + evaluations n (S epoch))%nat.
Proof.
  unfold evaluations. cbn [seq filter].
  now destruct (epoch mod display_step =? 0)%nat.
Qed.

Lemma train_advances n :
  forall epoch (st : progress slots),
    declared_shapes aminer (vars (sess st)) ->
    exists st',
      train adam aminer random n epoch st = Ok st' /\
      declared_shapes aminer (vars (sess st')) /\
      advanced st st' 0 (n * total_batch aminer)
        (evaluations n epoch * test_total_batch aminer)
        (n * total_batch aminer)
        (n + 4 * evaluations n epoch).
Proof.
  induction n as [|n IH]; intros epoch st D.
  - exists st. split; [reflexivity|]. split; [exact D|].
    unfold advanced. cbn [evaluations seq filter length]. repeat split; lia.
  - cbn [train].
    destruct (train_epoch_advances (total_batch aminer) st 0.0 D)
      as (st1 & total & -> & D1 & A1).
    rewrite evaluations_step.
    destruct (epoch mod display_step =? 0)%nat.
    + destruct (evaluate_runs aminer
                  (vars (sess (print (Train_TransNet_epoch epoch total) st1)))
                  (fun _ => random (runs (print (Train_TransNet_epoch epoch total) st1)))
                  (test_batches (print (Train_TransNet_epoch epoch total) st1))
                  D1 test_provider_ok test_batch_there)
        as (q1 & q5 & q10 & ->).
      match goal with
      | |- context [train _ _ _ n (S epoch) ?st3] =>
          destruct (IH (S epoch) st3) as (st' & E & D' & A); [exact D1|]
      end.
      exists st'. split; [exact E|]. split; [exact D'|].
      unfold advanced in *.
      cbn [print_hits hits_k print autoencoder_batches train_batches
           test_batches runs printed] in A.
      rewrite !length_app in A. cbn [length] in A.
      rewrite Nat.mul_succ_l, Nat.mul_add_distr_r, Nat.mul_1_l.
      repeat split; lia.
    + destruct (IH (S epoch) (print (Train_TransNet_epoch epoch total) st1))
        as (st' & E & D' & A); [exact D1|].
      exists st'. split; [exact E|]. split; [exact D'|].
      unfold advanced in *.
      cbn [print autoencoder_batches train_batches test_batches runs printed] in A.
      rewrite length_app in A. cbn [length] in A.
      rewrite Nat.mul_succ_l. repeat split; lia.
Qed.

End LastCell.

(** *** With fewer training examples than a batch holds *)

Section NoTrainingBatch.

Variable slots : Type.
Variable adam :
  R -> tf.tensor KScalar -> variables -> slots -> feed_dict -> draws ->
  variables * slots.
Variable aminer : dataset.
Variable random : nat -> draws.

Hypothesis no_batch : total_batch aminer = 0%nat.

Lemma warm_up_idle n :
  forall epoch (st : progress slots),
    exists st',
      warm_up adam aminer random n epoch st = Ok st' /\
      sess st' = sess st /\ runs st' = runs st /\
      (Forall zero_loss_line (printed st) -> Forall zero_loss_line (printed st')).
Proof.
  induction n as [|n IH]; intros epoch st.
  - exists st. now repeat split.
  - cbn [warm_up]. rewrite no_batch. cbn [warm_up_epoch].
    destruct (IH (S epoch) (print (Warm_up_relation_epoch epoch 0.0) st))
      as (st' & E & S & N & P).
    exists st'. split; [exact E|]. split; [exact S|]. split; [exact N|].
    intros Z. apply P. cbn [print printed].
    apply Forall_app. split; [exact Z|].
    constructor; [cbn [zero_loss_line]; lra | constructor].
Qed.

Hypothesis test_provider_ok : test_batches_ok aminer.
Hypothesis test_batch_there : test_total_batch aminer <> 0%nat.

Lemma train_idle n :
  forall epoch (st : progress slots),
    declared_shapes aminer (vars (sess st)) ->
    exists st',
      train adam aminer random n epoch st = Ok st' /\
      sess st' = sess st /\ runs st' = runs st /\
      (Forall zero_loss_line (printed st) -> Forall zero_loss_line (printed st')).
Proof.
  induction n as [|n IH]; intros epoch st D.
  - exists st. now repeat split.
  - cbn [train]. rewrite no_batch. cbn [train_epoch].
    destruct (epoch mod display_step =? 0)%nat.
    + destruct (evaluate_runs aminer
                  (vars (sess (print (Train_TransNet_epoch epoch 0.0) st)))
                  (fun _ => random (runs (print (Train_TransNet_epoch epoch 0.0) st)))
                  (test_batches (print (Train_TransNet_epoch epoch 0.0) st))
                  D test_provider_ok test_batch_there)
        as (q1 & q5 & q10 & ->).
      match goal with
      | |- context [train _ _ _ n (S epoch) ?st3] =>
          destruct (IH (S epoch) st3) as (st' & E & S & N & P); [exact D|]
      end.
      exists st'. split; [exact E|]. split; [exact S|]. split; [exact N|].
      intros Z. apply P.
      cbn [print_hits hits_k print printed].
      repeat (apply Forall_app; split);
        try (constructor; [cbn [zero_loss_line]; (lra || exact I) | constructor]).
      exact Z.
    + destruct (IH (S epoch) (print (Train_TransNet_epoch epoch 0.0) st))
        as (st' & E & S & N & P); [exact D|].
      exists st'. split; [exact E|]. split; [exact S|]. split; [exact N|].
      intros Z. apply P. cbn [print printed].
      apply Forall_app. split; [exact Z|].
      constructor; [cbn [zero_loss_line]; lra | constructor].
Qed.

End NoTrainingBatch.

Lemma test_batch_exists aminer :
  (eval_batch_size <= test_num_examples aminer)%nat ->
  test_total_batch aminer <> 0%nat.
Proof.
  intros H E. unfold test_total_batch in E.
  apply Nat.div_small_iff in E; [lia | discriminate].
Qed.

(** X9: the train operation of the joint phase writes every trainable
    variable, both embedding tables among them: after a joint step every
    variable holds the value that the update rule computes for it. *)
Theorem joint_step_writes_every_variable :
  var_list optimizer = trainable_variables /\
  forall slots adam (s : session slots) fd rnd,
    let stepped :=
      fst (adam learning_rate loss (vars s) (accumulators s) fd rnd) in
    (forall key,
       embeddings (vars (apply_gradients adam optimizer s fd rnd)) key =
       embeddings stepped key) /\
    (forall key,
       weights (vars (apply_gradients adam optimizer s fd rnd)) key =
       weights stepped key) /\
    (forall key,
       biases (vars (apply_gradients adam optimizer s fd rnd)) key =
       biases stepped key).
Proof.
  split; [reflexivity|].
  intros slots adam s fd rnd stepped. subst stepped.
  unfold apply_gradients. cbn [rate objective optimizer minimize].
  destruct (adam _ _ _ _ _ _) as [stepped acc].
  cbn [fst vars embeddings weights biases].
  repeat split; intros key; now destruct key.
Qed.

(** X10: with fewer test examples than [eval_batch_size] the last cell
    never comes to its end: whatever else it is given it stops with an
    exception, and on well-formed batches it goes through the whole warm-up
    and the first epoch of the joint training and stops in the evaluation
    that follows, with [ZeroDivisionError]. *)
Theorem few_test_examples_stop_the_program
  slots adam aminer random (s : session slots) :
  (test_num_examples aminer < eval_batch_size)%nat ->
  (exists e, main adam aminer random s = Raised e) /\
  (keeps_shapes adam aminer ->
   autoencoder_batches_ok aminer ->
   train_batches_ok aminer ->
   declared_shapes aminer (vars s) ->
   exists st,
     warm_up adam aminer random warm_up_epochs 0 (start s) = Ok st /\
     main adam aminer random s = Raised ZeroDivisionError).
Proof.
  intros H. apply no_test_batch in H. split.
  - now apply main_stops.
  - intros K A T D. unfold main.
    destruct (warm_up_advances slots adam aminer random K A warm_up_epochs
                0%nat (start s) D) as (st & E & D' & _).
    exists st. split; [exact E|]. rewrite E.
    now apply train_reaches_first_evaluation.
Qed.

(** X11: on well-formed batches, with at least [eval_batch_size] test
    examples and an update rule that keeps the shapes, the last cell runs to
    its end.  By then it has called the warm-up provider 20 times
    [total_batch], the training provider 66 times [total_batch] and the
    test provider 14 times [test_total_batch], one evaluation for every
    fifth epoch; it has made 86 times [total_batch] optimizer steps, and its
    loops have printed 142 lines, one for every epoch and four for every
    evaluation. *)
Theorem the_program_runs_to_its_end
  slots adam aminer random (s : session slots) :
  keeps_shapes adam aminer ->
  autoencoder_batches_ok aminer ->
  train_batches_ok aminer ->
  test_batches_ok aminer ->
  (eval_batch_size <= test_num_examples aminer)%nat ->
  declared_shapes aminer (vars s) ->
  exists st,
    main adam aminer random s = Ok st /\
    declared_shapes aminer (vars (sess st)) /\
    autoencoder_batches st = (20 * total_batch aminer)%nat /\
    train_batches st = (66 * total_batch aminer)%nat /\
    test_batches st = (14 * test_total_batch aminer)%nat /\
    runs st = (86 * total_batch aminer)%nat /\
    length (printed st) = 142%nat.
Proof.
  intros K A T E N D. apply test_batch_exists in N. unfold main.
  destruct (warm_up_advances slots adam aminer random K A warm_up_epochs
              0%nat (start s) D) as (st0 & -> & D0 & A0).
  destruct (train_advances slots adam aminer random K T E N epochs 0%nat st0 D0)
    as (st & -> & D1 & A1).
  exists st. split; [reflexivity|]. split; [exact D1|].
  unfold advanced in A0, A1.
  cbn [start autoencoder_batches train_batches test_batches runs printed length]
    in A0.
  change (evaluations epochs 0) with 14%nat in A1.
  unfold warm_up_epochs in A0. unfold epochs in A1.
  repeat split; lia.
Qed.

(** X12: with fewer training examples than [batch_size] no optimizer step
    is run: on well-formed test batches the last cell still runs to its
    end, every epoch reports the loss 0, and the session is the one the
    cell started from. *)
Theorem few_train_examples_train_nothing
  slots adam aminer random (s : session slots) :
  (train_num_examples aminer < batch_size)%nat ->
  test_batches_ok aminer ->
  (eval_batch_size <= test_num_examples aminer)%nat ->
  declared_shapes aminer (vars s) ->
  exists st,
    main adam aminer random s = Ok st /\
    sess st = s /\ runs st = 0%nat /\
    Forall zero_loss_line (printed st).
Proof.
  intros H E N D. apply test_batch_exists in N.
  assert (B : total_batch aminer = 0%nat)
    by (unfold total_batch; now apply Nat.div_small).
  unfold main.
  destruct (warm_up_idle slots adam aminer random B warm_up_epochs 0%nat (start s))
    as (st0 & -> & S0 & R0 & P0).
  destruct (train_idle slots adam aminer random B E N epochs 0%nat st0)
    as (st & -> & S1 & R1 & P1); [rewrite S0; exact D|].
  exists st. split; [reflexivity|].
  split; [rewrite S1, S0; reflexivity|].
  split; [rewrite R1, R0; reflexivity|].
  apply P1, P0. constructor.
Qed.

(** *** The last cell on the dataset of one vertex and ten labels *)

Lemma no_update_keeps_shapes aminer : keeps_shapes no_update aminer.
Proof. intros rate loss vs acc fd rnd D. exact D. Qed.

Lemma ten_labels_warm_up_batches n l : autoencoder_batches_ok (ten_labels n l).
Proof.
  intros i. split; [|apply one_label_vector_ok; reflexivity].
  now repeat constructor.
Qed.

Lemma ten_labels_train_batches n l : train_batches_ok (ten_labels n l).
Proof.
  intros i. cbn [ten_labels next_batch fst snd].
  unfold edge_batch_ok, ids_ok, labels_ok, width.
  cbn [ten_labels entity_total tag_total length].
  repeat split; repeat constructor; lia.
Qed.

Lemma ten_labels_test_batches n l :
  multi_hot [l] -> length l = 10%nat -> test_batches_ok (ten_labels n l).
Proof.
  intros M L i. cbn [test_batch ten_labels next_test_batch].
  unfold ids_ok, labels_ok, width.
  cbn [ten_labels entity_total tag_total length].
  repeat split; try exact M; repeat constructor; (lia || assumption).
Qed.

Lemma few_test_examples_stop_the_program_witness :
  (exists e,
     main no_update (ten_labels 1999 first_label) (fun _ => keep_all)
       {| vars := ten_labels_model; accumulators := tt |} = Raised e) /\
  exists st,
    warm_up no_update (ten_labels 1999 first_label) (fun _ => keep_all)
      warm_up_epochs 0
      (start {| vars := ten_labels_model; accumulators := tt |}) = Ok st /\
    main no_update (ten_labels 1999 first_label) (fun _ => keep_all)
      {| vars := ten_labels_model; accumulators := tt |} =
    Raised ZeroDivisionError.
Proof.
  assert (H : (test_num_examples (ten_labels 1999 first_label)
               < eval_batch_size)%nat)
    by (cbn [ten_labels test_num_examples]; unfold eval_batch_size; lia).
  destruct (few_test_examples_stop_the_program unit no_update
              (ten_labels 1999 first_label) (fun _ => keep_all)
              {| vars := ten_labels_model; accumulators := tt |} H)
    as [S Z].
  split; [exact S|]. apply Z.
  - apply no_update_keeps_shapes.
  - apply ten_labels_warm_up_batches.
  - apply ten_labels_train_batches.
  - apply one_vertex_shapes. reflexivity.
Defined.

Lemma the_program_runs_to_its_end_witness :
  exists st,
    main no_update (ten_labels 2000 first_label) (fun _ => keep_all)
      {| vars := ten_labels_model; accumulators := tt |} = Ok st /\
    declared_shapes (ten_labels 2000 first_label) (vars (sess st)) /\
    autoencoder_batches st = 20%nat /\
    train_batches st = 66%nat /\
    test_batches st = 14%nat /\
    runs st = 86%nat /\
    length (printed st) = 142%nat.
Proof.
  apply (the_program_runs_to_its_end unit no_update
           (ten_labels 2000 first_label) (fun _ => keep_all)
           {| vars := ten_labels_model; accumulators := tt |}).
  - apply no_update_keeps_shapes.
  - apply ten_labels_warm_up_batches.
  - apply ten_labels_train_batches.
  - apply ten_labels_test_batches; [apply first_label_multi_hot | reflexivity].
  - cbn [ten_labels test_num_examples]. unfold eval_batch_size. lia.
  - apply one_vertex_shapes. reflexivity.
Defined.

Lemma few_train_examples_train_nothing_witness :
  exists st,
    main no_update (with_train_examples 99 (ten_labels 2000 first_label))
      (fun _ => keep_all)
      {| vars := ten_labels_model; accumulators := tt |} = Ok st /\
    sess st = {| vars := ten_labels_model; accumulators := tt |} /\
    runs st = 0%nat /\
    Forall zero_loss_line (printed st).
Proof.
  apply (few_train_examples_train_nothing unit no_update
           (with_train_examples 99 (ten_labels 2000 first_label))
           (fun _ => keep_all)
           {| vars := ten_labels_model; accumulators := tt |}).
  - cbn [with_train_examples train_num_examples]. unfold batch_size. lia.
  - apply (ten_labels_test_batches 2000 first_label);
      [apply first_label_multi_hot | reflexivity].
  - cbn [with_train_examples ten_labels test_num_examples].
    unfold eval_batch_size. lia.
  - apply (one_vertex_shapes 2000 first_label). reflexivity.
Defined.

(** ** Placeholders left out of the feed *)

Lemma unfed_input {k : kind} (t : tf.tensor k) i vs fd rnd :
  In i (inputs_of t) -> unfed fd i -> eval t vs fd rnd = None.
Proof.
  intros H U.
  induction t; cbn [inputs_of] in H; cbn [eval];
    try contradiction;
    try (destruct H as [<-|[]]; exact U);
    try (rewrite (IHt H); reflexivity);
    try (apply in_app_or in H as [H|H];
         [ rewrite (IHt1 H); reflexivity
         | rewrite (IHt2 H); now destruct (eval t1 vs fd rnd) ]).
Qed.

(** X13: a run that fetches a tensor computed from a placeholder that the
    feed leaves out fails.  So the feed of the evaluation, which holds the
    vertex ids and the labels of the positive edges only, serves for none
    of the losses, and the feed of the warm-up serves neither for the joint
    loss nor for the tensors of [hits]. *)
Theorem unfed_placeholder_fails_the_run :
  (forall k (t : tf.tensor k) i vs fd rnd,
     In i (inputs_of t) -> unfed fd i -> eval t vs fd rnd = None) /\
  (forall vs h t r rnd,
     eval loss vs (test_feed h t r) rnd = None /\
     eval trans_loss vs (test_feed h t r) rnd = None /\
     eval relation_pos_r_loss vs (test_feed h t r) rnd = None) /\
  (forall aminer k vs vecs bs rnd,
     eval loss vs (warm_up_feed vecs bs) rnd = None /\
     eval (hits_at aminer k) vs (warm_up_feed vecs bs) rnd = None).
Proof.
  split; [|split].
  - intros k t. apply unfed_input.
  - intros vs h t r rnd. split; [|split].
    + apply (unfed_input loss (FloatIn In_pos_br)); [|reflexivity].
      cbn. tauto.
    + apply (unfed_input trans_loss (FloatIn In_neg_r)); [|reflexivity].
      cbn. tauto.
    + apply (unfed_input relation_pos_r_loss (FloatIn In_pos_br)); [|reflexivity].
      cbn. tauto.
  - intros aminer k vs vecs bs rnd. split.
    + apply (unfed_input loss (IntIn In_pos_h)); [|reflexivity].
      cbn. tauto.
    + apply (unfed_input (hits_at aminer k) (IntIn In_pos_h)); [|reflexivity].
      cbn. tauto.
Qed.

Lemma unfed_placeholder_fails_the_run_witness :
  eval relation_loss vertex_3_4
    (test_feed [0%Z] [0%Z] [first_label]) keep_all = None.
Proof.
  apply (proj1 unfed_placeholder_fails_the_run KScalar relation_loss
           (FloatIn In_neg_br)).
  - cbn. tauto.
  - reflexivity.
Defined.

(** ** The empty batch *)

Lemma empty_edges aminer vs : edges_ok aminer vs ([], [], [], []).
Proof. unfold edges_ok, in_table, labels_ok, width. now repeat split. Qed.

Lemma empty_reconstruction aminer vs rnd node pr pb :
  declared_shapes aminer vs ->
  fed empty_feed pr = Some [] -> fed empty_feed pb = Some [] ->
  eval (tf.reduce_sum
          (tf.abs
             (tf.multiply
                (tf.subtract
                   (snd (autoencoder node relation_weights relation_biases
                           (tf.placeholder pr)))
                   (tf.placeholder pr))
                (tf.placeholder pb)))) vs empty_feed rnd = Some 0.
Proof.
  intros D Fr Fb.
  rewrite (eval_reconstruction_term aminer vs empty_feed rnd node pr pb [] []
             D Fr Fb).
  - reflexivity.
  - constructor.
  - split; [reflexivity | constructor].
Qed.

(** X15: on the empty batch nothing fails: the translation loss and the
    reconstruction loss are 0, the joint loss is the regularizer term alone,
    and the evaluation tensors count no label. *)
Theorem empty_batch_leaves_the_regularizer aminer vs rnd :
  declared_shapes aminer vs ->
  eval trans_loss vs empty_feed rnd = Some 0 /\
  eval relation_loss vs empty_feed rnd = Some 0 /\
  eval loss vs empty_feed rnd =
  Some (0.001 * (Spec.L_reg (weights vs encoder_w) (weights vs decoder_w)
                   (biases vs encoder_b) (biases vs decoder_b) / 2)) /\
  run_all (hits aminer) vs (test_feed [] [] []) rnd = Some [0; 0; 0] /\
  eval relation_sum vs (test_feed [] [] []) rnd = Some 0.
Proof.
  intros D.
  pose proof (empty_edges aminer vs) as E.
  split; [|split; [|split]].
  - unfold empty_feed. now rewrite (trans_loss_value aminer).
  - unfold relation_loss. rewrite eval_plus.
    unfold pos_r_dec, neg_r_dec, pos_r, neg_r, pos_br, neg_br.
    rewrite !(empty_reconstruction aminer) by (assumption || reflexivity).
    cbn [bind]. f_equal. lra.
  - unfold empty_feed.
    rewrite (loss_value aminer) by (assumption || reflexivity).
    f_equal. cbn [map Spec.hidden Kernel.dropout dropout_from].
    unfold Spec.L_trans, Spec.distances, Spec.L_ae_batch, embed, l2_normalize.
    cbn [map map2 combine sum fold_right]. lra.
  - assert (B : test_batch_ok aminer vs ([], [], [])).
    { unfold test_batch_ok, in_table, labels_ok, width, multi_hot.
      now repeat split. }
    destruct (run_test_batch aminer vs rnd [] [] [] D B) as [-> ->].
    split; reflexivity.
Qed.

Lemma empty_batch_leaves_the_regularizer_witness :
  eval trans_loss zero_vertex empty_feed keep_all = Some 0 /\
  eval relation_loss zero_vertex empty_feed keep_all = Some 0 /\
  eval loss zero_vertex empty_feed keep_all =
  Some (0.001 * (Spec.L_reg (weights zero_vertex encoder_w)
                   (weights zero_vertex decoder_w)
                   (biases zero_vertex encoder_b)
                   (biases zero_vertex decoder_b) / 2)) /\
  run_all (hits (ten_labels 2000 first_label)) zero_vertex
    (test_feed [] [] []) keep_all = Some [0; 0; 0] /\
  eval relation_sum zero_vertex (test_feed [] [] []) keep_all = Some 0.
Proof.
  apply (empty_batch_leaves_the_regularizer (ten_labels 2000 first_label)
           zero_vertex keep_all).
  apply one_vertex_shapes. reflexivity.
Defined.

(** ** At most [k] hits for an edge *)

Lemma true_in_top_k_le_k k s_hat s : (Spec.true_in_top_k k s_hat s <= k)%nat.
Proof.
  unfold Spec.true_in_top_k.
  etransitivity; [apply filter_length_le|].
  rewrite length_firstn. apply Nat.le_min_l.
Qed.

Lemma batch_true_in_top_k_le_k k s_hat s :
  (batch_true_in_top_k k s_hat s <= k * length s)%nat.
Proof.
  unfold batch_true_in_top_k.
  revert s; induction s_hat as [|p s_hat IH]; intros [|l s]; cbn [map2];
    try apply Nat.le_0_l.
  rewrite list_sum_cons. cbn [length].
  pose proof (IH s). pose proof (true_in_top_k_le_k k p l). nia.
Qed.

Lemma evaluation_hits_le_k aminer vs k n call :
  (evaluation_hits aminer vs k n call <= k * evaluation_edges aminer n call)%nat.
Proof.
  unfold evaluation_hits, evaluation_edges. generalize (seq call n) as l.
  induction l as [|i l IH]; cbn [map]; [apply Nat.le_0_l|].
  rewrite !list_sum_cons.
  pose proof (batch_true_in_top_k_le_k k (predicted vs (test_batch aminer i))
                (labels_of (test_batch aminer i))).
  nia.
Qed.

Lemma fraction_bound (a b t : nat) :
  (a <= b)%nat -> t <> 0%nat -> INR a / INR t * INR t <= INR b.
Proof.
  intros H T. apply le_INR in H.
  replace (INR a / INR t * INR t) with (INR a); [assumption|].
  field. now apply not_0_INR.
Qed.

(** X16: every edge counts at most [k] hits, so over well-formed test
    batches with at least one true label the value reported for [k], times
    the number of true labels, is at most [k] times the number of test
    edges: where the edges carry more than [k] labels on average the
    reported value stays below 1 whatever the predictions are. *)
Theorem reported_hits_at_most_k_per_edge aminer vs rnd call :
  declared_shapes aminer vs ->
  batches_ok aminer vs (test_total_batch aminer) call ->
  evaluation_true_labels aminer (test_total_batch aminer) call <> 0%nat ->
  let labels :=
    INR (evaluation_true_labels aminer (test_total_batch aminer) call) in
  let edges :=
    INR (evaluation_edges aminer (test_total_batch aminer) call) in
  exists r1 r5 r10,
    evaluate aminer vs rnd call = Ok [Value r1; Value r5; Value r10] /\
    r1 * labels <= 1 * edges /\
    r5 * labels <= 5 * edges /\
    r10 * labels <= 10 * edges.
Proof.
  intros D B T labels edges. subst labels edges.
  rewrite (evaluate_counts aminer vs rnd call D B T). cbn [hits_k map].
  do 3 eexists. split; [reflexivity|].
  set (n := test_total_batch aminer) in *.
  pose proof (evaluation_hits_le_k aminer vs 1 n call) as H1.
  pose proof (evaluation_hits_le_k aminer vs 5 n call) as H5.
  pose proof (evaluation_hits_le_k aminer vs 10 n call) as H10.
  apply (fun H => fraction_bound _ _ (evaluation_true_labels aminer n call) H T)
    in H1, H5, H10.
  rewrite mult_INR in H1, H5, H10.
  change (INR 1) with 1 in H1.
  replace (INR 5) with 5 in H5 by (cbn; lra).
  replace (INR 10) with 10 in H10 by (cbn; lra).
  now repeat split.
Qed.

Lemma reported_hits_at_most_k_per_edge_witness :
  let labels :=
    INR (evaluation_true_labels (ten_labels 2000 first_label)
           (test_total_batch (ten_labels 2000 first_label)) 0) in
  let edges :=
    INR (evaluation_edges (ten_labels 2000 first_label)
           (test_total_batch (ten_labels 2000 first_label)) 0) in
  exists r1 r5 r10,
    evaluate (ten_labels 2000 first_label) ten_labels_model
      (fun _ => keep_all) 0 = Ok [Value r1; Value r5; Value r10] /\
    r1 * labels <= 1 * edges /\
    r5 * labels <= 5 * edges /\
    r10 * labels <= 10 * edges.
Proof.
  apply (reported_hits_at_most_k_per_edge (ten_labels 2000 first_label)
           ten_labels_model (fun _ => keep_all) 0%nat).
  - apply one_vertex_shapes. reflexivity.
  - apply ten_labels_batches_ok; [apply first_label_multi_hot | reflexivity].
  - rewrite ten_labels_one_batch, first_label_counted. discriminate.
Defined.
